(** * GtkExpression: evaluation, watches and binds (gtk/gtkexpression.c)

    A shallow embedding of the expression engine of gtk/gtkexpression.c.
    The GObject side (instances, properties, reference counts, GValue) is
    the host object model the C file calls into; it is modelled here as
    typed stores inside one [World] record, and every C function that
    takes pointers becomes a state-passing function over that record.

    Conventions:
    - an expression tree is a value; the one node with mutable fields, the
      object expression, lives in a store and the tree holds its address.
      Reference counts of expressions are not modelled;
    - reference counts of GObjects and the number of initialised GValues
      are counters of the world, so that leaks show;
    - a call through a function pointer (a notify or destroy callback, the
      callable of a closure) is recorded in the trace of the world.  The
      callbacks of the caller are opaque; the two callbacks a bind
      installs, gtk_expression_bind_notify and gtk_expression_bind_free,
      run when they are called;
    - g_object_weak_ref and g_object_weak_unref are recorded in the trace;
      the functions GObject calls back on destruction are modelled, the
      destruction itself is not;
    - g_object_set_property stores the value; the "notify" signal it
      emits, and the handlers a property sub-watch connects to it, are not
      run;
    - g_return_if_fail checks are modelled as the early returns they
      are. *)

From stdpp Require Import base numbers option list gmap strings.

Local Open Scope Z_scope.

(** ** The host object model *)

Definition GType := string.
Definition ObjId := positive.     (* address of a GObject instance *)
Definition ExprId := positive.    (* address of a GtkObjectExpression node *)
Definition WatchId := positive.   (* address of a GtkExpressionWatch box *)
Definition BindId := positive.    (* address of a GtkExpressionBind slice *)

(** Contents of an initialised GValue.  A value whose GType derives from
    G_TYPE_OBJECT is a [V_object]; its pointer may be NULL. *)
Inductive GValueData :=
| V_int (n : Z)
| V_string (s : string)
| V_object (o : option ObjId).

(** A GValue slot: zero-filled (G_VALUE_INIT) or initialised. *)
Inductive GValue :=
| G_VALUE_INIT
| G_VALUE (data : GValueData).

Global Instance GValueData_eq_dec : EqDecision GValueData.
Proof. solve_decision. Defined.
Global Instance GValue_eq_dec : EqDecision GValue.
Proof. solve_decision. Defined.

Definition G_VALUE_HOLDS_OBJECT (value : GValue) : bool :=
  match value with
  | G_VALUE (V_object _) => true
  | _ => false
  end.

(** GParamSpec: the fields gtkexpression.c reads. *)
Record GParamSpec := mkGParamSpec {
  name : string;
  owner_type : GType;
  G_PARAM_WRITABLE : bool;
  G_PARAM_CONSTRUCT_ONLY : bool
}.

(** A live GObject instance: the types it conforms to (its class, the
    ancestors of the class and the interfaces it implements), the param
    specs of its class, its property values, and the list kept under the
    "gtk-expression-binds" data key. *)
Record GObject := mkGObject {
  g_class : list GType;
  class_properties : gmap string GParamSpec;
  properties : gmap string GValueData;
  expression_binds : list BindId
}.

(** The callable of a closure expression: opaque to the engine.  It is a
    function of the argument values; every invocation is recorded in the
    trace. *)
Record GClosure := mkGClosure {
  closure_id : nat;
  callback : list GValue → GValueData
}.

(** Function pointers of type GtkExpressionNotify and GDestroyNotify, and
    the gpointer passed along with them. *)
Inductive gpointer :=
| NULL
| user_pointer (n : nat)
| watch_pointer (w : WatchId)
| sub_pointer (w : WatchId) (offset : N)
| expression_pointer (x : ExprId)
| bind_pointer (b : BindId).

Inductive GtkExpressionNotify :=
| user_notify (f : nat)
| fn_gtk_expression_watch_cb
| fn_gtk_property_expression_watch_expr_notify_cb
| fn_gtk_closure_expression_watch_notify_cb
| fn_gtk_expression_bind_notify.

Inductive GDestroyNotify :=
| user_destroy_notify (f : nat)
| fn_gtk_expression_bind_free.

Inductive GWeakNotify :=
| fn_gtk_object_expression_weak_ref_cb
| fn_gtk_expression_watch_this_cb
| fn_invalidate_binds.

Global Instance gpointer_eq_dec : EqDecision gpointer.
Proof. solve_decision. Defined.
Global Instance GtkExpressionNotify_eq_dec : EqDecision GtkExpressionNotify.
Proof. solve_decision. Defined.
Global Instance GDestroyNotify_eq_dec : EqDecision GDestroyNotify.
Proof. solve_decision. Defined.
Global Instance GWeakNotify_eq_dec : EqDecision GWeakNotify.
Proof. solve_decision. Defined.

(** ** Expressions *)

(** The mutable fields of struct _GtkObjectExpression; [watches] holds
    the addresses of the GtkObjectExpressionWatch slots: the watch box and
    the offset in its buffer. *)
Record GtkObjectExpression := mkObjectExpression {
  object : option ObjId;
  watches : list (WatchId * N)
}.

(** The four expression classes.  An object expression is shared and
    mutated behind the tree, so the tree holds its address. *)
#[local] Unset Elimination Schemes.
Inductive GtkExpression :=
| GtkConstantExpression (value : GValueData)
| GtkObjectExpressionRef (self : ExprId)
| GtkPropertyExpression (expr : option GtkExpression) (pspec : GParamSpec)
| GtkClosureExpression (closure : GClosure) (params : list GtkExpression).
#[local] Set Elimination Schemes.

(** struct _GtkExpressionWatch, without the trailing buffer. *)
Record GtkExpressionWatch := mkWatch {
  expression : option GtkExpression;
  this : option ObjId;
  user_destroy : option GDestroyNotify;
  notify : GtkExpressionNotify;
  user_data : gpointer;
  watch_ref_count : Z
}.

(** GtkExpressionBind. *)
Record GtkExpressionBind := mkBind {
  bind_watch : option WatchId;
  bind_target : option ObjId;
  bind_pspec : GParamSpec
}.

(** The per-node records laid out in a watch's buffer. *)
Inductive GtkExpressionSubWatch :=
| ObjectSubWatch (onotify : GtkExpressionNotify) (ouser_data : gpointer)
| PropertySubWatch (pnotify : GtkExpressionNotify) (puser_data : gpointer)
    (pexpr : option GtkExpression) (ppspec : GParamSpec)
    (pthis : option ObjId) (pclosure : option ObjId)
| ClosureSubWatch (cnotify : GtkExpressionNotify) (cuser_data : gpointer).

(** Calls that leave the engine. *)
Inductive Event :=
| EvClosureInvoke (c : nat) (args : list GValue)
| EvNotify (f : GtkExpressionNotify) (data : gpointer)
| EvDestroyNotify (f : GDestroyNotify) (data : gpointer)
| EvWeakRef (o : ObjId) (f : GWeakNotify) (data : gpointer)
| EvWeakUnref (o : ObjId) (f : GWeakNotify) (data : gpointer)
| EvSetProperty (o : ObjId) (prop : string) (v : GValue)
| EvCritical (msg : string).

(** ** The world *)

Record World := mkWorld {
  objects : gmap ObjId GObject;
  object_exprs : gmap ExprId GtkObjectExpression;
  expression_watches : gmap WatchId GtkExpressionWatch;
  sub_watches : gmap (WatchId * N) GtkExpressionSubWatch;
  expression_bind_table : gmap BindId GtkExpressionBind;
  ref_counts : ObjId → Z;
  live_values : Z;
  trace : list Event
}.

Definition set_objects (f : gmap ObjId GObject → gmap ObjId GObject) (W : World) : World :=
  mkWorld (f (objects W)) (object_exprs W) (expression_watches W) (sub_watches W)
          (expression_bind_table W) (ref_counts W) (live_values W) (trace W).
Definition set_object_exprs (f : gmap ExprId GtkObjectExpression → gmap ExprId GtkObjectExpression)
    (W : World) : World :=
  mkWorld (objects W) (f (object_exprs W)) (expression_watches W) (sub_watches W)
          (expression_bind_table W) (ref_counts W) (live_values W) (trace W).
Definition set_expression_watches (f : gmap WatchId GtkExpressionWatch → gmap WatchId GtkExpressionWatch)
    (W : World) : World :=
  mkWorld (objects W) (object_exprs W) (f (expression_watches W)) (sub_watches W)
          (expression_bind_table W) (ref_counts W) (live_values W) (trace W).
Definition set_sub_watches
    (f : gmap (WatchId * N) GtkExpressionSubWatch → gmap (WatchId * N) GtkExpressionSubWatch)
    (W : World) : World :=
  mkWorld (objects W) (object_exprs W) (expression_watches W) (f (sub_watches W))
          (expression_bind_table W) (ref_counts W) (live_values W) (trace W).
Definition set_expression_bind_table (f : gmap BindId GtkExpressionBind → gmap BindId GtkExpressionBind)
    (W : World) : World :=
  mkWorld (objects W) (object_exprs W) (expression_watches W) (sub_watches W)
          (f (expression_bind_table W)) (ref_counts W) (live_values W) (trace W).
Definition set_ref_counts (f : (ObjId → Z) → ObjId → Z) (W : World) : World :=
  mkWorld (objects W) (object_exprs W) (expression_watches W) (sub_watches W)
          (expression_bind_table W) (f (ref_counts W)) (live_values W) (trace W).
Definition set_live_values (f : Z → Z) (W : World) : World :=
  mkWorld (objects W) (object_exprs W) (expression_watches W) (sub_watches W)
          (expression_bind_table W) (ref_counts W) (f (live_values W)) (trace W).
Definition log (ev : Event) (W : World) : World :=
  mkWorld (objects W) (object_exprs W) (expression_watches W) (sub_watches W)
          (expression_bind_table W) (ref_counts W) (live_values W) (trace W ++ [ev]).

(** State passing, for the functions that return a result. *)
Definition M (A : Type) : Type := World → A * World.
Definition ret {A} (a : A) : M A := λ W, (a, W).
Definition bind {A B} (m : M A) (k : A → M B) : M B := λ W, k (m W).1 (m W).2.
Definition exec (f : World → World) : M unit := λ W, (tt, f W).

Notation "'let*' x ':=' m 'in' k" := (bind m (λ x, k))
  (at level 10, x name, m at level 100, k at level 200, only parsing).
Notation "m ';;;' k" := (bind m (λ _, k))
  (at level 100, k at level 200, right associativity, only parsing).

(** ** GObject and GValue primitives *)

Definition bump (o : ObjId) (d : Z) (rc : ObjId → Z) : ObjId → Z :=
  λ o', if decide (o' = o) then rc o' + d else rc o'.

Definition g_object_ref (o : ObjId) : World → World := set_ref_counts (bump o 1).
Definition g_object_unref (o : ObjId) : World → World := set_ref_counts (bump o (-1)).

(** The reference a value's contents hold. *)
Definition data_ref (d : GValueData) : World → World :=
  match d with
  | V_object (Some o) => g_object_ref o
  | _ => id
  end.
Definition data_unref (d : GValueData) : World → World :=
  match d with
  | V_object (Some o) => g_object_unref o
  | _ => id
  end.

(** g_value_init followed by storing [d] with a reference of its own
    (g_value_copy, g_value_set_object, a marshalled return value). *)
Definition g_value_init_with (d : GValueData) : M GValue :=
  λ W, (G_VALUE d, data_ref d (set_live_values (Z.succ) W)).

(** g_value_unset: nothing on a zero-filled slot. *)
Definition g_value_unset (value : GValue) : World → World :=
  match value with
  | G_VALUE_INIT => id
  | G_VALUE d => λ W, data_unref d (set_live_values (Z.pred) W)
  end.

(** g_value_dup_object: the pointer, with a new reference unless NULL. *)
Definition g_value_dup_object (value : GValue) : M (option ObjId) :=
  match value with
  | G_VALUE (V_object (Some o)) => λ W, (Some o, g_object_ref o W)
  | _ => ret None
  end.

(** G_IS_OBJECT on a non-NULL pointer: it points to a live instance. *)
Definition G_IS_OBJECT (W : World) (o : ObjId) : bool :=
  bool_decide (is_Some (objects W !! o)).

(** G_TYPE_CHECK_INSTANCE_TYPE. *)
Definition G_TYPE_CHECK_INSTANCE_TYPE (W : World) (o : ObjId) (t : GType) : bool :=
  match objects W !! o with
  | Some obj => bool_decide (t ∈ g_class obj)
  | None => false
  end.

(** g_object_get_property into a zero-filled slot: the slot is initialised
    with a copy of the property; when the instance has no property of that
    name GObject warns and leaves the slot alone. *)
Definition g_object_get_property (o : ObjId) (property_name : string) : M GValue :=
  λ W, match objects W !! o with
       | Some obj =>
           match properties obj !! property_name with
           | Some d => g_value_init_with d W
           | None => (G_VALUE_INIT, W)
           end
       | None => (G_VALUE_INIT, W)
       end.

(** g_object_set_property: stores a copy of the value's contents; an
    empty value is refused (G_IS_VALUE).  The conversion to the type of the
    property is not modelled. *)
Definition g_object_set_property (o : ObjId) (property_name : string) (value : GValue)
    : World → World :=
  λ W, match value with
       | G_VALUE d =>
           log (EvSetProperty o property_name value)
             (set_objects (alter (λ obj, mkGObject (g_class obj) (class_properties obj)
                                     (<[property_name := d]> (properties obj))
                                     (expression_binds obj)) o) W)
       | G_VALUE_INIT => W
       end.

(** ** is_static (the class functions and gtk_expression_is_static) *)

Fixpoint gtk_expression_is_static (self : GtkExpression) : bool :=
  match self with
  | GtkConstantExpression _ => true          (* gtk_constant_expression_is_static *)
  | GtkObjectExpressionRef _ => false        (* gtk_object_expression_is_static *)
  | GtkPropertyExpression _ _ => false       (* gtk_property_expression_is_static *)
  | GtkClosureExpression _ params =>         (* gtk_closure_expression_is_static *)
      (fix loop (ps : list GtkExpression) : bool :=
         match ps with
         | [] => true
         | p :: ps' => if negb (gtk_expression_is_static p) then false else loop ps'
         end) params
  end.

(** ** evaluate *)

Definition gboolean := bool.

(** The precondition of the public entry points on [this_]:
    this_ == NULL || G_IS_OBJECT (this_). *)
Definition this_is_valid (W : World) (this_ : option ObjId) : bool :=
  match this_ with
  | None => true
  | Some o => G_IS_OBJECT W o
  end.

(** gtk_constant_expression_evaluate *)
Definition gtk_constant_expression_evaluate (value : GValueData) (this_ : option ObjId)
    : M (gboolean * GValue) :=
  let* v := g_value_init_with value in
  ret (true, v).

(** gtk_object_expression_evaluate *)
Definition gtk_object_expression_evaluate (self : ExprId) (this_ : option ObjId)
    : M (gboolean * GValue) :=
  λ W, match object <$> object_exprs W !! self with
       | Some (Some o) =>
           (let* v := g_value_init_with (V_object (Some o)) in
            ret (true, v)) W
       | _ => ((false, G_VALUE_INIT), W)
       end.

Section class_functions.
(** gtk_expression_evaluate on the operands of the node at hand. *)
Variable evaluate : GtkExpression → option ObjId → M (gboolean * GValue).

(** gtk_property_expression_get_object *)
Definition gtk_property_expression_get_object
    (expr : option GtkExpression) (pspec : GParamSpec) (this_ : option ObjId)
    : M (option ObjId) :=
  match expr with
  | None =>
      match this_ with
      | Some t => exec (g_object_ref t) ;;; ret (Some t)
      | None => ret None
      end
  | Some e =>
      let* r := evaluate e this_ in
      let expr_value := r.2 in
      if negb r.1 then ret None
      else if negb (G_VALUE_HOLDS_OBJECT expr_value) then
        exec (g_value_unset expr_value) ;;; ret None
      else
        let* obj := g_value_dup_object expr_value in
        exec (g_value_unset expr_value) ;;;
        match obj with
        | None => ret None
        | Some o =>
            λ W, if negb (G_TYPE_CHECK_INSTANCE_TYPE W o (owner_type pspec))
                 then (None, g_object_unref o W)
                 else (Some o, W)
        end
  end.

(** gtk_property_expression_evaluate *)
Definition gtk_property_expression_evaluate
    (expr : option GtkExpression) (pspec : GParamSpec) (this_ : option ObjId)
    : M (gboolean * GValue) :=
  let* obj := gtk_property_expression_get_object expr pspec this_ in
  match obj with
  | None => ret (false, G_VALUE_INIT)
  | Some o =>
      let* v := g_object_get_property o (name pspec) in
      exec (g_object_unref o) ;;;
      ret (true, v)
  end.

(** The first loop of gtk_closure_expression_evaluate: parameter [i] is
    evaluated into instance_and_params[i + 1]; the loop stops at the
    first failure. *)
Fixpoint gtk_closure_expression_evaluate_params
    (params : list GtkExpression) (i : nat) (this_ : option ObjId)
    (instance_and_params : list GValue) : M (gboolean * list GValue) :=
  match params with
  | [] => ret (true, instance_and_params)
  | p :: rest =>
      let* r := evaluate p this_ in
      if negb r.1 then ret (false, instance_and_params)
      else gtk_closure_expression_evaluate_params rest (S i) this_
             (<[S i := r.2]> instance_and_params)
  end.

(** The loop at the label [out]. *)
Definition unset_all (instance_and_params : list GValue) : World → World :=
  λ W, foldl (λ W' v, g_value_unset v W') W instance_and_params.

(** g_closure_invoke with [value] initialised for the return value. *)
Definition g_closure_invoke (closure : GClosure) (args : list GValue) : M GValue :=
  λ W, g_value_init_with (callback closure args)
         (log (EvClosureInvoke (closure_id closure) args) W).

(** gtk_closure_expression_evaluate *)
Definition gtk_closure_expression_evaluate
    (closure : GClosure) (params : list GtkExpression) (this_ : option ObjId)
    : M (gboolean * GValue) :=
  let n_params := length params in
  let instance_and_params := replicate (n_params + 1)%nat G_VALUE_INIT in
  let* r := gtk_closure_expression_evaluate_params params 0 this_ instance_and_params in
  if negb r.1 then
    exec (unset_all r.2) ;;; ret (false, G_VALUE_INIT)
  else
    let* instance :=
      match this_ with
      | Some t => g_value_init_with (V_object (Some t))  (* g_value_init_from_instance *)
      | None => g_value_init_with (V_object None)        (* g_value_init (.., G_TYPE_OBJECT) *)
      end in
    let instance_and_params := <[0%nat := instance]> r.2 in
    let* value := g_closure_invoke closure instance_and_params in
    exec (unset_all instance_and_params) ;;;
    ret (true, value).
End class_functions.

(** gtk_expression_evaluate: the precondition on [this_], then the class
    function. *)
Fixpoint gtk_expression_evaluate (self : GtkExpression) (this_ : option ObjId)
    : M (gboolean * GValue) :=
  λ W,
    if negb (this_is_valid W this_) then ((false, G_VALUE_INIT), W)
    else
      match self with
      | GtkConstantExpression value => gtk_constant_expression_evaluate value this_ W
      | GtkObjectExpressionRef x => gtk_object_expression_evaluate x this_ W
      | GtkPropertyExpression expr pspec =>
          gtk_property_expression_evaluate gtk_expression_evaluate expr pspec this_ W
      | GtkClosureExpression closure params =>
          gtk_closure_expression_evaluate gtk_expression_evaluate closure params this_ W
      end.

(** ** Object expressions: construction and destruction of the object *)

(** g_slist_remove: drops the first cell holding [x]. *)
Fixpoint g_slist_remove {A} `{EqDecision A} (l : list A) (x : A) : list A :=
  match l with
  | [] => []
  | y :: l' => if decide (y = x) then l' else y :: g_slist_remove l' x
  end.

(** gtk_object_expression_new *)
Definition gtk_object_expression_new (o : ObjId) : M (option GtkExpression) :=
  λ W, if negb (G_IS_OBJECT W o) then (None, W)
       else
         let result := fresh (dom (object_exprs W)) in
         (Some (GtkObjectExpressionRef result),
          log (EvWeakRef o fn_gtk_object_expression_weak_ref_cb (expression_pointer result))
            (set_object_exprs (<[result := mkObjectExpression (Some o) []]>) W)).

(** The call owatch->notify (owatch->user_data), for the slot at address
    [l]. *)
Definition owatch_call (W : World) (l : WatchId * N) : option Event :=
  match sub_watches W !! l with
  | Some (ObjectSubWatch onotify ouser_data) => Some (EvNotify onotify ouser_data)
  | _ => None
  end.

(** gtk_object_expression_weak_ref_cb: called by GObject while [object]
    is being destroyed. *)
Definition gtk_object_expression_weak_ref_cb (self : ExprId) : World → World :=
  λ W, match object_exprs W !! self with
       | Some node =>
           let W1 := set_object_exprs (<[self := mkObjectExpression None (watches node)]>) W in
           foldl (λ W' l, match owatch_call W' l with
                          | Some ev => log ev W'
                          | None => W'
                          end) W1 (watches node)
       | None => W
       end.

(** ** Sub-watches: sizes, installation, teardown *)

Local Open Scope N_scope.

(** Struct sizes on an LP64 target (8-byte pointers). *)
Definition sizeof_gpointer : N := 8.
Definition sizeof_GtkObjectExpressionWatch : N := 2 * sizeof_gpointer.
Definition sizeof_GtkPropertyExpressionWatch : N := 5 * sizeof_gpointer.
Definition sizeof_GtkClosureExpressionWatch : N := 2 * sizeof_gpointer.

(** gtk_expression_watch_size and the four class functions.  Sizes are
    natural numbers: the gsize additions are taken not to wrap. *)
Fixpoint gtk_expression_watch_size (self : GtkExpression) : N :=
  match self with
  | GtkConstantExpression _ => 0                 (* gtk_expression_watch_size_static *)
  | GtkObjectExpressionRef _ => sizeof_GtkObjectExpressionWatch
  | GtkPropertyExpression expr _ =>              (* gtk_property_expression_watch_size *)
      let result := sizeof_GtkPropertyExpressionWatch in
      match expr with
      | Some e => result + gtk_expression_watch_size e
      | None => result
      end
  | GtkClosureExpression _ params =>             (* gtk_closure_expression_watch_size *)
      (fix loop (ps : list GtkExpression) (size : N) : N :=
         match ps with
         | [] => size
         | p :: ps' =>
             if gtk_expression_is_static p then loop ps' size
             else loop ps' (size + gtk_expression_watch_size p)
         end) params sizeof_GtkClosureExpressionWatch
  end.

(** gtk_property_expression_watch_destroy_closure *)
Definition gtk_property_expression_watch_destroy_closure (w : WatchId) (off : N)
    : World → World :=
  λ W, match sub_watches W !! (w, off) with
       | Some (PropertySubWatch n d e ps t (Some _)) =>
           set_sub_watches (<[(w, off) := PropertySubWatch n d e ps t None]>) W
       | _ => W
       end.

(** gtk_property_expression_watch_create_closure: the closure is connected
    to "notify::name" of the object the expression currently resolves to;
    [pclosure] records that object. *)
Definition gtk_property_expression_watch_create_closure (w : WatchId) (off : N)
    : World → World :=
  λ W, match sub_watches W !! (w, off) with
       | Some (PropertySubWatch n d e ps t _) =>
           let r := gtk_property_expression_get_object gtk_expression_evaluate e ps t W in
           match r.1 with
           | None => r.2
           | Some o =>
               g_object_unref o
                 (set_sub_watches (<[(w, off) := PropertySubWatch n d e ps t (Some o)]>) r.2)
           end
       | _ => W
       end.

(** gtk_expression_subwatch_init: dispatches to gtk_expression_watch_static,
    gtk_object_expression_watch, gtk_property_expression_watch and
    gtk_closure_expression_watch.  The slot is the one at byte [off] of the
    buffer of watch [w]. *)
Fixpoint gtk_expression_subwatch_init (self : GtkExpression) (w : WatchId) (off : N)
    (this_ : option ObjId) (notify_ : GtkExpressionNotify) (user_data_ : gpointer)
    : World → World :=
  match self with
  | GtkConstantExpression _ => id
  | GtkObjectExpressionRef x =>
      λ W, set_object_exprs
             (alter (λ node, mkObjectExpression (object node) ((w, off) :: watches node)) x)
             (set_sub_watches (<[(w, off) := ObjectSubWatch notify_ user_data_]>) W)
  | GtkPropertyExpression expr pspec =>
      λ W,
        let W1 := set_sub_watches
                    (<[(w, off) := PropertySubWatch notify_ user_data_ expr pspec this_ None]>) W in
        let W2 :=
          match expr with
          | Some e =>
              if negb (gtk_expression_is_static e) then
                gtk_expression_subwatch_init e w (off + sizeof_GtkPropertyExpressionWatch) this_
                  fn_gtk_property_expression_watch_expr_notify_cb (sub_pointer w off) W1
              else W1
          | None => W1
          end in
        gtk_property_expression_watch_create_closure w off W2
  | GtkClosureExpression _ params =>
      λ W,
        let W1 := set_sub_watches (<[(w, off) := ClosureSubWatch notify_ user_data_]>) W in
        (fix loop (ps : list GtkExpression) (sub : N) (W' : World) : World :=
           match ps with
           | [] => W'
           | p :: ps' =>
               if gtk_expression_is_static p then loop ps' sub W'
               else loop ps' (sub + gtk_expression_watch_size p)
                      (gtk_expression_subwatch_init p w sub this_
                         fn_gtk_closure_expression_watch_notify_cb (sub_pointer w off) W')
           end) params (off + sizeof_GtkClosureExpressionWatch) W1
  end.

(** gtk_expression_subwatch_finish: dispatches to
    gtk_expression_unwatch_static, gtk_object_expression_unwatch,
    gtk_property_expression_unwatch and gtk_closure_expression_unwatch. *)
Fixpoint gtk_expression_subwatch_finish (self : GtkExpression) (w : WatchId) (off : N)
    : World → World :=
  match self with
  | GtkConstantExpression _ => id
  | GtkObjectExpressionRef x =>
      set_object_exprs
        (alter (λ node, mkObjectExpression (object node) (g_slist_remove (watches node) (w, off))) x)
  | GtkPropertyExpression expr pspec =>
      λ W,
        let W1 := gtk_property_expression_watch_destroy_closure w off W in
        match expr with
        | Some e =>
            if negb (gtk_expression_is_static e) then
              gtk_expression_subwatch_finish e w (off + sizeof_GtkPropertyExpressionWatch) W1
            else W1
        | None => W1
        end
  | GtkClosureExpression _ params =>
      (fix loop (ps : list GtkExpression) (sub : N) (W' : World) : World :=
         match ps with
         | [] => W'
         | p :: ps' =>
             if gtk_expression_is_static p then loop ps' sub W'
             else loop ps' (sub + gtk_expression_watch_size p)
                    (gtk_expression_subwatch_finish p w sub W')
         end) params (off + sizeof_GtkClosureExpressionWatch)
  end.

(** The size in bytes of a sub-watch record. *)
Definition sizeof_sub_watch (r : GtkExpressionSubWatch) : N :=
  match r with
  | ObjectSubWatch _ _ => sizeof_GtkObjectExpressionWatch
  | PropertySubWatch _ _ _ _ _ _ => sizeof_GtkPropertyExpressionWatch
  | ClosureSubWatch _ _ => sizeof_GtkClosureExpressionWatch
  end.

(** One past the last byte of the buffer of watch [w] that holds a record:
    the span of the buffer in use. *)
Definition buffer_span (W : World) (w : WatchId) : N :=
  map_fold (λ k r acc, if decide (k.1 = w) then N.max acc (k.2 + sizeof_sub_watch r) else acc)
           0 (sub_watches W).

Local Close Scope N_scope.

(** ** GtkExpressionWatch *)

(** gtk_expression_watch_is_watching *)
Definition gtk_expression_watch_is_watching (watch : GtkExpressionWatch) : bool :=
  match expression watch with
  | Some _ => true
  | None => false
  end.

(** gtk_expression_watch_ref / gtk_expression_watch_unref: the count of
    the atomic rc box.  A box whose count reached zero has been released;
    its record stays in the store as the memory stays where it was. *)
Definition gtk_expression_watch_ref (w : WatchId) : World → World :=
  set_expression_watches
    (alter (λ watch, mkWatch (expression watch) (this watch) (user_destroy watch)
                             (notify watch) (user_data watch) (watch_ref_count watch + 1)) w).
Definition gtk_expression_watch_unref (w : WatchId) : World → World :=
  set_expression_watches
    (alter (λ watch, mkWatch (expression watch) (this watch) (user_destroy watch)
                             (notify watch) (user_data watch) (watch_ref_count watch - 1)) w).

(** gtk_expression_watch_evaluate; [None] is the NULL watch, refused by
    g_return_val_if_fail. *)
Definition gtk_expression_watch_evaluate (watch : option WatchId) : M (gboolean * GValue) :=
  λ W, match watch ≫= (λ w, expression_watches W !! w) with
       | Some wr =>
           match expression wr with
           | None => ((false, G_VALUE_INIT), W)
           | Some e => gtk_expression_evaluate e (this wr) W
           end
       | None => ((false, G_VALUE_INIT), W)
       end.

(** ** GtkExpressionBind *)

(** gtk_expression_bind_notify *)
Definition gtk_expression_bind_notify (b : BindId) : World → World :=
  λ W, match expression_bind_table W !! b with
       | Some bind_ =>
           match bind_target bind_ with
           | None => W
           | Some target =>
               let r := gtk_expression_watch_evaluate (bind_watch bind_) W in
               if negb r.1.1 then r.2
               else
                 g_value_unset r.1.2
                   (g_object_set_property target (name (bind_pspec bind_)) r.1.2 r.2)
           end
       | None => W
       end.

(** g_object_steal_data / g_object_set_data_full on "gtk-expression-binds". *)
Definition set_expression_binds (target : ObjId) (binds : list BindId) : World → World :=
  set_objects (alter (λ obj, mkGObject (g_class obj) (class_properties obj)
                                         (properties obj) binds) target).
Definition get_expression_binds (W : World) (target : ObjId) : list BindId :=
  default [] (expression_binds <$> objects W !! target).

(** gtk_expression_bind_free *)
Definition gtk_expression_bind_free (b : BindId) : World → World :=
  λ W, match expression_bind_table W !! b with
       | Some bind_ =>
           match bind_target bind_ with
           | Some target =>
               let binds := g_slist_remove (get_expression_binds W target) b in
               let W1 := set_expression_binds target binds W in
               let W2 := match binds with
                         | [] => log (EvWeakUnref target fn_invalidate_binds NULL) W1
                         | _ => W1
                         end in
               set_expression_bind_table (delete b) W2
           | None =>
               set_expression_bind_table
                 (<[b := mkBind None None (bind_pspec bind_)]>) W
           end
       | None => W
       end.

(** Calls through the function pointers a watch holds.  The call is
    recorded; when the pointer is one of the two functions this file
    installs itself, the function runs. *)
Definition call_notify (f : GtkExpressionNotify) (data : gpointer) : World → World :=
  λ W, let W1 := log (EvNotify f data) W in
       match f, data with
       | fn_gtk_expression_bind_notify, bind_pointer b => gtk_expression_bind_notify b W1
       | _, _ => W1
       end.

Definition call_destroy (f : GDestroyNotify) (data : gpointer) : World → World :=
  λ W, let W1 := log (EvDestroyNotify f data) W in
       match f, data with
       | fn_gtk_expression_bind_free, bind_pointer b => gtk_expression_bind_free b W1
       | _, _ => W1
       end.

(** gtk_expression_watch_unwatch *)
Definition gtk_expression_watch_unwatch (w : WatchId) : World → World :=
  λ W, match expression_watches W !! w with
       | Some watch =>
           match expression watch with
           | None => W
           | Some e =>
               let W1 := gtk_expression_subwatch_finish e w 0 W in
               let W2 := match this watch with
                         | Some t => log (EvWeakUnref t fn_gtk_expression_watch_this_cb
                                            (watch_pointer w)) W1
                         | None => W1
                         end in
               let W3 := match user_destroy watch with
                         | Some d => call_destroy d (user_data watch) W2
                         | None => W2
                         end in
               let W4 := set_expression_watches
                           (alter (λ wr, mkWatch None (this wr) (user_destroy wr) (notify wr)
                                                 (user_data wr) (watch_ref_count wr)) w) W3 in
               gtk_expression_watch_unref w W4
           end
       | None => W
       end.

(** gtk_expression_watch_this_cb: called by GObject while the [this] of
    the watch is being destroyed. *)
Definition gtk_expression_watch_this_cb (w : WatchId) : World → World :=
  λ W, match expression_watches W !! w with
       | Some watch =>
           let W1 := set_expression_watches
                       (<[w := mkWatch (expression watch) None (user_destroy watch)
                                       (notify watch) (user_data watch)
                                       (watch_ref_count watch)]>) W in
           let W2 := call_notify (notify watch) (user_data watch) W1 in
           gtk_expression_watch_unwatch w W2
       | None => W
       end.

(** gtk_expression_watch_cb *)
Definition gtk_expression_watch_cb (w : WatchId) : World → World :=
  λ W, match expression_watches W !! w with
       | Some watch =>
           if negb (gtk_expression_watch_is_watching watch) then W
           else call_notify (notify watch) (user_data watch) W
       | None => W
       end.

(** gtk_expression_watch.  The box is allocated with
    gtk_expression_watch_size (self) bytes of buffer after its header; the
    records of that buffer are the entries of [sub_watches] under the
    address of the box. *)
Definition gtk_expression_watch (self : GtkExpression) (this_ : option ObjId)
    (notify_ : GtkExpressionNotify) (user_data_ : gpointer)
    (user_destroy_ : option GDestroyNotify) : M (option WatchId) :=
  λ W, if negb (this_is_valid W this_) then (None, W)
       else
         let watch := fresh (dom (expression_watches W)) in
         let W1 := set_expression_watches
                     (<[watch := mkWatch (Some self) this_ user_destroy_ notify_ user_data_ 1]>) W in
         let W2 := match this_ with
                   | Some t => log (EvWeakRef t fn_gtk_expression_watch_this_cb
                                      (watch_pointer watch)) W1
                   | None => W1
                   end in
         (Some watch,
          gtk_expression_subwatch_init self watch 0 this_
            fn_gtk_expression_watch_cb (watch_pointer watch) W2).

(** The test on pspec->flags in gtk_expression_bind. *)
Definition is_writable (pspec : GParamSpec) : bool :=
  G_PARAM_WRITABLE pspec && negb (G_PARAM_CONSTRUCT_ONLY pspec).

(** gtk_expression_bind *)
Definition gtk_expression_bind (self : GtkExpression) (target : ObjId)
    (property : string) (this_ : option ObjId) : M (option WatchId) :=
  λ W, match objects W !! target with
       | None => (None, W)
       | Some obj =>
           match class_properties obj !! property with
           | None => (None, log (EvCritical "has no property") W)
           | Some pspec =>
               if negb (is_writable pspec) then (None, log (EvCritical "is not writable") W)
               else
                 let b := fresh (dom (expression_bind_table W)) in
                 let binds := get_expression_binds W target in
                 let W1 := set_expression_binds target [] W in
                 let W2 := match binds with
                           | [] => log (EvWeakRef target fn_invalidate_binds NULL) W1
                           | _ => W1
                           end in
                 let W3 := set_expression_bind_table
                             (<[b := mkBind None (Some target) pspec]>) W2 in
                 let r := gtk_expression_watch self this_ fn_gtk_expression_bind_notify
                            (bind_pointer b) (Some fn_gtk_expression_bind_free) W3 in
                 let W4 := set_expression_bind_table
                             (<[b := mkBind r.1 (Some target) pspec]>) r.2 in
                 let W5 := set_expression_binds target (b :: binds) W4 in
                 let W6 := gtk_expression_bind_notify b W5 in
                 (expression_bind_table W6 !! b ≫= bind_watch, W6)
           end
       end.


(** ** Resource accounting and framing, for the statements below *)

Local Open Scope Z_scope.

(** What an initialised value adds to the counters: one live value, and
    one reference on the object it points to. *)
Definition value_live (v : GValue) : Z :=
  match v with
  | G_VALUE_INIT => 0
  | G_VALUE _ => 1
  end.
Definition value_holds (v : GValue) (o : ObjId) : Z :=
  match v with
  | G_VALUE (V_object (Some o')) => if decide (o = o') then 1 else 0
  | _ => 0
  end.
Definition sum_live (vs : list GValue) : Z := foldr (λ v a, value_live v + a) 0 vs.
Definition sum_holds (vs : list GValue) (o : ObjId) : Z :=
  foldr (λ v a, value_holds v o + a) 0 vs.

(** The stores an evaluation reads but never writes. *)
Definition same_heap (W W' : World) : Prop :=
  objects W = objects W' ∧ object_exprs W = object_exprs W'.
Definition same_stores (W W' : World) : Prop :=
  objects W = objects W' ∧ object_exprs W = object_exprs W'
  ∧ expression_watches W = expression_watches W'
  ∧ sub_watches W = sub_watches W'
  ∧ expression_bind_table W = expression_bind_table W'.

(** The values of the parameters that evaluated before the first failure,
    and the array after storing them from index [j] on. *)
Fixpoint evaluated_prefix (rs : list (gboolean * GValue)) : list GValue :=
  match rs with
  | (true, v) :: rs' => v :: evaluated_prefix rs'
  | _ => []
  end.
Fixpoint store_from (j : nat) (vs : list GValue) (arr : list GValue) : list GValue :=
  match vs with
  | [] => arr
  | v :: vs' => store_from (S j) vs' (<[j := v]> arr)
  end.

(** How a trace grows: by closure invocations only, or by events other
    than a notification and other than dropping the weak reference a
    watch holds on its [this]. *)
Definition is_invoke (ev : Event) : Prop :=
  match ev with
  | EvClosureInvoke _ _ => True
  | _ => False
  end.
Definition is_quiet (ev : Event) : Prop :=
  match ev with
  | EvNotify _ _ => False
  | EvWeakUnref _ fn_gtk_expression_watch_this_cb _ => False
  | _ => True
  end.
Definition grows_by (P : Event → Prop) (tr tr' : list Event) : Prop :=
  ∃ evs, tr' = tr ++ evs ∧ Forall P evs.

(** What evaluation guarantees of one expression: it leaves the stores
    alone, the counters grow by what the returned value holds, a failure
    returns the slot untouched, the trace grows by closure invocations, and the result
    depends on the heap alone. *)
Definition evaluates_well (e : GtkExpression) : Prop :=
  ∀ this_ W,
    let r := gtk_expression_evaluate e this_ W in
    same_stores W r.2
    ∧ live_values r.2 = live_values W + value_live r.1.2
    ∧ (∀ o, ref_counts r.2 o = ref_counts W o + value_holds r.1.2 o)
    ∧ (r.1.1 = false → r.1.2 = G_VALUE_INIT)
    ∧ grows_by is_invoke (trace W) (trace r.2)
    ∧ (∀ W', same_heap W W' → (gtk_expression_evaluate e this_ W').1 = r.1).

(** ** A small scene, for the instances below

    A Foo with an integer property "width" and a Bar with a writable
    property "label"; Bar is not a Foo and has no "width". *)

Definition width_pspec : GParamSpec := mkGParamSpec "width" "Foo" true false.
Definition label_pspec : GParamSpec := mkGParamSpec "label" "Bar" true false.
Definition foo_instance : GObject :=
  mkGObject ["Foo"; "GObject"] {["width" := width_pspec]} {["width" := V_int 42]} [].
Definition bar_instance : GObject :=
  mkGObject ["Bar"; "GObject"] {["label" := label_pspec]} {["label" := V_int 0]} [].
Definition foo : ObjId := 1%positive.
Definition bar : ObjId := 2%positive.
Definition scene : World :=
  mkWorld {[foo := foo_instance; bar := bar_instance]} ∅ ∅ ∅ ∅ (λ _, 1) 0 [].

(** Looking up "width" on [this]. *)
Definition this_width : GtkExpression := GtkPropertyExpression None width_pspec.

(** A callable that counts its arguments. *)
Definition count_args : GClosure := mkGClosure 7 (λ args, V_int (Z.of_nat (length args))).

(** What installing and tearing down sub-watches leaves alone: they write
    the watch buffers and the listener lists of object expressions, and
    evaluate child expressions on the way. *)
Definition watch_frame (W W' : World) : Prop :=
  objects W = objects W'
  ∧ expression_watches W = expression_watches W'
  ∧ expression_bind_table W = expression_bind_table W'
  ∧ live_values W = live_values W'
  ∧ (∀ o, ref_counts W o = ref_counts W' o)
  ∧ grows_by is_invoke (trace W) (trace W').

(** The scene with an object expression on the Foo and two watches
    registered on it, in the buffers of watches 1 and 2. *)
Definition foo_expression : ExprId := 1%positive.
Definition watched_scene : World :=
  let W1 := (gtk_object_expression_new foo scene).2 in
  let W2 := gtk_expression_subwatch_init (GtkObjectExpressionRef foo_expression) 1%positive 0
              None fn_gtk_expression_watch_cb (watch_pointer 1%positive) W1 in
  gtk_expression_subwatch_init (GtkObjectExpressionRef foo_expression) 2%positive 0
    None fn_gtk_expression_watch_cb (watch_pointer 2%positive) W2.

(** The scene after binding the "label" of the Bar to the "width" of
    [this], with the Foo as [this]. *)
Definition bound_scene : World :=
  (gtk_expression_bind this_width bar "label" (Some foo) scene).2.
Definition bound_watch : GtkExpressionWatch :=
  mkWatch (Some this_width) (Some foo) (Some fn_gtk_expression_bind_free)
          fn_gtk_expression_bind_notify (bind_pointer 1%positive) 1.

(** A property expression whose child is a closure expression without
    parameters: the child is static. *)
Definition width_of_static_closure : GtkExpression :=
  GtkPropertyExpression (Some (GtkClosureExpression count_args [])) width_pspec.

(** The bytes a closure expression needs for the sub-watches of its
    parameters: the watch sizes of the parameters that are not static. *)
Fixpoint params_watch_size (params : list GtkExpression) : N :=
  match params with
  | [] => 0
  | p :: ps =>
      ((if gtk_expression_is_static p then 0 else gtk_expression_watch_size p)
       + params_watch_size ps)%N
  end.

(** ** The life of a watch

    The calls that can reach a watch once it exists: the public functions
    on it, the two callbacks the engine registered for it, and anything
    else, which leaves the box of the watch alone. *)
Inductive watch_step (w : WatchId) : World → World → Prop :=
| watch_step_ref W :
    watch_step w W (gtk_expression_watch_ref w W)
| watch_step_unref W :
    watch_step w W (gtk_expression_watch_unref w W)
| watch_step_evaluate W :
    watch_step w W (gtk_expression_watch_evaluate (Some w) W).2
| watch_step_unwatch W :
    watch_step w W (gtk_expression_watch_unwatch w W)
| watch_step_this_destroyed W :
    watch_step w W (gtk_expression_watch_this_cb w W)
| watch_step_cb W :
    watch_step w W (gtk_expression_watch_cb w W)
| watch_step_elsewhere W W' :
    expression_watches W' !! w = expression_watches W !! w →
    watch_step w W W'.

(** A watch created on [self] with [this_] either still holds both, or
    is unwatched. *)
Definition watch_invariant (w : WatchId) (self : GtkExpression) (this_ : option ObjId)
    (W : World) : Prop :=
  ∃ watch, expression_watches W !! w = Some watch
           ∧ (expression watch = None
              ∨ (expression watch = Some self ∧ this watch = this_)).

(** A watch on the "width" of the Foo, with a callback of the caller. *)
Definition watched_width : option WatchId * World :=
  gtk_expression_watch this_width (Some foo) (user_notify 0) (user_pointer 0) None scene.

(** ** Definitions for the further properties *)

(** What evaluation can see of an instance: its types and its property
    values. *)
Definition instance_view (obj : GObject) : list GType * gmap string GValueData :=
  (g_class obj, properties obj).

(** Two worlds with the same instances, as far as types and property
    values go, and the same object pointer in every object expression; the
    listener lists and the bind lists may differ. *)
Definition same_pointers (W W' : World) : Prop :=
  (∀ o, (instance_view <$> objects W !! o) = (instance_view <$> objects W' !! o))
  ∧ ∀ x, (object <$> object_exprs W !! x) = (object <$> object_exprs W' !! x).

(** The object-expression slots of a tree laid out from byte [off]: the
    object expression and the offset of each GtkObjectExpressionWatch, in
    the order in which watch and unwatch visit them. *)
Fixpoint params_object_slots (slots : GtkExpression → N → list (ExprId * N))
    (params : list GtkExpression) (sub : N) : list (ExprId * N) :=
  match params with
  | [] => []
  | p :: ps =>
      if gtk_expression_is_static p then params_object_slots slots ps sub
      else slots p sub ++ params_object_slots slots ps (sub + gtk_expression_watch_size p)%N
  end.
Fixpoint object_slots (e : GtkExpression) (off : N) : list (ExprId * N) :=
  match e with
  | GtkConstantExpression _ => []
  | GtkObjectExpressionRef x => [(x, off)]
  | GtkPropertyExpression (Some e') _ =>
      if gtk_expression_is_static e' then []
      else object_slots e' (off + sizeof_GtkPropertyExpressionWatch)%N
  | GtkPropertyExpression None _ => []
  | GtkClosureExpression _ params =>
      params_object_slots object_slots params (off + sizeof_GtkClosureExpressionWatch)%N
  end.

(** Listener lists after prepending, and after removing, the slots [S]
    of watch [w]. *)
Definition register_slots (w : WatchId) (S : list (ExprId * N))
    (m : gmap ExprId GtkObjectExpression) : gmap ExprId GtkObjectExpression :=
  foldl (λ m' s, alter (λ node, mkObjectExpression (object node) ((w, s.2) :: watches node))
                       s.1 m') m S.
Definition unregister_slots (w : WatchId) (S : list (ExprId * N))
    (m : gmap ExprId GtkObjectExpression) : gmap ExprId GtkObjectExpression :=
  foldl (λ m' s, alter (λ node, mkObjectExpression (object node)
                                   (g_slist_remove (watches node) (w, s.2)))
                       s.1 m') m S.
Definition slots_at (w : WatchId) (x : ExprId) (S : list (ExprId * N)) : list (WatchId * N) :=
  (λ s : ExprId * N, (w, s.2)) <$> filter (λ s : ExprId * N, s.1 = x) S.

(** ** The binds of a target that is destroyed *)

(** invalidate_binds: the weak notify gtk_expression_bind registers on a
    target; GObject calls it while the target is disposed. *)
Definition invalidate_binds (object : ObjId) : World → World :=
  λ W, foldl (λ W' b,
                set_expression_bind_table
                  (alter (λ bind_, mkBind (bind_watch bind_) None (bind_pspec bind_)) b) W')
             W (get_expression_binds W object).

(** free_binds: the destroy notify of the data "gtk-expression-binds",
    called with the list when the target is finalized.  [None] is the
    abort of the g_assert on a bind that still has its target, or the
    use of a slice that is no longer allocated. *)
Fixpoint free_binds (data : list BindId) (W : World) : option World :=
  match data with
  | [] => Some W
  | b :: l =>
      match expression_bind_table W !! b with
      | Some bind_ =>
          match bind_target bind_ with
          | Some _ => None
          | None =>
              let W1 := match bind_watch bind_ with
                        | Some w => gtk_expression_watch_unwatch w W
                        | None => W
                        end in
              free_binds l (set_expression_bind_table (delete b) W1)
          end
      | None => None
      end
  end.

(** What the bind list of every instance and the table of binds have to
    do with each other: a list names each bind once, and its binds are
    allocated and point back to the instance. *)
Definition binds_consistent (W : World) : Prop :=
  ∀ T obj, objects W !! T = Some obj →
    NoDup (expression_binds obj)
    ∧ ∀ b, b ∈ expression_binds obj →
        ∃ bind_, expression_bind_table W !! b = Some bind_ ∧ bind_target bind_ = Some T.

(** How one slot of the table of binds may change when a watch is
    removed: a slot that is not allocated stays so, and a bind without
    target stays allocated and without target, with its watch or with
    none. *)
Definition bind_slot_kept (m m' : gmap BindId GtkExpressionBind) (b : BindId) : Prop :=
  (m !! b = None → m' !! b = None)
  ∧ (∀ bind_, m !! b = Some bind_ → bind_target bind_ = None →
       ∃ bind', m' !! b = Some bind' ∧ bind_target bind' = None
                ∧ (bind_watch bind' = None ∨ bind' = bind_)).

(** What gtk_expression_bind asks of its target: a live instance whose
    class has a property of that name that can be written after
    construction. *)
Definition bindable (W : World) (target : ObjId) (property : string) : Prop :=
  ∃ obj pspec, objects W !! target = Some obj
               ∧ class_properties obj !! property = Some pspec
               ∧ is_writable pspec = true.

(** ** Calls through the notify pointers of sub-watches *)

(** The two fields every sub-watch record starts with, and the record
    without the signal connection a property sub-watch holds. *)
Definition sub_notify (rec : GtkExpressionSubWatch) : GtkExpressionNotify :=
  match rec with
  | ObjectSubWatch n _ => n
  | PropertySubWatch n _ _ _ _ _ => n
  | ClosureSubWatch n _ => n
  end.
Definition sub_user_data (rec : GtkExpressionSubWatch) : gpointer :=
  match rec with
  | ObjectSubWatch _ d => d
  | PropertySubWatch _ d _ _ _ _ => d
  | ClosureSubWatch _ d => d
  end.
Definition sub_header (rec : GtkExpressionSubWatch) : GtkExpressionSubWatch :=
  match rec with
  | PropertySubWatch n d e ps t _ => PropertySubWatch n d e ps t None
  | _ => rec
  end.

(** The functions the engine installs as notify of a sub-watch, with the
    call through a function pointer as a parameter.  [None] is a call on
    a pointer that does not hold the record the function casts it to. *)
Section notify_functions.

Variable call : GtkExpressionNotify → gpointer → World → option World.

(** gtk_property_expression_watch_notify_cb: the handler of "notify::name" *)
Definition gtk_property_expression_watch_notify_cb (w : WatchId) (off : N)
    : World → option World :=
  λ W, match sub_watches W !! (w, off) with
       | Some (PropertySubWatch n d _ _ _ _) => call n d W
       | _ => None
       end.

(** gtk_property_expression_watch_expr_notify_cb *)
Definition gtk_property_expression_watch_expr_notify_cb (w : WatchId) (off : N)
    : World → option World :=
  λ W, let W1 := gtk_property_expression_watch_create_closure w off
                   (gtk_property_expression_watch_destroy_closure w off W) in
       match sub_watches W1 !! (w, off) with
       | Some (PropertySubWatch n d _ _ _ _) => call n d W1
       | _ => None
       end.

(** gtk_closure_expression_watch_notify_cb *)
Definition gtk_closure_expression_watch_notify_cb (w : WatchId) (off : N)
    : World → option World :=
  λ W, match sub_watches W !! (w, off) with
       | Some (ClosureSubWatch n d) => call n d W
       | _ => None
       end.

End notify_functions.

(** notify (user_data): the call through a function pointer of type
    GtkExpressionNotify.  The functions of this file run; a function of
    the caller is recorded.  The calls nest as deep as the expression
    tree; [fuel] bounds the nesting, and [None] is also running out of
    it. *)
Fixpoint call_pointer (fuel : nat) (f : GtkExpressionNotify) (data : gpointer)
    : World → option World :=
  match fuel with
  | O => λ _, None
  | S fuel' =>
      match f, data with
      | fn_gtk_property_expression_watch_expr_notify_cb, sub_pointer w off =>
          gtk_property_expression_watch_expr_notify_cb (call_pointer fuel') w off
      | fn_gtk_property_expression_watch_expr_notify_cb, _ => λ _, None
      | fn_gtk_closure_expression_watch_notify_cb, sub_pointer w off =>
          gtk_closure_expression_watch_notify_cb (call_pointer fuel') w off
      | fn_gtk_closure_expression_watch_notify_cb, _ => λ _, None
      | fn_gtk_expression_watch_cb, watch_pointer w => λ W, Some (gtk_expression_watch_cb w W)
      | fn_gtk_expression_watch_cb, _ => λ _, None
      | _, _ => λ W, Some (call_notify f data W)
      end
  end.

(** A notify and its data from which the calls lead, through records of
    the buffer of watch [w] between the bytes [lo] and [hi], to the call
    of [n0] with [d0]. *)
Inductive relays_to (W : World) (w : WatchId) (lo hi : N)
    (n0 : GtkExpressionNotify) (d0 : gpointer) : GtkExpressionNotify → gpointer → Prop :=
| relays_here : relays_to W w lo hi n0 d0 n0 d0
| relays_property off n d e ps t c :
    (lo ≤ off < hi)%N →
    sub_watches W !! (w, off) = Some (PropertySubWatch n d e ps t c) →
    relays_to W w lo hi n0 d0 n d →
    relays_to W w lo hi n0 d0
      fn_gtk_property_expression_watch_expr_notify_cb (sub_pointer w off)
| relays_closure off n d :
    (lo ≤ off < hi)%N →
    sub_watches W !! (w, off) = Some (ClosureSubWatch n d) →
    relays_to W w lo hi n0 d0 n d →
    relays_to W w lo hi n0 d0
      fn_gtk_closure_expression_watch_notify_cb (sub_pointer w off).

(** The "width" of the object of the object expression on the Foo, and a
    watch on it in the scene with that object expression. *)
Definition width_of_foo_expression : GtkExpression :=
  GtkPropertyExpression (Some (GtkObjectExpressionRef foo_expression)) width_pspec.
Definition watched_foo_expression : option WatchId * World :=
  gtk_expression_watch width_of_foo_expression None (user_notify 0) (user_pointer 0) None
    (gtk_object_expression_new foo scene).2.

(** What the listener lists of the object expressions have to do with the
    watches: every entry is a slot in the buffer of an allocated watch,
    and the slot holds the record of an object sub-watch. *)
Definition listeners_consistent (W : World) : Prop :=
  ∀ x node l, object_exprs W !! x = Some node → l ∈ watches node →
    is_Some (expression_watches W !! l.1) ∧ is_Some (owatch_call W l).

(** A property sub-watch is connected when its signal connection is on
    the object its property expression resolves to, and it has none when
    the expression resolves to no object. *)
Definition connected (W : World) (rec : GtkExpressionSubWatch) : Prop :=
  match rec with
  | PropertySubWatch _ _ e ps t c =>
      c = (gtk_property_expression_get_object gtk_expression_evaluate e ps t W).1
  | _ => True
  end.
(** * Theorems *)

(** ** Induction over expression trees *)

Lemma GtkExpression_tree_ind (P : GtkExpression → Prop) :
  (∀ value, P (GtkConstantExpression value)) →
  (∀ x, P (GtkObjectExpressionRef x)) →
  (∀ pspec, P (GtkPropertyExpression None pspec)) →
  (∀ e pspec, P e → P (GtkPropertyExpression (Some e) pspec)) →
  (∀ closure params, Forall P params → P (GtkClosureExpression closure params)) →
  ∀ e, P e.
Proof.
  intros Hc Ho Hn Hp Hcl.
  fix IH 1. intros [v | x | [e |] pspec | closure params].
  - apply Hc.
  - apply Ho.
  - apply Hp, IH.
  - apply Hn.
  - apply Hcl. induction params as [| p ps IHps]; constructor; [apply IH | apply IHps].
Qed.

(** ** is_static *)

Lemma closure_is_static_forallb closure params :
  gtk_expression_is_static (GtkClosureExpression closure params)
  = forallb gtk_expression_is_static params.
Proof.
  simpl. induction params as [| p ps IH]; [done |].
  simpl. destruct (gtk_expression_is_static p); simpl; [apply IH | done].
Qed.

(** C8. is_static is a function of the expression tree alone (it takes no
    world and no [this]); a closure expression is static exactly when every
    parameter expression is static, and a property expression is never
    static, whatever its child is. *)
Theorem is_static_closure_and_property closure params child pspec :
  (gtk_expression_is_static (GtkClosureExpression closure params) = true
   ↔ Forall (λ p, gtk_expression_is_static p = true) params)
  ∧ gtk_expression_is_static (GtkPropertyExpression child pspec) = false.
Proof.
  split; [| done].
  rewrite closure_is_static_forallb, forallb_forall, Forall_forall.
  split; intros H p Hp; apply H; by apply list_elem_of_In.
Qed.

(** ** Constant expressions *)

(** C9. A constant expression evaluates successfully for every [this]
    the entry point accepts, NULL included; the value returned is the
    stored one, held by a new initialised GValue with a reference of its
    own; the class function does so without looking at [this] at all; and
    the expression is static. *)
Theorem constant_evaluate_succeeds value this_ W :
  this_is_valid W this_ = true →
  gtk_expression_evaluate (GtkConstantExpression value) this_ W
  = ((true, G_VALUE value), data_ref value (set_live_values Z.succ W))
  ∧ (∀ t, (gtk_constant_expression_evaluate value t W).1 = (true, G_VALUE value))
  ∧ gtk_expression_is_static (GtkConstantExpression value) = true.
Proof.
  intros Hthis. split; [| done].
  simpl. by rewrite Hthis.
Qed.

Lemma constant_evaluate_succeeds_witness :
  gtk_expression_evaluate (GtkConstantExpression (V_int 7)) None
    (mkWorld ∅ ∅ ∅ ∅ ∅ (λ _, 0) 0 [])
  = ((true, G_VALUE (V_int 7)), mkWorld ∅ ∅ ∅ ∅ ∅ (λ _, 0) 1 []).
Proof.
  exact (proj1 (constant_evaluate_succeeds (V_int 7) None
                  (mkWorld ∅ ∅ ∅ ∅ ∅ (λ _, 0) 0 []) eq_refl)).
Defined.

(** ** Framing and resource accounting of evaluation *)

Lemma evaluate_unfold e this_ W :
  gtk_expression_evaluate e this_ W
  = if negb (this_is_valid W this_) then ((false, G_VALUE_INIT), W)
    else match e with
         | GtkConstantExpression value => gtk_constant_expression_evaluate value this_ W
         | GtkObjectExpressionRef x => gtk_object_expression_evaluate x this_ W
         | GtkPropertyExpression expr pspec =>
             gtk_property_expression_evaluate gtk_expression_evaluate expr pspec this_ W
         | GtkClosureExpression closure params =>
             gtk_closure_expression_evaluate gtk_expression_evaluate closure params this_ W
         end.
Proof. by destruct e. Qed.

Global Instance grows_by_refl P : Reflexive (grows_by P).
Proof. intros tr. exists []. by rewrite app_nil_r. Qed.

Global Instance grows_by_trans P : Transitive (grows_by P).
Proof.
  intros tr1 tr2 tr3 (evs1 & -> & H1) (evs2 & -> & H2).
  exists (evs1 ++ evs2). rewrite (assoc_L (++)). split; [done |]. by apply Forall_app.
Qed.

Lemma grows_by_snoc (P : Event → Prop) tr ev : P ev → grows_by P tr (tr ++ [ev]).
Proof. intros H. exists [ev]. split; [done |]. by constructor. Qed.

Lemma grows_by_weaken (P Q : Event → Prop) tr tr' :
  (∀ ev, P ev → Q ev) → grows_by P tr tr' → grows_by Q tr tr'.
Proof. intros H (evs & -> & Hall). exists evs. split; [done |]. eapply Forall_impl; eauto. Qed.

Lemma grows_by_eq P tr tr' : tr' = tr → grows_by P tr tr'.
Proof. intros ->. reflexivity. Qed.

Lemma same_stores_refl W : same_stores W W.
Proof. by repeat split. Qed.

Lemma same_stores_trans W1 W2 W3 : same_stores W1 W2 → same_stores W2 W3 → same_stores W1 W3.
Proof. unfold same_stores. intros (?&?&?&?&?) (?&?&?&?&?). repeat split; congruence. Qed.

Lemma same_stores_heap W W' : same_stores W W' → same_heap W W'.
Proof. unfold same_stores, same_heap. tauto. Qed.

Lemma same_heap_sym W W' : same_heap W W' → same_heap W' W.
Proof. unfold same_heap. intros [??]. by split. Qed.

Lemma same_heap_trans W1 W2 W3 : same_heap W1 W2 → same_heap W2 W3 → same_heap W1 W3.
Proof. unfold same_heap. intros [??] [??]. split; congruence. Qed.

Lemma this_is_valid_heap W W' this_ :
  same_heap W W' → this_is_valid W' this_ = this_is_valid W this_.
Proof.
  intros [Ho _]. destruct this_ as [t |]; [| done].
  unfold this_is_valid, G_IS_OBJECT. by rewrite Ho.
Qed.

Lemma g_value_unset_spec v W :
  same_stores W (g_value_unset v W)
  ∧ live_values (g_value_unset v W) = live_values W - value_live v
  ∧ (∀ o, ref_counts (g_value_unset v W) o = ref_counts W o - value_holds v o)
  ∧ trace (g_value_unset v W) = trace W.
Proof.
  destruct v as [| [n | s | [o' |]]]; simpl;
    (split; [apply same_stores_refl || by repeat split |]);
    (split; [lia |]); (split; [| done]); intros o; try lia.
  unfold bump. repeat case_decide; lia.
Qed.

Lemma g_value_init_with_spec d W :
  (g_value_init_with d W).1 = G_VALUE d
  ∧ same_stores W (g_value_init_with d W).2
  ∧ live_values (g_value_init_with d W).2 = live_values W + 1
  ∧ (∀ o, ref_counts (g_value_init_with d W).2 o = ref_counts W o + value_holds (G_VALUE d) o)
  ∧ trace (g_value_init_with d W).2 = trace W.
Proof.
  destruct d as [n | s | [o' |]]; simpl;
    (split; [done |]); (split; [by repeat split |]);
    (split; [lia |]); (split; [| done]); intros o; try lia.
  unfold bump. repeat case_decide; lia.
Qed.

Lemma unset_all_spec arr W :
  same_stores W (unset_all arr W)
  ∧ live_values (unset_all arr W) = live_values W - sum_live arr
  ∧ (∀ o, ref_counts (unset_all arr W) o = ref_counts W o - sum_holds arr o)
  ∧ trace (unset_all arr W) = trace W.
Proof.
  unfold unset_all. revert W. induction arr as [| v arr IH]; intros W; simpl.
  - split; [apply same_stores_refl |]. split; [lia |]. split; [intros; lia | done].
  - destruct (g_value_unset_spec v W) as (Hs & Hl & Hr & Ht).
    destruct (IH (g_value_unset v W)) as (Hs' & Hl' & Hr' & Ht').
    split; [eapply same_stores_trans; eauto |].
    split; [lia |]. split; [| congruence].
    intros o. rewrite Hr', Hr. lia.
Qed.

Lemma store_from_replicate vs pre m :
  (length vs ≤ m)%nat →
  store_from (length pre) vs (pre ++ replicate m G_VALUE_INIT)
  = pre ++ vs ++ replicate (m - length vs) G_VALUE_INIT.
Proof.
  revert pre m. induction vs as [| v vs IH]; intros pre m Hlen; simpl in *.
  - by rewrite Nat.sub_0_r.
  - destruct m as [| m]; [lia |]. simpl.
    rewrite insert_app_r_alt by lia. rewrite Nat.sub_diag. simpl.
    specialize (IH (pre ++ [v]) m). rewrite length_app in IH. simpl in IH.
    rewrite Nat.add_1_r in IH. rewrite <- !(assoc_L (++)) in IH. simpl in IH.
    apply IH. lia.
Qed.

Lemma sum_live_app vs ws : sum_live (vs ++ ws) = sum_live vs + sum_live ws.
Proof. unfold sum_live. induction vs; simpl; lia. Qed.
Lemma sum_holds_app vs ws o : sum_holds (vs ++ ws) o = sum_holds vs o + sum_holds ws o.
Proof. unfold sum_holds. induction vs; simpl; lia. Qed.
Lemma sum_live_replicate m : sum_live (replicate m G_VALUE_INIT) = 0.
Proof. unfold sum_live. induction m; simpl; lia. Qed.
Lemma sum_holds_replicate m o : sum_holds (replicate m G_VALUE_INIT) o = 0.
Proof. unfold sum_holds. induction m; simpl; lia. Qed.

Lemma params_results_heap this_ params W W' :
  Forall evaluates_well params → same_heap W W' →
  map (λ p, (gtk_expression_evaluate p this_ W').1) params
  = map (λ p, (gtk_expression_evaluate p this_ W).1) params.
Proof.
  intros Hall Hh. induction Hall as [| p ps Hp _ IH]; simpl; [done |].
  f_equal; [| done].
  by apply (Hp this_ W).
Qed.

Lemma evaluate_params_spec this_ params :
  Forall evaluates_well params →
  ∀ i arr W,
    let r := gtk_closure_expression_evaluate_params gtk_expression_evaluate
               params i this_ arr W in
    let rs := map (λ p, (gtk_expression_evaluate p this_ W).1) params in
    r.1 = (forallb fst rs, store_from (S i) (evaluated_prefix rs) arr)
    ∧ same_stores W r.2
    ∧ live_values r.2 = live_values W + sum_live (evaluated_prefix rs)
    ∧ (∀ o, ref_counts r.2 o = ref_counts W o + sum_holds (evaluated_prefix rs) o)
    ∧ grows_by is_invoke (trace W) (trace r.2).
Proof.
  intros Hall. induction Hall as [| p ps Hp Hps IH]; intros i arr W.
  - simpl. split; [done |]. split; [apply same_stores_refl |].
    split; [lia |]. split; [intros; lia | done].
  - cbn zeta. cbn [gtk_closure_expression_evaluate_params map]. unfold bind.
    destruct (Hp this_ W) as (Hs & Hl & Hr & Hf & Ht & _).
    destruct (gtk_expression_evaluate p this_ W) as [[ok v] W1] eqn:Hev.
    simpl in Hs, Hl, Hr, Hf, Ht. simpl.
    destruct ok; simpl.
    + specialize (IH (S i) (<[S i := v]> arr) W1).
      cbn zeta in IH.
      rewrite (params_results_heap this_ ps W W1 Hps (same_stores_heap _ _ Hs)) in IH.
      destruct IH as (IH1 & IH2 & IH3 & IH4 & IH5).
      split; [exact IH1 |].
      split; [eapply same_stores_trans; eauto |].
      split; [lia |].
      split; [intros o; rewrite IH4, Hr; lia |].
      by etrans.
    + split; [done |]. split; [done |].
      rewrite (Hf eq_refl) in Hl, Hr. simpl in Hl, Hr.
      split; [lia |]. split; [intros o; rewrite Hr; lia | done].
Qed.

Lemma evaluated_prefix_all rs :
  forallb fst rs = true → evaluated_prefix rs = map snd rs.
Proof.
  induction rs as [| [[] v] rs IH]; simpl; intros H; [done | | done].
  f_equal. by apply IH.
Qed.

Lemma evaluated_prefix_length rs : (length (evaluated_prefix rs) ≤ length rs)%nat.
Proof. induction rs as [| [[] v] rs IH]; simpl; lia. Qed.

Lemma get_object_child e pspec this_ W :
  gtk_property_expression_get_object gtk_expression_evaluate (Some e) pspec this_ W
  = let r := gtk_expression_evaluate e this_ W in
    if negb r.1.1 then (None, r.2)
    else match r.1.2 with
         | G_VALUE (V_object (Some o)) =>
             if G_TYPE_CHECK_INSTANCE_TYPE r.2 o (owner_type pspec)
             then (Some o, g_value_unset r.1.2 (g_object_ref o r.2))
             else (None, g_object_unref o (g_value_unset r.1.2 (g_object_ref o r.2)))
         | v => (None, g_value_unset v r.2)
         end.
Proof.
  unfold gtk_property_expression_get_object, bind, ret, exec. cbn zeta.
  destruct (gtk_expression_evaluate e this_ W) as [[[] v] W1]; simpl; [| done].
  destruct v as [| [n | s | [o |]]]; simpl; try done.
  unfold G_TYPE_CHECK_INSTANCE_TYPE; simpl.
  destruct (objects W1 !! o); simpl; [case_bool_decide |]; done.
Qed.

Lemma type_check_heap W W' o t :
  same_heap W W' → G_TYPE_CHECK_INSTANCE_TYPE W' o t = G_TYPE_CHECK_INSTANCE_TYPE W o t.
Proof. intros [Ho _]. unfold G_TYPE_CHECK_INSTANCE_TYPE. by rewrite Ho. Qed.

Lemma get_object_spec expr pspec this_ W :
  (∀ e, expr = Some e → evaluates_well e) →
  let r := gtk_property_expression_get_object gtk_expression_evaluate expr pspec this_ W in
  same_stores W r.2
  ∧ live_values r.2 = live_values W
  ∧ (∀ o, ref_counts r.2 o
          = ref_counts W o + match r.1 with
                             | Some o' => if decide (o = o') then 1 else 0
                             | None => 0
                             end)
  ∧ grows_by is_invoke (trace W) (trace r.2)
  ∧ (∀ W', same_heap W W' →
       (gtk_property_expression_get_object gtk_expression_evaluate expr pspec this_ W').1 = r.1).
Proof.
  intros Hexpr. destruct expr as [e |]; cbn zeta.
  - specialize (Hexpr e eq_refl).
    assert (Hind : ∀ W', same_heap W W' →
              (gtk_property_expression_get_object gtk_expression_evaluate
                 (Some e) pspec this_ W').1
              = (gtk_property_expression_get_object gtk_expression_evaluate
                 (Some e) pspec this_ W).1).
    { intros W' Hh. rewrite !get_object_child. cbn zeta.
      destruct (Hexpr this_ W) as (Hs & _ & _ & _ & _ & Hi).
      destruct (Hexpr this_ W') as (Hs' & _).
      rewrite (Hi W' Hh).
      assert (Hh1 : same_heap (gtk_expression_evaluate e this_ W).2
                              (gtk_expression_evaluate e this_ W').2).
      { eapply same_heap_trans; [apply same_heap_sym, same_stores_heap, Hs |].
        eapply same_heap_trans; [apply Hh | apply same_stores_heap, Hs']. }
      destruct (gtk_expression_evaluate e this_ W).1 as [[] v]; simpl; [| done].
      destruct v as [| [n | s | [o |]]]; simpl; try done.
      rewrite (type_check_heap _ _ _ _ Hh1).
      by destruct (G_TYPE_CHECK_INSTANCE_TYPE _ _ _). }
    split_and!; [| | | | exact Hind]; clear Hind; rewrite get_object_child; cbn zeta;
      destruct (Hexpr this_ W) as (Hs & Hl & Hr & Hf & Ht & _);
      destruct (gtk_expression_evaluate e this_ W) as [[ok v] W1]; simpl in *;
      (destruct ok; simpl in *; [| rewrite (Hf eq_refl) in *; simpl in *; try done;
                                   try lia; intros; rewrite Hr; lia ]);
      destruct v as [| [n | s | [o' |]]]; simpl in *;
      try destruct (G_TYPE_CHECK_INSTANCE_TYPE W1 o' (owner_type pspec)); simpl;
      try done; try lia;
      try (intros o; unfold bump; rewrite Hr; repeat case_decide; lia).
  - destruct this_ as [t |]; simpl.
    + repeat split; try done. intros o. unfold bump. repeat case_decide; lia.
    + repeat split; try done. intros; lia.
Qed.

Lemma g_object_get_property_spec o property_name W :
  let r := g_object_get_property o property_name W in
  same_stores W r.2
  ∧ live_values r.2 = live_values W + value_live r.1
  ∧ (∀ o', ref_counts r.2 o' = ref_counts W o' + value_holds r.1 o')
  ∧ trace r.2 = trace W
  ∧ (∀ W', same_heap W W' → (g_object_get_property o property_name W').1 = r.1).
Proof.
  cbn zeta.
  assert (Hind : ∀ W', same_heap W W' →
            (g_object_get_property o property_name W').1
            = (g_object_get_property o property_name W).1).
  { intros W' [Ho _]. unfold g_object_get_property. rewrite <- Ho.
    destruct (objects W !! o) as [obj |]; [| done].
    destruct (properties obj !! property_name) as [d |]; [| done].
    by destruct d as [| | []]. }
  split_and!; [| | | | exact Hind]; clear Hind; unfold g_object_get_property;
    (destruct (objects W !! o) as [obj |];
     [destruct (properties obj !! property_name) as [d |] |]);
    simpl; try done; try lia; try apply same_stores_refl; try (intros; lia);
    destruct (g_value_init_with_spec d W) as (Hv & Hs & Hl & Hr & Ht);
    try done; rewrite ?Hv; simpl; try lia.

Qed.

Lemma property_evaluate_eq expr pspec this_ W :
  gtk_property_expression_evaluate gtk_expression_evaluate expr pspec this_ W
  = let r := gtk_property_expression_get_object gtk_expression_evaluate expr pspec this_ W in
    match r.1 with
    | None => ((false, G_VALUE_INIT), r.2)
    | Some o =>
        let g := g_object_get_property o (name pspec) r.2 in
        ((true, g.1), g_object_unref o g.2)
    end.
Proof.
  unfold gtk_property_expression_evaluate, bind, ret, exec. cbn zeta.
  by destruct (gtk_property_expression_get_object _ _ _ _ _).1.
Qed.

Lemma closure_evaluate_eq closure params this_ W :
  gtk_closure_expression_evaluate gtk_expression_evaluate closure params this_ W
  = let r := gtk_closure_expression_evaluate_params gtk_expression_evaluate params 0 this_
               (replicate (length params + 1) G_VALUE_INIT) W in
    if negb r.1.1 then ((false, G_VALUE_INIT), unset_all r.1.2 r.2)
    else
      let inst := g_value_init_with (V_object this_) r.2 in
      let arr := <[0%nat := inst.1]> r.1.2 in
      let v := g_closure_invoke closure arr inst.2 in
      ((true, v.1), unset_all arr v.2).
Proof.
  unfold gtk_closure_expression_evaluate, bind, ret, exec. cbn zeta.
  destruct (gtk_closure_expression_evaluate_params _ _ _ _ _ _).1.1; simpl; [| done].
  by destruct this_.
Qed.

Lemma evaluate_invalid_this e this_ W :
  this_is_valid W this_ = false →
  gtk_expression_evaluate e this_ W = ((false, G_VALUE_INIT), W).
Proof. intros H. by rewrite evaluate_unfold, H. Qed.

Lemma evaluates_well_intro e :
  (∀ this_ W, this_is_valid W this_ = true → 
     let r := gtk_expression_evaluate e this_ W in
     same_stores W r.2
     ∧ live_values r.2 = live_values W + value_live r.1.2
     ∧ (∀ o, ref_counts r.2 o = ref_counts W o + value_holds r.1.2 o)
     ∧ (r.1.1 = false → r.1.2 = G_VALUE_INIT)
     ∧ grows_by is_invoke (trace W) (trace r.2)
     ∧ (∀ W', this_is_valid W' this_ = true → same_heap W W' →
          (gtk_expression_evaluate e this_ W').1 = r.1)) →
  evaluates_well e.
Proof.
  intros H this_ W. cbn zeta.
  destruct (this_is_valid W this_) eqn:Hv.
  - destruct (H this_ W Hv) as (H1 & H2 & H3 & H4 & H5 & H6).
    split_and!; try done.
    intros W' Hh. apply H6; [| done]. by rewrite (this_is_valid_heap W W').
  - rewrite (evaluate_invalid_this e this_ W Hv). simpl.
    split_and!; try done; try lia; try apply same_stores_refl; try (intros; lia).
    intros W' Hh. rewrite evaluate_invalid_this; [done |].
    by rewrite (this_is_valid_heap W W').
Qed.

Lemma constant_evaluates_well value : evaluates_well (GtkConstantExpression value).
Proof.
  apply evaluates_well_intro. intros this_ W Hv. cbn zeta.
  rewrite evaluate_unfold, Hv. cbn [negb].
  unfold gtk_constant_expression_evaluate, bind, ret.
  destruct (g_value_init_with_spec value W) as (Hval & Hs & Hl & Hr & Ht).
  cbn [fst snd]. rewrite Hval.
  split_and!; try done; [by rewrite Ht |].
  intros W' Hv' _. rewrite evaluate_unfold, Hv'. cbn [negb].
  unfold gtk_constant_expression_evaluate, bind, ret. cbn [fst snd].
  by destruct (g_value_init_with_spec value W') as (-> & _).
Qed.

Lemma object_evaluates_well x : evaluates_well (GtkObjectExpressionRef x).
Proof.
  apply evaluates_well_intro. intros this_ W Hv. cbn zeta.
  assert (Hind : ∀ W', this_is_valid W' this_ = true → same_heap W W' →
            (gtk_expression_evaluate (GtkObjectExpressionRef x) this_ W').1
            = (gtk_expression_evaluate (GtkObjectExpressionRef x) this_ W).1).
  { intros W' Hv' [_ Hx]. rewrite !evaluate_unfold, Hv, Hv'. simpl.
    unfold gtk_object_expression_evaluate. rewrite <- Hx.
    by destruct (object <$> object_exprs W !! x) as [[o |] |]. }
  split_and!; [| | | | | exact Hind]; clear Hind;
    rewrite evaluate_unfold, Hv; simpl; unfold gtk_object_expression_evaluate;
    destruct (object <$> object_exprs W !! x) as [[o |] |]; simpl;
    try done; try lia; try (intros; lia).
  intros o'. unfold bump. repeat case_decide; lia.
Qed.

Lemma property_evaluates_well expr pspec :
  (∀ e, expr = Some e → evaluates_well e) →
  evaluates_well (GtkPropertyExpression expr pspec).
Proof.
  intros Hexpr. apply evaluates_well_intro. intros this_ W Hv. cbn zeta.
  assert (Hind : ∀ W', this_is_valid W' this_ = true → same_heap W W' →
            (gtk_expression_evaluate (GtkPropertyExpression expr pspec) this_ W').1
            = (gtk_expression_evaluate (GtkPropertyExpression expr pspec) this_ W).1).
  { intros W' Hv' Hh. rewrite !evaluate_unfold, Hv, Hv'. simpl.
    rewrite !property_evaluate_eq. cbn zeta.
    destruct (get_object_spec expr pspec this_ W Hexpr) as (Hs & _ & _ & _ & Hi).
    destruct (get_object_spec expr pspec this_ W' Hexpr) as (Hs' & _).
    rewrite (Hi W' Hh).
    destruct (gtk_property_expression_get_object _ _ _ _ W).1 as [o |]; [| done].
    simpl. f_equal.
    apply g_object_get_property_spec.
    eapply same_heap_trans; [apply same_heap_sym, same_stores_heap, Hs |].
    eapply same_heap_trans; [apply Hh | apply same_stores_heap, Hs']. }
  split_and!; [| | | | | exact Hind]; clear Hind;
    rewrite evaluate_unfold, Hv; simpl; rewrite property_evaluate_eq; cbn zeta;
    destruct (get_object_spec expr pspec this_ W Hexpr) as (Hs & Hl & Hr & Ht & _);
    destruct (gtk_property_expression_get_object _ _ _ _ W) as [[o |] W1]; simpl in *;
    try done; try lia; try (intros; rewrite Hr; lia);
    destruct (g_object_get_property_spec o (name pspec) W1) as (Hs2 & Hl2 & Hr2 & Ht2 & _);
    cbn zeta in *.
  - eapply same_stores_trans; [exact Hs |]. eapply same_stores_trans; [exact Hs2 |].
    by repeat split.
  - lia.
  - intros o'. unfold bump. rewrite Hr2, Hr. repeat case_decide; lia.
  - by rewrite Ht2.
Qed.

Lemma params_array this_ params W :
  Forall evaluates_well params →
  let rs := map (λ p, (gtk_expression_evaluate p this_ W).1) params in
  (gtk_closure_expression_evaluate_params gtk_expression_evaluate params 0 this_
     (replicate (length params + 1) G_VALUE_INIT) W).1
  = (forallb fst rs,
     G_VALUE_INIT :: evaluated_prefix rs
       ++ replicate (length params - length (evaluated_prefix rs)) G_VALUE_INIT).
Proof.
  intros Hall rs.
  destruct (evaluate_params_spec this_ params Hall 0
              (replicate (length params + 1) G_VALUE_INIT) W) as (-> & _).
  fold rs. f_equal.
  rewrite Nat.add_1_r. change (replicate (S (length params)) G_VALUE_INIT)
    with ([G_VALUE_INIT] ++ replicate (length params) G_VALUE_INIT).
  change 1%nat with (length [G_VALUE_INIT]).
  rewrite store_from_replicate; [done |].
  etrans; [apply evaluated_prefix_length |]. subst rs. by rewrite length_map.
Qed.

Lemma closure_evaluate_spec closure params this_ W :
  Forall evaluates_well params →
  this_is_valid W this_ = true →
  let rs := map (λ p, (gtk_expression_evaluate p this_ W).1) params in
  let after_params :=
    (gtk_closure_expression_evaluate_params gtk_expression_evaluate params 0 this_
       (replicate (length params + 1) G_VALUE_INIT) W).2 in
  let r := gtk_expression_evaluate (GtkClosureExpression closure params) this_ W in
  same_stores W r.2
  ∧ grows_by is_invoke (trace W) (trace after_params)
  ∧ (forallb fst rs = true →
       let args := G_VALUE (V_object this_) :: map snd rs in
       r.1 = (true, G_VALUE (callback closure args))
       ∧ trace r.2 = trace after_params ++ [EvClosureInvoke (closure_id closure) args]
       ∧ live_values r.2 = live_values W + 1
       ∧ ∀ o, ref_counts r.2 o
              = ref_counts W o + value_holds (G_VALUE (callback closure args)) o)
  ∧ (forallb fst rs = false →
       r.1 = (false, G_VALUE_INIT)
       ∧ trace r.2 = trace after_params
       ∧ live_values r.2 = live_values W
       ∧ ∀ o, ref_counts r.2 o = ref_counts W o).
Proof.
  intros Hall Hv rs after_params r.
  subst r. rewrite evaluate_unfold, Hv. cbn [negb].
  rewrite closure_evaluate_eq. cbn zeta.
  pose proof (params_array this_ params W Hall) as Harr. cbn zeta in Harr. fold rs in Harr.
  destruct (evaluate_params_spec this_ params Hall 0
              (replicate (length params + 1) G_VALUE_INIT) W) as (_ & Hs & Hl & Hr & Ht).
  fold rs in Hl, Hr. fold after_params in Hs, Hl, Hr, Ht |- *.
  rewrite Harr. cbn [fst snd].
  set (vs := evaluated_prefix rs) in *.
  set (pad := replicate (length params - length vs) G_VALUE_INIT).
  destruct (forallb fst rs) eqn:Hall_ok; cbn [negb].
  - destruct (g_value_init_with_spec (V_object this_) after_params)
      as (Hi1 & Hi2 & Hi3 & Hi4 & Hi5).
    rewrite Hi1. cbn [insert list_insert].
    set (Wi := (g_value_init_with (V_object this_) after_params).2) in *.
    set (arr := G_VALUE (V_object this_) :: vs ++ pad).
    unfold g_closure_invoke.
    destruct (g_value_init_with_spec (callback closure arr)
                (log (EvClosureInvoke (closure_id closure) arr) Wi))
      as (Hc1 & Hc2 & Hc3 & Hc4 & Hc5).
    set (Wc := (g_value_init_with (callback closure arr)
                  (log (EvClosureInvoke (closure_id closure) arr) Wi)).2) in *.
    destruct (unset_all_spec arr Wc) as (Hu1 & Hu2 & Hu3 & Hu4).
    assert (Hpad : pad = []).
    { subst pad vs. rewrite (evaluated_prefix_all rs Hall_ok).
      subst rs. rewrite !length_map, Nat.sub_diag. done. }
    assert (Harr_eq : arr = G_VALUE (V_object this_) :: map snd rs).
    { subst arr. rewrite Hpad, app_nil_r. subst vs. by rewrite (evaluated_prefix_all rs Hall_ok). }
    cbn [fst snd].
    split_and!; try done.
    + eapply same_stores_trans; [exact Hs |]. eapply same_stores_trans; [exact Hi2 |].
      eapply same_stores_trans; [| exact Hu1].
      eapply same_stores_trans; [| exact Hc2]. by repeat split.
    + intros _. cbn zeta. rewrite <- Harr_eq. split_and!.
      * by rewrite Hc1.
      * rewrite Hu4, Hc5. simpl. by rewrite Hi5.
      * rewrite Hu2, Hc3. simpl. rewrite Hi3, Hl.
        subst arr. cbn [sum_live foldr]. fold (sum_live (vs ++ pad)).
        rewrite sum_live_app. subst pad. rewrite sum_live_replicate. simpl. lia.
      * intros o. rewrite Hu3, Hc4. simpl. rewrite Hi4, Hr.
        subst arr. cbn [sum_holds foldr]. fold (sum_holds (vs ++ pad) o).
        rewrite sum_holds_app. subst pad. rewrite sum_holds_replicate.
        destruct this_ as [t |]; simpl; repeat case_decide; lia.
  - destruct (unset_all_spec (G_VALUE_INIT :: vs ++ pad) after_params) as (Hu1 & Hu2 & Hu3 & Hu4).
    cbn [fst snd].
    split_and!; try done.
    + eapply same_stores_trans; eauto.
    + intros _. split_and!; try done.
      * rewrite Hu2, Hl. cbn [sum_live foldr]. fold (sum_live (vs ++ pad)).
        rewrite sum_live_app. subst pad. rewrite sum_live_replicate. simpl. lia.
      * intros o. rewrite Hu3, Hr. cbn [sum_holds foldr]. fold (sum_holds (vs ++ pad) o).
        rewrite sum_holds_app. subst pad. rewrite sum_holds_replicate. simpl. lia.
Qed.

Lemma closure_evaluates_well closure params :
  Forall evaluates_well params →
  evaluates_well (GtkClosureExpression closure params).
Proof.
  intros Hall. apply evaluates_well_intro. intros this_ W Hv. cbn zeta.
  destruct (closure_evaluate_spec closure params this_ W Hall Hv) as (Hs & Ht & Hok & Hfail).
  cbn zeta in Hok, Hfail.
  assert (Hind : ∀ W', this_is_valid W' this_ = true → same_heap W W' →
            (gtk_expression_evaluate (GtkClosureExpression closure params) this_ W').1
            = (gtk_expression_evaluate (GtkClosureExpression closure params) this_ W).1).
  { intros W' Hv' Hh.
    destruct (closure_evaluate_spec closure params this_ W' Hall Hv') as (_ & _ & Hok' & Hfail').
    cbn zeta in Hok', Hfail'.
    rewrite (params_results_heap this_ params W W' Hall Hh) in Hok', Hfail'.
    destruct (forallb fst (map (λ p, (gtk_expression_evaluate p this_ W).1) params)).
    - destruct (Hok eq_refl) as (-> & _). by destruct (Hok' eq_refl) as (-> & _).
    - destruct (Hfail eq_refl) as (-> & _). by destruct (Hfail' eq_refl) as (-> & _). }
  revert Hind Hs Ht Hok Hfail.
  generalize (gtk_expression_evaluate (GtkClosureExpression closure params) this_ W).
  intros [[ok v] Wr] Hind Hs Ht Hok Hfail. simpl in *.
  split_and!; [done | | | | | exact Hind]; clear Hind;
    destruct (forallb fst (map (λ p, (gtk_expression_evaluate p this_ W).1) params));
    try (destruct (Hok eq_refl) as (Hr1 & Hr2 & Hr3 & Hr4));
    try (destruct (Hfail eq_refl) as (Hr1 & Hr2 & Hr3 & Hr4));
    injection Hr1 as -> ->; simpl; try done; try lia.
  - intros o. rewrite Hr4. lia.
  - rewrite Hr2. etrans; [exact Ht |]. by apply grows_by_snoc.
  - by rewrite Hr2.
Qed.

(** Every expression evaluates well. *)
Lemma evaluate_well e : evaluates_well e.
Proof.
  induction e as [value | x | pspec | e pspec IH | closure params IH] using GtkExpression_tree_ind.
  - apply constant_evaluates_well.
  - apply object_evaluates_well.
  - by apply property_evaluates_well.
  - apply property_evaluates_well. by intros e' [= <-].
  - by apply closure_evaluates_well.
Qed.

Lemma evaluate_all_well params : Forall evaluates_well params.
Proof. apply Forall_forall. intros p _. apply evaluate_well. Qed.

(** ** Property expressions *)

(** Without a child, a NULL [this] makes the evaluation fail. *)
Lemma property_evaluate_null_this pspec W :
  gtk_expression_evaluate (GtkPropertyExpression None pspec) None W
  = ((false, G_VALUE_INIT), W).
Proof. done. Qed.

(** Without a child, any live [this] is taken as the source object: its
    type is not compared with the owner type of the pspec, and the
    evaluation returns TRUE with whatever g_object_get_property left in
    the slot. *)
Lemma property_evaluate_this pspec t W :
  G_IS_OBJECT W t = true →
  (gtk_expression_evaluate (GtkPropertyExpression None pspec) (Some t) W).1
  = (true, (g_object_get_property t (name pspec) W).1).
Proof.
  intros Ht. rewrite evaluate_unfold. cbn [this_is_valid]. rewrite Ht. cbn [negb].
  rewrite property_evaluate_eq. simpl.
  unfold g_object_get_property. simpl.
  destruct (objects W !! t) as [obj |]; [| done].
  destruct (properties obj !! name pspec) as [d |]; [| done].
  by destruct d as [| | []].
Qed.

(** With a child, the object the child evaluates to is checked against
    the owner type of the pspec. *)
Lemma property_evaluate_child_type_checked e pspec this_ W o W1 :
  gtk_expression_evaluate e this_ W = ((true, G_VALUE (V_object (Some o))), W1) →
  G_TYPE_CHECK_INSTANCE_TYPE W1 o (owner_type pspec) = false →
  (gtk_expression_evaluate (GtkPropertyExpression (Some e) pspec) this_ W).1
  = (false, G_VALUE_INIT).
Proof.
  intros Hev Hty. rewrite evaluate_unfold.
  destruct (this_is_valid W this_) eqn:Hv; [| done]. cbn [negb].
  rewrite property_evaluate_eq, get_object_child, Hev. simpl. by rewrite Hty.
Qed.

(** C1 (the code at the failing input). A property expression without a
    child, looking up "width" declared by Foo, is evaluated with [this]
    set to a Bar: Bar does not conform to Foo and has no "width", and yet
    the evaluation returns TRUE, with the output slot left empty. *)
Theorem property_evaluate_this_of_other_type :
  G_TYPE_CHECK_INSTANCE_TYPE scene bar (owner_type width_pspec) = false
  ∧ properties bar_instance !! name width_pspec = None
  ∧ (gtk_expression_evaluate this_width (Some bar) scene).1 = (true, G_VALUE_INIT).
Proof. split_and!; by vm_compute. Qed.

(** C10. When the child of a property expression evaluates successfully
    to a value that is not an object value, or to an object value holding
    NULL, the property expression fails: it does not fall back to [this].
    The child's value is released before returning. *)
Theorem property_evaluate_child_not_an_object e pspec this_ W v W1 :
  gtk_expression_evaluate e this_ W = ((true, v), W1) →
  G_VALUE_HOLDS_OBJECT v = false ∨ v = G_VALUE (V_object None) →
  gtk_expression_evaluate (GtkPropertyExpression (Some e) pspec) this_ W
  = ((false, G_VALUE_INIT), g_value_unset v W1).
Proof.
  intros Hev Hv. rewrite evaluate_unfold.
  destruct (this_is_valid W this_) eqn:Hvalid.
  - cbn [negb]. rewrite property_evaluate_eq, get_object_child, Hev. simpl.
    destruct Hv as [Hv | ->]; [| done].
    by destruct v as [| [n | s | o]].
  - by rewrite (evaluate_invalid_this e this_ W Hvalid) in Hev.
Qed.

Lemma property_evaluate_child_not_an_object_witness :
  (gtk_expression_evaluate
     (GtkPropertyExpression (Some (GtkConstantExpression (V_int 3))) width_pspec)
     (Some foo) scene).1 = (false, G_VALUE_INIT)
  ∧ (gtk_expression_evaluate
       (GtkPropertyExpression (Some (GtkConstantExpression (V_object None))) width_pspec)
       (Some foo) scene).1 = (false, G_VALUE_INIT).
Proof.
  split.
  - rewrite (property_evaluate_child_not_an_object (GtkConstantExpression (V_int 3))
               width_pspec (Some foo) scene (G_VALUE (V_int 3))
               (set_live_values Z.succ scene)); [reflexivity | reflexivity |].
    left. reflexivity.
  - rewrite (property_evaluate_child_not_an_object (GtkConstantExpression (V_object None))
               width_pspec (Some foo) scene (G_VALUE (V_object None))
               (set_live_values Z.succ scene)); [reflexivity | reflexivity |].
    right. reflexivity.
Defined.

(** ** Closure expressions *)

(** C3. A closure expression evaluated with an acceptable [this]: if some
    parameter fails to evaluate, the evaluation fails with the output slot
    left empty, nothing is added to the trace after the parameter loop (the
    callable is not invoked), and the counters of live values and of object
    references are back where they were: every parameter value evaluated
    before the failure has been released.  If every parameter evaluates,
    the callable is invoked once, after the parameters, on [this] followed
    by the parameter values in order, and what it returns is the value of
    the expression; the arguments are released. *)
Theorem closure_evaluate_fails_fast closure params this_ W :
  this_is_valid W this_ = true →
  let r := gtk_expression_evaluate (GtkClosureExpression closure params) this_ W in
  let after_params :=
    (gtk_closure_expression_evaluate_params gtk_expression_evaluate params 0 this_
       (replicate (length params + 1) G_VALUE_INIT) W).2 in
  ((∃ k p, params !! k = Some p ∧ (gtk_expression_evaluate p this_ W).1.1 = false) →
     r.1 = (false, G_VALUE_INIT)
     ∧ trace r.2 = trace after_params
     ∧ live_values r.2 = live_values W
     ∧ ∀ o, ref_counts r.2 o = ref_counts W o)
  ∧ ((∀ p, p ∈ params → (gtk_expression_evaluate p this_ W).1.1 = true) →
     let args := G_VALUE (V_object this_)
                   :: map (λ p, (gtk_expression_evaluate p this_ W).1.2) params in
     r.1 = (true, G_VALUE (callback closure args))
     ∧ trace r.2 = trace after_params ++ [EvClosureInvoke (closure_id closure) args]
     ∧ live_values r.2 = live_values W + 1
     ∧ ∀ o, ref_counts r.2 o
            = ref_counts W o + value_holds (G_VALUE (callback closure args)) o).
Proof.
  intros Hv. cbn zeta.
  destruct (closure_evaluate_spec closure params this_ W (evaluate_all_well params) Hv)
    as (_ & _ & Hok & Hfail). cbn zeta in Hok, Hfail.
  split.
  - intros (k & p & Hk & Hp). apply Hfail.
    apply not_true_iff_false. intros Hall. rewrite forallb_forall in Hall.
    specialize (Hall (gtk_expression_evaluate p this_ W).1).
    refine (eq_true_false_abs _ (Hall _) Hp).
    apply in_map_iff. exists p. split; [done |].
    apply list_elem_of_In, list_elem_of_lookup. eauto.
  - intros Hall.
    assert (Hmap : map snd (map (λ p, (gtk_expression_evaluate p this_ W).1) params)
                   = map (λ p, (gtk_expression_evaluate p this_ W).1.2) params).
    { by rewrite map_map. }
    rewrite <- Hmap. apply Hok.
    apply forallb_forall. intros x Hx. apply in_map_iff in Hx as (p & <- & Hp).
    apply Hall. by apply list_elem_of_In.
Qed.

Lemma closure_evaluate_fails_fast_witness :
  (gtk_expression_evaluate
     (GtkClosureExpression count_args
        [GtkConstantExpression (V_object (Some foo)); this_width])
     None scene).1 = (false, G_VALUE_INIT)
  ∧ (gtk_expression_evaluate
       (GtkClosureExpression count_args
          [GtkConstantExpression (V_object (Some foo)); this_width])
       (Some foo) scene).1 = (true, G_VALUE (V_int 3)).
Proof.
  split.
  - apply (closure_evaluate_fails_fast count_args
             [GtkConstantExpression (V_object (Some foo)); this_width] None scene eq_refl).
    exists 1%nat, this_width. split; reflexivity.
  - apply (closure_evaluate_fails_fast count_args
             [GtkConstantExpression (V_object (Some foo)); this_width] (Some foo) scene eq_refl).
    intros p Hp. apply list_elem_of_In in Hp.
    destruct Hp as [<- | [<- | []]]; reflexivity.
Defined.

(** ** Framing of sub-watch installation and teardown *)

Global Instance watch_frame_refl : Reflexive watch_frame.
Proof. intros W. by repeat split. Qed.

Global Instance watch_frame_trans : Transitive watch_frame.
Proof.
  intros W1 W2 W3 (H1 & H2 & H3 & H4 & H5 & H6) (H1' & H2' & H3' & H4' & H5' & H6').
  split_and!; try congruence; try (by etrans); try (intros o; by rewrite H5).
Qed.

Lemma create_closure_frame w off W :
  watch_frame W (gtk_property_expression_watch_create_closure w off W).
Proof.
  unfold gtk_property_expression_watch_create_closure.
  destruct (sub_watches W !! (w, off)) as [[| n d e ps t c |] |]; try reflexivity.
  destruct (get_object_spec e ps t W (λ e' _, evaluate_well e')) as (Hs & Hl & Hr & Ht & _).
  destruct (gtk_property_expression_get_object _ _ _ _ W) as [[o |] W1]; simpl in *;
    destruct Hs as (? & ? & ? & ? & ?); split_and!; try done.
  - intros o'. simpl. unfold bump. rewrite Hr. repeat case_decide; lia.
  - intros o'. rewrite Hr. lia.
Qed.

Lemma destroy_closure_frame w off W :
  watch_frame W (gtk_property_expression_watch_destroy_closure w off W).
Proof.
  unfold gtk_property_expression_watch_destroy_closure.
  by destruct (sub_watches W !! (w, off)) as [[| n d e ps t [c |] |] |].
Qed.

Lemma subwatch_init_frame e :
  ∀ w off this_ notify_ user_data_ W,
    watch_frame W (gtk_expression_subwatch_init e w off this_ notify_ user_data_ W).
Proof.
  induction e as [value | x | pspec | e pspec IH | closure params IH]
    using GtkExpression_tree_ind; intros w off this_ notify_ user_data_ W.
  - reflexivity.
  - by repeat split.
  - cbn [gtk_expression_subwatch_init].
    etrans; [| apply create_closure_frame]. by repeat split.
  - cbn [gtk_expression_subwatch_init].
    etrans; [| apply create_closure_frame].
    destruct (gtk_expression_is_static e); cbn [negb]; [by repeat split |].
    etrans; [| apply IH]. by repeat split.
  - cbn [gtk_expression_subwatch_init].
    set (W1 := set_sub_watches (<[(w, off) := ClosureSubWatch notify_ user_data_]>) W).
    assert (HW1 : watch_frame W W1) by (by repeat split).
    etrans; [exact HW1 |]. clearbody W1. clear HW1.
    generalize (off + sizeof_GtkClosureExpressionWatch)%N. revert W1.
    induction IH as [| p ps Hp _ IHps]; intros W' sub; [reflexivity |].
    destruct (gtk_expression_is_static p); [apply IHps |].
    etrans; [apply Hp | apply IHps].
Qed.

Lemma subwatch_finish_frame e :
  ∀ w off W, watch_frame W (gtk_expression_subwatch_finish e w off W).
Proof.
  induction e as [value | x | pspec | e pspec IH | closure params IH]
    using GtkExpression_tree_ind; intros w off W.
  - reflexivity.
  - by repeat split.
  - cbn [gtk_expression_subwatch_finish]. apply destroy_closure_frame.
  - cbn [gtk_expression_subwatch_finish].
    etrans; [apply destroy_closure_frame |].
    destruct (gtk_expression_is_static e); cbn [negb]; [reflexivity | apply IH].
  - cbn [gtk_expression_subwatch_finish].
    generalize (off + sizeof_GtkClosureExpressionWatch)%N. revert W.
    induction IH as [| p ps Hp _ IHps]; intros W sub; [reflexivity |].
    destruct (gtk_expression_is_static p); [apply IHps |].
    etrans; [apply Hp | apply IHps].
Qed.

(** ** Object expressions *)

Lemma notify_loop_spec ws :
  ∀ W, Forall (λ l, is_Some (owatch_call W l)) ws →
    let W' := foldl (λ W' l, match owatch_call W' l with
                             | Some ev => log ev W'
                             | None => W'
                             end) W ws in
    objects W' = objects W
    ∧ object_exprs W' = object_exprs W
    ∧ sub_watches W' = sub_watches W
    ∧ ∃ evs, trace W' = trace W ++ evs
             ∧ Forall2 (λ l ev, owatch_call W l = Some ev) ws evs.
Proof.
  induction ws as [| l ws IH]; intros W Hall; cbn zeta.
  - simpl. split_and!; try done. exists []. by rewrite app_nil_r.
  - apply Forall_cons in Hall as [[ev Hev] Hall]. simpl. rewrite Hev.
    destruct (IH (log ev W)) as (H1 & H2 & H3 & evs & H4 & H5); [done |].
    split_and!; try done.
    exists (ev :: evs). split.
    + rewrite H4. simpl. by rewrite <- (assoc_L (++)).
    + by constructor.
Qed.

(** Registering a watch on an object expression stores the callback in
    the slot and puts the slot at the head of the list of the node. *)
Lemma object_expression_watch_registers x node w off this_ notify_ user_data_ W :
  object_exprs W !! x = Some node →
  let W' := gtk_expression_subwatch_init (GtkObjectExpressionRef x) w off
              this_ notify_ user_data_ W in
  owatch_call W' (w, off) = Some (EvNotify notify_ user_data_)
  ∧ object_exprs W' !! x = Some (mkObjectExpression (object node) ((w, off) :: watches node)).
Proof.
  intros Hx. cbn zeta. unfold owatch_call. simpl.
  rewrite lookup_insert_eq, lookup_alter_eq, Hx. done.
Qed.

(** A new object expression points to its object. *)
Lemma object_expression_new_evaluates o W e W' :
  gtk_object_expression_new o W = (Some e, W') →
  (gtk_expression_evaluate e None W').1 = (true, G_VALUE (V_object (Some o))).
Proof.
  unfold gtk_object_expression_new.
  destruct (G_IS_OBJECT W o); simpl; [| done].
  intros [= <- <-]. rewrite evaluate_unfold. simpl.
  unfold gtk_object_expression_evaluate. simpl. by rewrite lookup_insert_eq.
Qed.



(** ** Watches *)

Lemma watch_evaluate_spec watch W :
  let r := gtk_expression_watch_evaluate watch W in
  same_stores W r.2
  ∧ live_values r.2 = live_values W + value_live r.1.2
  ∧ (∀ o, ref_counts r.2 o = ref_counts W o + value_holds r.1.2 o)
  ∧ (r.1.1 = false → r.1.2 = G_VALUE_INIT)
  ∧ grows_by is_invoke (trace W) (trace r.2).
Proof.
  cbn zeta. unfold gtk_expression_watch_evaluate.
  destruct (watch ≫= _) as [wr |]; [destruct (expression wr) as [e |] |];
    try (simpl; split_and!; try done; try lia; try apply same_stores_refl; intros; lia).
  destruct (evaluate_well e (this wr) W) as (H1 & H2 & H3 & H4 & H5 & _). done.
Qed.

Lemma is_invoke_quiet ev : is_invoke ev → is_quiet ev.
Proof. by destruct ev. Qed.

Lemma set_property_spec target property_name v W :
  let W' := g_object_set_property target property_name v W in
  object_exprs W' = object_exprs W
  ∧ expression_watches W' = expression_watches W
  ∧ sub_watches W' = sub_watches W
  ∧ expression_bind_table W' = expression_bind_table W
  ∧ live_values W' = live_values W
  ∧ ref_counts W' = ref_counts W
  ∧ grows_by is_quiet (trace W) (trace W').
Proof.
  cbn zeta. destruct v as [| d]; simpl; split_and!; try done.
  by apply grows_by_snoc.
Qed.

Lemma bind_notify_spec b W :
  let W' := gtk_expression_bind_notify b W in
  object_exprs W' = object_exprs W
  ∧ expression_watches W' = expression_watches W
  ∧ sub_watches W' = sub_watches W
  ∧ expression_bind_table W' = expression_bind_table W
  ∧ live_values W' = live_values W
  ∧ (∀ o, ref_counts W' o = ref_counts W o)
  ∧ grows_by is_quiet (trace W) (trace W').
Proof.
  cbn zeta. unfold gtk_expression_bind_notify.
  destruct (expression_bind_table W !! b) as [bind_ |]; [| by split_and!].
  destruct (bind_target bind_) as [target |]; [| by split_and!].
  destruct (watch_evaluate_spec (bind_watch bind_) W) as (Hs & Hl & Hr & Hf & Ht).
  destruct (gtk_expression_watch_evaluate (bind_watch bind_) W) as [[ok v] W1].
  simpl in *. destruct Hs as (Hs1 & Hs2 & Hs3 & Hs4 & Hs5).
  apply (grows_by_weaken _ _ _ _ is_invoke_quiet) in Ht.
  destruct ok; simpl.
  - destruct (set_property_spec target (name (bind_pspec bind_)) v W1)
      as (Hp1 & Hp2 & Hp3 & Hp4 & Hp5 & Hp6 & Hp7). cbn zeta in *.
    destruct (g_value_unset_spec v (g_object_set_property target (name (bind_pspec bind_)) v W1))
      as ((Hu1 & Hu2 & Hu3 & Hu4 & Hu5) & Hu6 & Hu7 & Hu8).
    split_and!; try congruence.
    + lia.
    + intros o. rewrite Hu7, Hp6, Hr. lia.
    + rewrite Hu8. by etrans.
  - rewrite (Hf eq_refl) in Hl, Hr. simpl in *.
    split_and!; try done; try lia. intros o. rewrite Hr. lia.
Qed.

Lemma bind_free_spec b W :
  let W' := gtk_expression_bind_free b W in
  object_exprs W' = object_exprs W
  ∧ expression_watches W' = expression_watches W
  ∧ sub_watches W' = sub_watches W
  ∧ grows_by is_quiet (trace W) (trace W').
Proof.
  cbn zeta. unfold gtk_expression_bind_free.
  destruct (expression_bind_table W !! b) as [bind_ |]; [| by split_and!].
  destruct (bind_target bind_) as [target |]; [| by split_and!].
  destruct (g_slist_remove _ _); simpl; split_and!; try done.
  by apply grows_by_snoc.
Qed.

Lemma call_notify_spec f data W :
  let W' := call_notify f data W in
  object_exprs W' = object_exprs W
  ∧ expression_watches W' = expression_watches W
  ∧ sub_watches W' = sub_watches W
  ∧ ∃ evs, trace W' = trace W ++ EvNotify f data :: evs ∧ Forall is_quiet evs.
Proof.
  cbn zeta. unfold call_notify.
  assert (Hlog : ∃ evs, trace (log (EvNotify f data) W) = trace W ++ EvNotify f data :: evs
                        ∧ Forall is_quiet evs) by (by exists []).
  destruct f; try (by split_and!).
  destruct data; try (by split_and!).
  destruct (bind_notify_spec b (log (EvNotify fn_gtk_expression_bind_notify (bind_pointer b)) W))
    as (H1 & H2 & H3 & _ & _ & _ & evs & H4 & H5).
  cbn zeta in *. split_and!; try done.
  exists evs. split; [| done]. rewrite H4. simpl. by rewrite <- (assoc_L (++)).
Qed.

Lemma call_destroy_spec f data W :
  let W' := call_destroy f data W in
  object_exprs W' = object_exprs W
  ∧ expression_watches W' = expression_watches W
  ∧ sub_watches W' = sub_watches W
  ∧ ∃ evs, trace W' = trace W ++ EvDestroyNotify f data :: evs ∧ Forall is_quiet evs.
Proof.
  cbn zeta. unfold call_destroy.
  assert (Hlog : ∃ evs, trace (log (EvDestroyNotify f data) W)
                        = trace W ++ EvDestroyNotify f data :: evs
                        ∧ Forall is_quiet evs) by (by exists []).
  destruct f; try (by split_and!).
  destruct data; try (by split_and!).
  destruct (bind_free_spec b (log (EvDestroyNotify fn_gtk_expression_bind_free (bind_pointer b)) W))
    as (H1 & H2 & H3 & evs & H4 & H5).
  cbn zeta in *. split_and!; try done.
  exists evs. split; [| done]. rewrite H4. simpl. by rewrite <- (assoc_L (++)).
Qed.

Lemma unwatch_spec w watch e W :
  expression_watches W !! w = Some watch →
  expression watch = Some e →
  let W' := gtk_expression_watch_unwatch w W in
  expression_watches W' !! w
  = Some (mkWatch None (this watch) (user_destroy watch) (notify watch) (user_data watch)
                  (watch_ref_count watch - 1))
  ∧ (∀ w', w' ≠ w → expression_watches W' !! w' = expression_watches W !! w')
  ∧ ∃ evs1 evs2,
      trace W' = trace W ++ evs1
                   ++ match this watch with
                      | Some t => [EvWeakUnref t fn_gtk_expression_watch_this_cb (watch_pointer w)]
                      | None => []
                      end ++ evs2
      ∧ Forall is_invoke evs1
      ∧ Forall is_quiet evs2
      ∧ ∀ d, user_destroy watch = Some d → EvDestroyNotify d (user_data watch) ∈ evs2.
Proof.
  intros Hw He. cbn zeta. unfold gtk_expression_watch_unwatch. rewrite Hw, He.
  destruct (subwatch_finish_frame e w 0 W) as (_ & Hf2 & _ & _ & _ & evs1 & Hf6 & Hf7).
  set (W1 := gtk_expression_subwatch_finish e w 0 W) in *.
  set (weak := match this watch with
               | Some t => [EvWeakUnref t fn_gtk_expression_watch_this_cb (watch_pointer w)]
               | None => []
               end).
  set (W2 := match this watch with
             | Some t => log (EvWeakUnref t fn_gtk_expression_watch_this_cb (watch_pointer w)) W1
             | None => W1
             end).
  assert (HW2 : expression_watches W2 = expression_watches W
                ∧ trace W2 = trace W ++ evs1 ++ weak).
  { subst W2 weak. destruct (this watch); simpl.
    - split; [done |]. rewrite Hf6. by rewrite <- (assoc_L (++)).
    - split; [done |]. by rewrite app_nil_r. }
  destruct HW2 as [HW2a HW2b].
  set (W3 := match user_destroy watch with
             | Some d => call_destroy d (user_data watch) W2
             | None => W2
             end).
  assert (HW3 : expression_watches W3 = expression_watches W
                ∧ ∃ evs2, trace W3 = trace W ++ evs1 ++ weak ++ evs2
                          ∧ Forall is_quiet evs2
                          ∧ ∀ d, user_destroy watch = Some d
                                 → EvDestroyNotify d (user_data watch) ∈ evs2).
  { subst W3. destruct (user_destroy watch) as [d |].
    - destruct (call_destroy_spec d (user_data watch) W2) as (_ & H2 & _ & evs & H4 & H5).
      cbn zeta in *. split; [congruence |].
      exists (EvDestroyNotify d (user_data watch) :: evs). split_and!.
      + rewrite H4, HW2b. by rewrite <- !(assoc_L (++)).
      + by constructor.
      + intros d' [= <-]. apply list_elem_of_here.
    - split; [done |]. exists []. rewrite app_nil_r. by split_and!. }
  destruct HW3 as (HW3a & evs2 & HW3b & HW3c & HW3d).
  simpl. rewrite HW3a. split_and!.
  - rewrite !lookup_alter_eq, Hw. done.
  - intros w' Hne. by rewrite !lookup_alter_ne.
  - exists evs1, evs2. by split_and!.
Qed.



(** What gtk_expression_watch creates: a watching watch on the given
    expression that captured the given [this]. *)
Lemma gtk_expression_watch_creates self this_ notify_ user_data_ user_destroy_ W :
  this_is_valid W this_ = true →
  let r := gtk_expression_watch self this_ notify_ user_data_ user_destroy_ W in
  let w := fresh (dom (expression_watches W)) in
  r.1 = Some w
  ∧ expression_watches W !! w = None
  ∧ expression_watches r.2
    = <[w := mkWatch (Some self) this_ user_destroy_ notify_ user_data_ 1]> (expression_watches W)
  ∧ objects r.2 = objects W
  ∧ expression_bind_table r.2 = expression_bind_table W.
Proof.
  intros Hv. cbn zeta. unfold gtk_expression_watch. rewrite Hv. cbn [negb fst snd].
  split; [done |].
  split; [apply not_elem_of_dom, is_fresh |].
  match goal with
  | |- context [gtk_expression_subwatch_init self ?w ?off ?t ?n ?d ?W2] =>
      destruct (subwatch_init_frame self w off t n d W2) as (H1 & H2 & H3 & _)
  end.
  rewrite <- H1, <- H2, <- H3. by destruct this_.
Qed.

(** A watch keeps its [this] through evaluation, reference counting and
    unwatching; only the destruction of [this] clears it. *)
Lemma watch_this_preserved w watch W :
  expression_watches W !! w = Some watch →
  (this <$> expression_watches (gtk_expression_watch_unwatch w W) !! w) = Some (this watch)
  ∧ (this <$> expression_watches (gtk_expression_watch_ref w W) !! w) = Some (this watch)
  ∧ (this <$> expression_watches (gtk_expression_watch_unref w W) !! w) = Some (this watch)
  ∧ (this <$> expression_watches (gtk_expression_watch_evaluate (Some w) W).2 !! w)
    = Some (this watch).
Proof.
  intros Hw. split_and!.
  - destruct (expression watch) as [e |] eqn:He.
    + destruct (unwatch_spec w watch e W Hw He) as (-> & _). done.
    + unfold gtk_expression_watch_unwatch. by rewrite Hw, He, Hw.
  - simpl. by rewrite lookup_alter_eq, Hw.
  - simpl. by rewrite lookup_alter_eq, Hw.
  - destruct (watch_evaluate_spec (Some w) W) as ((_ & _ & <- & _) & _). by rewrite Hw.
Qed.

Lemma watch_step_invariant w self this_ W W' :
  watch_step w W W' → watch_invariant w self this_ W → watch_invariant w self this_ W'.
Proof.
  intros Hstep (watch & Hw & Hinv). destruct Hstep.
  - exists (mkWatch (expression watch) (this watch) (user_destroy watch) (notify watch)
                    (user_data watch) (watch_ref_count watch + 1)).
    simpl. by rewrite lookup_alter_eq, Hw.
  - exists (mkWatch (expression watch) (this watch) (user_destroy watch) (notify watch)
                    (user_data watch) (watch_ref_count watch - 1)).
    simpl. by rewrite lookup_alter_eq, Hw.
  - exists watch. split; [| done].
    destruct (watch_evaluate_spec (Some w) W) as ((_ & _ & <- & _) & _). done.
  - destruct (expression watch) as [e |] eqn:He.
    + destruct (unwatch_spec w watch e W Hw He) as (Hu & _).
      eexists. split; [exact Hu |]. by left.
    + exists watch. unfold gtk_expression_watch_unwatch. rewrite Hw, He.
      split; [done | by left].
  - unfold gtk_expression_watch_this_cb. rewrite Hw.
    set (watch1 := mkWatch (expression watch) None (user_destroy watch) (notify watch)
                           (user_data watch) (watch_ref_count watch)).
    set (W1 := set_expression_watches (<[w := watch1]>) W).
    destruct (call_notify_spec (notify watch) (user_data watch) W1) as (_ & Hn & _).
    cbn zeta in Hn.
    assert (Hw2 : expression_watches (call_notify (notify watch) (user_data watch) W1) !! w
                  = Some watch1).
    { rewrite Hn. subst W1. simpl. by rewrite lookup_insert_eq. }
    destruct (expression watch) as [e |] eqn:He.
    + destruct (unwatch_spec w watch1 e _ Hw2 eq_refl) as (Hu & _).
      eexists. split; [exact Hu |]. by left.
    + exists watch1. unfold gtk_expression_watch_unwatch. rewrite Hw2. simpl.
      split; [done | by left].
  - exists watch. split; [| done].
    unfold gtk_expression_watch_cb. rewrite Hw.
    destruct (gtk_expression_watch_is_watching watch); cbn [negb]; [| done].
    destruct (call_notify_spec (notify watch) (user_data watch) W) as (_ & -> & _). done.
  - exists watch. split; [congruence | done].
Qed.

Lemma watch_invariant_reachable w self this_ W W' :
  rtc (watch_step w) W W' → watch_invariant w self this_ W → watch_invariant w self this_ W'.
Proof.
  induction 1 as [| W1 W2 W3 Hstep _ IH]; [done |].
  intros Hinv. apply IH. by eapply watch_step_invariant.
Qed.



(** ** Binds *)

Lemma set_expression_binds_valid target binds W this_ :
  this_is_valid (set_expression_binds target binds W) this_ = this_is_valid W this_.
Proof.
  destruct this_ as [t |]; [| done]. simpl. unfold G_IS_OBJECT. simpl.
  apply bool_decide_ext. by rewrite lookup_alter_is_Some.
Qed.

Lemma set_expression_binds_properties target binds W o :
  (properties <$> objects (set_expression_binds target binds W) !! o)
  = (properties <$> objects W !! o).
Proof.
  simpl. destruct (decide (target = o)) as [-> | Hne].
  - rewrite lookup_alter_eq. by destruct (objects W !! o).
  - by rewrite lookup_alter_ne.
Qed.

(** What one notification of a bind does: the expression of the watch is
    evaluated with the [this] the watch holds; on success the value is
    written to the property of the target and released, on failure nothing
    is written. *)
Lemma bind_notify_outcome b bind_ target w watch e W :
  expression_bind_table W !! b = Some bind_ →
  bind_target bind_ = Some target →
  bind_watch bind_ = Some w →
  expression_watches W !! w = Some watch →
  expression watch = Some e →
  let r := gtk_expression_evaluate e (this watch) W in
  let W' := gtk_expression_bind_notify b W in
  W' = (if r.1.1
        then g_value_unset r.1.2
               (g_object_set_property target (name (bind_pspec bind_)) r.1.2 r.2)
        else r.2)
  ∧ (r.1.1 = false → objects W' = objects W)
  ∧ (∀ d, r.1 = (true, G_VALUE d) → is_Some (objects W !! target) →
       (objects W' !! target ≫= λ obj, properties obj !! name (bind_pspec bind_)) = Some d).
Proof.
  intros Hb Ht Hbw Hw He. cbn zeta.
  unfold gtk_expression_bind_notify. rewrite Hb, Ht.
  unfold gtk_expression_watch_evaluate. rewrite Hbw. simpl. rewrite Hw, He.
  destruct (evaluate_well e (this watch) W) as ((Ho & _) & _).
  destruct (gtk_expression_evaluate e (this watch) W) as [[ok v] W1]. simpl in *.
  split_and!.
  - by destruct ok.
  - by intros ->.
  - intros d [= -> ->] [tobj Htobj]. cbn [negb].
    destruct (g_value_unset_spec (G_VALUE d)
                (g_object_set_property target (name (bind_pspec bind_)) (G_VALUE d) W1))
      as ((<- & _) & _).
    simpl. rewrite lookup_alter_eq, <- Ho, Htobj. simpl. by rewrite lookup_insert_eq.
Qed.

(** C5. A bind that succeeds (the target has a writable property of that
    name that is not construct-only, and [this] is acceptable) creates a
    watch on the expression that captured [this] and whose notify callback
    is gtk_expression_bind_notify on the new bind, leaves the properties of
    the target as they were while doing so, and then runs that callback
    once.  Each run of the callback, at bind time and at any later
    notification, evaluates the expression with the [this] the watch holds
    and writes the value to the property of the target when the evaluation
    succeeded; when it failed the objects are left as they were. *)
Theorem bind_evaluates_and_writes self target property this_ obj pspec W :
  objects W !! target = Some obj →
  class_properties obj !! property = Some pspec →
  is_writable pspec = true →
  this_is_valid W this_ = true →
  ∃ b w W5,
    gtk_expression_bind self target property this_ W
    = (Some w, gtk_expression_bind_notify b W5)
    ∧ expression_bind_table W5 !! b = Some (mkBind (Some w) (Some target) pspec)
    ∧ expression_watches W5 !! w
      = Some (mkWatch (Some self) this_ (Some fn_gtk_expression_bind_free)
                      fn_gtk_expression_bind_notify (bind_pointer b) 1)
    ∧ (properties <$> objects W5 !! target) = Some (properties obj)
    ∧ ∀ Wn watch e,
        expression_bind_table Wn !! b = Some (mkBind (Some w) (Some target) pspec) →
        expression_watches Wn !! w = Some watch →
        expression watch = Some e →
        let r := gtk_expression_evaluate e (this watch) Wn in
        let Wn' := gtk_expression_bind_notify b Wn in
        Wn' = (if r.1.1
               then g_value_unset r.1.2 (g_object_set_property target (name pspec) r.1.2 r.2)
               else r.2)
        ∧ (r.1.1 = false → objects Wn' = objects Wn)
        ∧ (∀ d, r.1 = (true, G_VALUE d) → is_Some (objects Wn !! target) →
             (objects Wn' !! target ≫= λ tobj, properties tobj !! name pspec) = Some d).
Proof.
  intros Hobj Hps Hwr Hv.
  unfold gtk_expression_bind. rewrite Hobj, Hps, Hwr. cbn [negb].
  set (b := fresh (dom (expression_bind_table W))).
  set (binds := get_expression_binds W target).
  set (W2 := match binds with
             | [] => log (EvWeakRef target fn_invalidate_binds NULL)
                       (set_expression_binds target [] W)
             | _ :: _ => set_expression_binds target [] W
             end).
  set (W3 := set_expression_bind_table (<[b := mkBind None (Some target) pspec]>) W2).
  assert (Hv3 : this_is_valid W3 this_ = true).
  { rewrite <- Hv, <- (set_expression_binds_valid target [] W this_).
    subst W3 W2. by destruct binds, this_. }
  assert (Hp3 : (properties <$> objects W3 !! target) = Some (properties obj)).
  { transitivity (properties <$> objects (set_expression_binds target [] W) !! target).
    - subst W3 W2. by destruct binds.
    - by rewrite set_expression_binds_properties, Hobj. }
  destruct (gtk_expression_watch_creates self this_ fn_gtk_expression_bind_notify
              (bind_pointer b) (Some fn_gtk_expression_bind_free) W3 Hv3)
    as (Hr1 & _ & Hr3 & Hr4 & Hr5). cbn zeta in *.
  set (r := gtk_expression_watch self this_ fn_gtk_expression_bind_notify
              (bind_pointer b) (Some fn_gtk_expression_bind_free) W3) in *.
  set (w := fresh (dom (expression_watches W3))) in *.
  set (W4 := set_expression_bind_table (<[b := mkBind r.1 (Some target) pspec]>) r.2).
  set (W5 := set_expression_binds target (b :: binds) W4).
  assert (Hb5 : expression_bind_table W5 !! b = Some (mkBind (Some w) (Some target) pspec)).
  { subst W5 W4. simpl. by rewrite lookup_insert_eq, Hr1. }
  exists b, w, W5. split_and!.
  - f_equal.
    destruct (bind_notify_spec b W5) as (_ & _ & _ & -> & _). by rewrite Hb5.
  - exact Hb5.
  - subst W5 W4. simpl. by rewrite Hr3, lookup_insert_eq.
  - subst W5. rewrite set_expression_binds_properties. subst W4. simpl. by rewrite Hr4.
  - intros Wn watch e Hbn Hwn Hen.
    exact (bind_notify_outcome b _ target w watch e Wn Hbn eq_refl eq_refl Hwn Hen).
Qed.

Lemma bind_evaluates_and_writes_witness :
  ∃ b w W5,
    gtk_expression_bind this_width bar "label" (Some foo) scene
    = (Some w, gtk_expression_bind_notify b W5)
    ∧ expression_bind_table W5 !! b = Some (mkBind (Some w) (Some bar) label_pspec)
    ∧ expression_watches W5 !! w
      = Some (mkWatch (Some this_width) (Some foo) (Some fn_gtk_expression_bind_free)
                      fn_gtk_expression_bind_notify (bind_pointer b) 1)
    ∧ (properties <$> objects W5 !! bar) = Some (properties bar_instance).
Proof.
  destruct (bind_evaluates_and_writes this_width bar "label" (Some foo) bar_instance
              label_pspec scene eq_refl eq_refl eq_refl eq_refl)
    as (b & w & W5 & H1 & H2 & H3 & H4 & _).
  exists b, w, W5. exact (conj H1 (conj H2 (conj H3 H4))).
Defined.

(** The scene: the bind writes the width of the Foo, 42, to the label of
    the Bar at once. *)
Lemma bound_scene_label :
  (objects bound_scene !! bar ≫= λ obj, properties obj !! "label") = Some (V_int 42)
  ∧ trace bound_scene
    = [EvWeakRef bar fn_invalidate_binds NULL;
       EvWeakRef foo fn_gtk_expression_watch_this_cb (watch_pointer 1%positive);
       EvSetProperty bar "label" (G_VALUE (V_int 42))].
Proof. split; by vm_compute. Qed.

(** The scene, when the Foo is destroyed: the bind is notified with its
    watch still watching but [this] already NULL, so the evaluation fails
    and the label keeps its value; then the watch is torn down and the bind
    freed. *)
Lemma bound_scene_this_destroyed :
  let W := gtk_expression_watch_this_cb 1%positive bound_scene in
  (objects W !! bar ≫= λ obj, properties obj !! "label") = Some (V_int 42)
  ∧ trace W
    = trace bound_scene
        ++ [EvNotify fn_gtk_expression_bind_notify (bind_pointer 1%positive);
            EvDestroyNotify fn_gtk_expression_bind_free (bind_pointer 1%positive);
            EvWeakUnref bar fn_invalidate_binds NULL]
  ∧ expression_bind_table W !! 1%positive = None.
Proof. split_and!; by vm_compute. Qed.

(** ** Watch sizes and the layout of the buffer *)

(** A closure expression counts its header and the parameters that are
    not static. *)
Lemma closure_watch_size closure params :
  gtk_expression_watch_size (GtkClosureExpression closure params)
  = (sizeof_GtkClosureExpressionWatch + params_watch_size params)%N.
Proof.
  cbn [gtk_expression_watch_size].
  generalize sizeof_GtkClosureExpressionWatch.
  induction params as [| p ps IH]; intros size; cbn [params_watch_size].
  - lia.
  - destruct (gtk_expression_is_static p); rewrite IH; lia.
Qed.

(** A property expression counts its header and its child, static or
    not. *)
Lemma property_watch_size e pspec :
  gtk_expression_watch_size (GtkPropertyExpression (Some e) pspec)
  = (sizeof_GtkPropertyExpressionWatch + gtk_expression_watch_size e)%N.
Proof. done. Qed.

(** Installing the sub-watches of an expression at byte [off] of the
    buffer of watch [w] writes no record that starts outside the
    gtk_expression_watch_size bytes from [off] on. *)
Lemma subwatch_init_confined e :
  ∀ w off this_ notify_ user_data_ W k,
    ¬ (k.1 = w ∧ (off ≤ k.2 < off + gtk_expression_watch_size e)%N) →
    sub_watches (gtk_expression_subwatch_init e w off this_ notify_ user_data_ W) !! k
    = sub_watches W !! k.
Proof.
  assert (Hcreate : ∀ w off W k, k ≠ (w, off) →
            sub_watches (gtk_property_expression_watch_create_closure w off W) !! k
            = sub_watches W !! k).
  { intros w off W k Hk. unfold gtk_property_expression_watch_create_closure.
    destruct (sub_watches W !! (w, off)) as [[| n d ce ps t c |] |] eqn:Hl; try done.
    destruct (get_object_spec ce ps t W (λ e' _, evaluate_well e')) as ((_ & _ & _ & Hs & _) & _).
    destruct (gtk_property_expression_get_object _ _ _ _ W) as [[o |] W1]; simpl in *;
      rewrite <- Hs; [| done].
    by rewrite lookup_insert_ne. }
  induction e as [value | x | pspec | e pspec IH | closure params IH]
    using GtkExpression_tree_ind; intros w off this_ notify_ user_data_ W [kw ko] Hk;
    cbn [fst snd] in Hk.
  - done.
  - cbn [gtk_expression_watch_size] in Hk. simpl. rewrite lookup_insert_ne; [done |].
    intros [= <- <-]. apply Hk. unfold sizeof_GtkObjectExpressionWatch, sizeof_gpointer. lia.
  - cbn [gtk_expression_watch_size] in Hk. cbn [gtk_expression_subwatch_init].
    assert (Hne : (kw, ko) ≠ (w, off)).
    { intros [= -> ->]. apply Hk.
      unfold sizeof_GtkPropertyExpressionWatch, sizeof_gpointer. lia. }
    rewrite Hcreate by done. simpl. by rewrite lookup_insert_ne.
  - cbn [gtk_expression_watch_size] in Hk. cbn [gtk_expression_subwatch_init].
    assert (Hne : (kw, ko) ≠ (w, off)).
    { intros [= -> ->]. apply Hk.
      unfold sizeof_GtkPropertyExpressionWatch, sizeof_gpointer. lia. }
    rewrite Hcreate by done.
    destruct (gtk_expression_is_static e); cbn [negb].
    + simpl. by rewrite lookup_insert_ne.
    + rewrite IH.
      * simpl. by rewrite lookup_insert_ne.
      * simpl. intros [-> Hr]. apply Hk. split; [done |]. lia.
  - rewrite closure_watch_size in Hk. cbn [gtk_expression_subwatch_init].
    assert (Hne : (kw, ko) ≠ (w, off)).
    { intros [= -> ->]. apply Hk.
      unfold sizeof_GtkClosureExpressionWatch, sizeof_gpointer. lia. }
    set (W1 := set_sub_watches (<[(w, off) := ClosureSubWatch notify_ user_data_]>) W).
    transitivity (sub_watches W1 !! (kw, ko)); [| subst W1; simpl; by rewrite lookup_insert_ne].
    clearbody W1.
    assert (Hsub : ¬ (kw = w ∧ (off + sizeof_GtkClosureExpressionWatch ≤ ko
                       < off + sizeof_GtkClosureExpressionWatch + params_watch_size params)%N)).
    { intros [-> Hr]. apply Hk. split; [done |]. lia. }
    revert Hsub. generalize (off + sizeof_GtkClosureExpressionWatch)%N. revert W1.
    clear Hk Hne.
    induction IH as [| p ps Hp _ IHps]; intros W1 sub Hsub; [done |].
    cbn [params_watch_size] in Hsub.
    destruct (gtk_expression_is_static p).
    + apply IHps. intros [-> Hr]. apply Hsub. split; [done |]. lia.
    + rewrite IHps.
      * apply Hp. simpl. intros [-> Hr]. apply Hsub. split; [done |]. lia.
      * intros [-> Hr]. apply Hsub. split; [done |]. lia.
Qed.

(** C2 (the code at the failing input). A property expression whose child
    is a static closure expression: gtk_property_expression_watch_size
    adds the watch size of the child although the child is static, so the
    size is 56 bytes, while own size plus non-static children is 40 bytes,
    and 40 bytes is also all that watching the expression writes: the
    sub-watch of the child is never installed. *)
Theorem property_watch_size_counts_static_child :
  gtk_expression_is_static (GtkClosureExpression count_args []) = true
  ∧ gtk_expression_watch_size width_of_static_closure = 56%N
  ∧ sizeof_GtkPropertyExpressionWatch = 40%N
  ∧ buffer_span
      (gtk_expression_subwatch_init width_of_static_closure 1%positive 0 (Some foo)
         fn_gtk_expression_watch_cb (watch_pointer 1%positive) scene) 1%positive
    = 40%N.
Proof. split_and!; by vm_compute. Qed.

(** * Further properties of the engine *)

(** ** Evaluation *)

(** X1. Evaluating any expression, with any [this], never writes to the
    objects, the object expressions, the watches, their buffers or the
    binds; when it fails the output slot is left empty and the counters of
    initialised values and of object references are where they were; when
    it succeeds the counters have grown by exactly what the returned value
    holds. *)
Theorem evaluate_fills_the_slot_or_leaves_no_trace e this_ W :
  let r := gtk_expression_evaluate e this_ W in
  same_stores W r.2
  ∧ live_values r.2 = live_values W + value_live r.1.2
  ∧ (∀ o, ref_counts r.2 o = ref_counts W o + value_holds r.1.2 o)
  ∧ (r.1.1 = false →
       r.1.2 = G_VALUE_INIT
       ∧ live_values r.2 = live_values W
       ∧ ∀ o, ref_counts r.2 o = ref_counts W o).
Proof.
  cbn zeta. destruct (evaluate_well e this_ W) as (Hs & Hl & Hr & Hf & _).
  split_and!; try done.
  intros Hfail. rewrite (Hf Hfail) in Hl, Hr. simpl in Hl, Hr.
  split_and!; [by apply Hf | lia | intros o; rewrite Hr; lia].
Qed.

Lemma evaluate_fills_the_slot_or_leaves_no_trace_witness :
  let r := gtk_expression_evaluate this_width None scene in
  r.1.2 = G_VALUE_INIT
  ∧ live_values r.2 = live_values scene
  ∧ ∀ o, ref_counts r.2 o = ref_counts scene o.
Proof.
  apply (evaluate_fills_the_slot_or_leaves_no_trace this_width None scene).
  reflexivity.
Defined.

(** Every parameter of a static closure expression is static. *)
Lemma static_closure_params closure params :
  gtk_expression_is_static (GtkClosureExpression closure params) = true →
  Forall (λ p, gtk_expression_is_static p = true) params.
Proof.
  rewrite closure_is_static_forallb, forallb_forall, Forall_forall.
  intros H p Hp. apply H. by apply list_elem_of_In.
Qed.

(** X3. A static expression always evaluates, and to the same value
    whatever the state of the world: the result depends on the expression
    and on [this] alone (the callable of a closure being a function of its
    arguments). *)
Theorem static_expression_evaluates_the_same e this_ W W' :
  gtk_expression_is_static e = true →
  this_is_valid W this_ = true →
  this_is_valid W' this_ = true →
  (gtk_expression_evaluate e this_ W).1.1 = true
  ∧ (gtk_expression_evaluate e this_ W').1 = (gtk_expression_evaluate e this_ W).1.
Proof.
  revert W W'.
  induction e as [value | x | pspec | e pspec IH | closure params IH]
    using GtkExpression_tree_ind; intros W W' Hstatic Hv Hv'; try done.
  - rewrite !evaluate_unfold, Hv, Hv'. cbn [negb].
    unfold gtk_constant_expression_evaluate, bind, ret. cbn [fst snd].
    destruct (g_value_init_with_spec value W) as (-> & _).
    by destruct (g_value_init_with_spec value W') as (-> & _).
  - apply static_closure_params in Hstatic.
    assert (Hrs : ∀ W1 W2, this_is_valid W1 this_ = true → this_is_valid W2 this_ = true →
              forallb fst (map (λ p, (gtk_expression_evaluate p this_ W1).1) params) = true
              ∧ map (λ p, (gtk_expression_evaluate p this_ W2).1) params
                = map (λ p, (gtk_expression_evaluate p this_ W1).1) params).
    { intros W1 W2 H1 H2. clear Hv Hv'.
      induction IH as [| p ps Hp _ IHps]; [done |].
      apply Forall_cons in Hstatic as [Hps Hstatic].
      destruct (Hp W1 W2 Hps H1 H2) as [Hok Heq].
      destruct (IHps Hstatic) as [Hoks Heqs].
      simpl. rewrite Heq, Heqs. split; [| done].
      apply andb_true_iff. split; [exact Hok | exact Hoks]. }
    destruct (Hrs W W' Hv Hv') as [Hok Heq].
    destruct (closure_evaluate_spec closure params this_ W (evaluate_all_well params) Hv)
      as (_ & _ & HW & _).
    destruct (closure_evaluate_spec closure params this_ W' (evaluate_all_well params) Hv')
      as (_ & _ & HW' & _).
    cbn zeta in HW, HW'. rewrite Heq in HW'.
    destruct (HW Hok) as (-> & _). destruct (HW' Hok) as (-> & _). done.
Qed.

Lemma static_expression_evaluates_the_same_witness :
  (gtk_expression_evaluate (GtkClosureExpression count_args [GtkConstantExpression (V_int 3)])
     (Some foo) scene).1.1 = true
  ∧ (gtk_expression_evaluate (GtkClosureExpression count_args [GtkConstantExpression (V_int 3)])
       (Some foo) bound_scene).1
    = (gtk_expression_evaluate (GtkClosureExpression count_args [GtkConstantExpression (V_int 3)])
         (Some foo) scene).1.
Proof.
  apply (static_expression_evaluates_the_same
           (GtkClosureExpression count_args [GtkConstantExpression (V_int 3)])
           (Some foo) scene bound_scene); reflexivity.
Defined.

Lemma get_property_view o property_name W W' :
  (∀ o, (instance_view <$> objects W !! o) = (instance_view <$> objects W' !! o)) →
  (g_object_get_property o property_name W').1 = (g_object_get_property o property_name W).1.
Proof.
  intros Ho. specialize (Ho o). unfold g_object_get_property.
  destruct (objects W !! o) as [obj |], (objects W' !! o) as [obj' |]; try done.
  injection Ho as _ <-.
  destruct (properties obj !! property_name) as [d |]; [| done].
  by destruct d as [| | []].
Qed.

Lemma this_is_valid_view W W' this_ :
  (∀ o, (instance_view <$> objects W !! o) = (instance_view <$> objects W' !! o)) →
  this_is_valid W' this_ = this_is_valid W this_.
Proof.
  intros Ho. destruct this_ as [t |]; [| done]. specialize (Ho t).
  unfold this_is_valid, G_IS_OBJECT. apply bool_decide_ext.
  destruct (objects W !! t), (objects W' !! t); try done; split; intros []; done.
Qed.

Lemma type_check_view W W' o t :
  (∀ o, (instance_view <$> objects W !! o) = (instance_view <$> objects W' !! o)) →
  G_TYPE_CHECK_INSTANCE_TYPE W' o t = G_TYPE_CHECK_INSTANCE_TYPE W o t.
Proof.
  intros Ho. specialize (Ho o). unfold G_TYPE_CHECK_INSTANCE_TYPE.
  destruct (objects W !! o) as [obj |], (objects W' !! o) as [obj' |]; try done.
  by injection Ho as <- _.
Qed.

Lemma evaluate_same_pointers e :
  ∀ this_ W W', same_pointers W W' →
    (gtk_expression_evaluate e this_ W').1 = (gtk_expression_evaluate e this_ W).1.
Proof.
  induction e as [value | x | pspec | e pspec IH | closure params IH]
    using GtkExpression_tree_ind; intros this_ W W' [Ho Hp];
    rewrite (evaluate_unfold _ this_ W), (evaluate_unfold _ this_ W'),
      (this_is_valid_view W W' this_ Ho);
    (destruct (this_is_valid W this_) eqn:Hv; cbn [negb]; [| done]).
  - unfold gtk_constant_expression_evaluate, bind, ret. cbn [fst snd].
    destruct (g_value_init_with_spec value W) as (-> & _).
    by destruct (g_value_init_with_spec value W') as (-> & _).
  - unfold gtk_object_expression_evaluate. rewrite <- (Hp x).
    by destruct (object <$> object_exprs W !! x) as [[o |] |].
  - rewrite !property_evaluate_eq. destruct this_ as [t |]; [| done]. simpl.
    f_equal. by apply get_property_view.
  - rewrite !property_evaluate_eq, !get_object_child. cbn zeta.
    rewrite (IH this_ W W' (conj Ho Hp)).
    destruct (evaluate_well e this_ W) as ((Hs & _) & _).
    destruct (evaluate_well e this_ W') as ((Hs' & _) & _).
    assert (Ho1 : ∀ o, (instance_view <$> objects (gtk_expression_evaluate e this_ W).2 !! o)
                       = (instance_view <$> objects (gtk_expression_evaluate e this_ W').2 !! o)).
    { intros o. rewrite <- Hs, <- Hs'. apply Ho. }
    destruct (gtk_expression_evaluate e this_ W).1 as [[] v]; simpl; [| done].
    destruct v as [| [n | s | [o |]]]; simpl; try done.
    rewrite (type_check_view _ _ o (owner_type pspec) Ho1).
    destruct (G_TYPE_CHECK_INSTANCE_TYPE _ o _); simpl; [| done].
    f_equal. by apply get_property_view.
  - assert (Hv' : this_is_valid W' this_ = true).
    { by rewrite (this_is_valid_view W W' this_ Ho). }
    assert (Hrs : map (λ p, (gtk_expression_evaluate p this_ W').1) params
                  = map (λ p, (gtk_expression_evaluate p this_ W).1) params).
    { clear Hv Hv'. induction IH as [| p ps Hp' _ IHps]; [done |].
      simpl. f_equal; [| exact IHps]. apply Hp'. by split. }
    pose proof (closure_evaluate_spec closure params this_ W (evaluate_all_well params) Hv)
      as (_ & _ & HW1 & HW2).
    pose proof (closure_evaluate_spec closure params this_ W' (evaluate_all_well params) Hv')
      as (_ & _ & HW1' & HW2').
    cbn zeta in HW1, HW2, HW1', HW2'. rewrite Hrs in HW1', HW2'.
    rewrite !evaluate_unfold, Hv in HW1, HW2. rewrite !evaluate_unfold, Hv' in HW1', HW2'.
    cbn [negb] in HW1, HW2, HW1', HW2'.
    destruct (forallb fst (map (λ p, (gtk_expression_evaluate p this_ W).1) params)).
    + destruct (HW1 eq_refl) as (-> & _). by destruct (HW1' eq_refl) as (-> & _).
    + destruct (HW2 eq_refl) as (-> & _). by destruct (HW2' eq_refl) as (-> & _).
Qed.

(** X2. What an expression evaluates to depends on the types and the
    property values of the objects and on the object pointers of the
    object expressions alone: not on the reference counts, on the watches
    installed, on the listener lists, on the binds or on what was traced
    before. *)
Theorem evaluate_depends_on_objects_alone e this_ W W' :
  (∀ o, (instance_view <$> objects W !! o) = (instance_view <$> objects W' !! o)) →
  (∀ x, (object <$> object_exprs W !! x) = (object <$> object_exprs W' !! x)) →
  (gtk_expression_evaluate e this_ W').1 = (gtk_expression_evaluate e this_ W).1.
Proof. intros Ho Hp. by apply evaluate_same_pointers. Qed.

Lemma evaluate_depends_on_objects_alone_witness :
  (gtk_expression_evaluate this_width (Some foo) watched_width.2).1
  = (gtk_expression_evaluate this_width (Some foo) scene).1.
Proof.
  apply (evaluate_depends_on_objects_alone this_width (Some foo) scene watched_width.2).
  - intros o. reflexivity.
  - intros x. reflexivity.
Defined.

(** X13. A property expression with a child reads the property off the
    object the child evaluates to, when that object conforms to the owner
    type of the pspec: the value is the current value of the property. *)
Theorem property_evaluate_reads_the_property e pspec this_ W o W1 obj d :
  gtk_expression_evaluate e this_ W = ((true, G_VALUE (V_object (Some o))), W1) →
  objects W !! o = Some obj →
  owner_type pspec ∈ g_class obj →
  properties obj !! name pspec = Some d →
  (gtk_expression_evaluate (GtkPropertyExpression (Some e) pspec) this_ W).1
  = (true, G_VALUE d).
Proof.
  intros Hev Hobj Hty Hd. rewrite evaluate_unfold.
  destruct (this_is_valid W this_) eqn:Hv.
  2:{ by rewrite (evaluate_invalid_this e this_ W Hv) in Hev. }
  cbn [negb]. rewrite property_evaluate_eq, get_object_child.
  destruct (evaluate_well e this_ W) as ((Ho & _) & _).
  rewrite Hev in Ho |- *. simpl in Ho. simpl.
  unfold G_TYPE_CHECK_INSTANCE_TYPE. rewrite <- Ho, Hobj.
  rewrite bool_decide_eq_true_2 by done. simpl.
  unfold g_object_get_property. simpl. rewrite <- Ho, Hobj, Hd.
  by destruct d as [| | []].
Qed.

Lemma property_evaluate_reads_the_property_witness :
  (gtk_expression_evaluate
     (GtkPropertyExpression (Some (GtkConstantExpression (V_object (Some foo)))) width_pspec)
     None scene).1 = (true, G_VALUE (V_int 42)).
Proof.
  apply (property_evaluate_reads_the_property
           (GtkConstantExpression (V_object (Some foo))) width_pspec None scene foo
           (g_object_ref foo (set_live_values Z.succ scene)) foo_instance (V_int 42)).
  - reflexivity.
  - reflexivity.
  - apply list_elem_of_here.
  - reflexivity.
Defined.

(** ** Watching *)

(** X4. Watching a static expression subscribes to nothing: no listener
    is added to any object expression, nothing is evaluated, and the only
    record written is the header of the node itself. *)
Theorem static_expression_watch_subscribes_nothing e w off this_ notify_ user_data_ W :
  gtk_expression_is_static e = true →
  let W' := gtk_expression_subwatch_init e w off this_ notify_ user_data_ W in
  object_exprs W' = object_exprs W
  ∧ objects W' = objects W
  ∧ trace W' = trace W
  ∧ ∀ k, k ≠ (w, off) → sub_watches W' !! k = sub_watches W !! k.
Proof.
  intros Hstatic. destruct e as [value | x | expr pspec | closure params]; try done.
  apply static_closure_params in Hstatic. cbn zeta. cbn [gtk_expression_subwatch_init].
  set (W1 := set_sub_watches (<[(w, off) := ClosureSubWatch notify_ user_data_]>) W).
  assert (Hloop : ∀ sub W2,
            (fix loop (ps : list GtkExpression) (sub : N) (W' : World) {struct ps} : World :=
               match ps with
               | [] => W'
               | p :: ps' =>
                   if gtk_expression_is_static p then loop ps' sub W'
                   else loop ps' (sub + gtk_expression_watch_size p)%N
                          (gtk_expression_subwatch_init p w sub this_
                             fn_gtk_closure_expression_watch_notify_cb (sub_pointer w off) W')
               end) params sub W2 = W2).
  { induction Hstatic as [| p ps Hp _ IH]; intros sub W2; [done |]. by rewrite Hp. }
  rewrite Hloop. subst W1. simpl. split_and!; try done.
  intros k Hk. by rewrite lookup_insert_ne.
Qed.

Lemma static_expression_watch_subscribes_nothing_witness :
  object_exprs (gtk_expression_subwatch_init
                  (GtkClosureExpression count_args [GtkConstantExpression (V_int 3)])
                  1%positive 0 None fn_gtk_expression_watch_cb (watch_pointer 1%positive)
                  watched_scene)
  = object_exprs watched_scene.
Proof.
  apply (static_expression_watch_subscribes_nothing
           (GtkClosureExpression count_args [GtkConstantExpression (V_int 3)])
           1%positive 0%N None fn_gtk_expression_watch_cb (watch_pointer 1%positive)
           watched_scene eq_refl).
Defined.

Lemma create_closure_object_exprs w off W :
  object_exprs (gtk_property_expression_watch_create_closure w off W) = object_exprs W.
Proof.
  unfold gtk_property_expression_watch_create_closure.
  destruct (sub_watches W !! (w, off)) as [[| n d ce ps t c |] |]; try done.
  destruct (get_object_spec ce ps t W (λ e' _, evaluate_well e')) as ((_ & Hs & _) & _).
  by destruct (gtk_property_expression_get_object _ _ _ _ W) as [[o |] W1].
Qed.

Lemma destroy_closure_object_exprs w off W :
  object_exprs (gtk_property_expression_watch_destroy_closure w off W) = object_exprs W.
Proof.
  unfold gtk_property_expression_watch_destroy_closure.
  by destruct (sub_watches W !! (w, off)) as [[| n d ce ps t [c |] |] |].
Qed.

Lemma register_slots_app w S1 S2 m :
  register_slots w (S1 ++ S2) m = register_slots w S2 (register_slots w S1 m).
Proof. unfold register_slots. by rewrite foldl_app. Qed.

Lemma unregister_slots_app w S1 S2 m :
  unregister_slots w (S1 ++ S2) m = unregister_slots w S2 (unregister_slots w S1 m).
Proof. unfold unregister_slots. by rewrite foldl_app. Qed.

(** Installing the sub-watches of a tree prepends its object-expression
    slots to the listener lists, in visiting order. *)
Lemma subwatch_init_object_exprs e :
  ∀ w off this_ notify_ user_data_ W,
    object_exprs (gtk_expression_subwatch_init e w off this_ notify_ user_data_ W)
    = register_slots w (object_slots e off) (object_exprs W).
Proof.
  induction e as [value | x | pspec | e pspec IH | closure params IH]
    using GtkExpression_tree_ind; intros w off this_ notify_ user_data_ W.
  - done.
  - done.
  - cbn [gtk_expression_subwatch_init object_slots]. by rewrite create_closure_object_exprs.
  - cbn [gtk_expression_subwatch_init object_slots]. rewrite create_closure_object_exprs.
    destruct (gtk_expression_is_static e); cbn [negb]; [done |]. by rewrite IH.
  - cbn [gtk_expression_subwatch_init object_slots].
    set (W1 := set_sub_watches (<[(w, off) := ClosureSubWatch notify_ user_data_]>) W).
    change (object_exprs W) with (object_exprs W1). clearbody W1.
    generalize (off + sizeof_GtkClosureExpressionWatch)%N. revert W1.
    induction IH as [| p ps Hp _ IHps]; intros W1 sub; [done |].
    cbn [params_object_slots].
    destruct (gtk_expression_is_static p); [apply IHps |].
    by rewrite IHps, Hp, register_slots_app.
Qed.

(** Tearing them down removes the same slots, in the same order. *)
Lemma subwatch_finish_object_exprs e :
  ∀ w off W,
    object_exprs (gtk_expression_subwatch_finish e w off W)
    = unregister_slots w (object_slots e off) (object_exprs W).
Proof.
  induction e as [value | x | pspec | e pspec IH | closure params IH]
    using GtkExpression_tree_ind; intros w off W.
  - done.
  - done.
  - cbn [gtk_expression_subwatch_finish object_slots]. by rewrite destroy_closure_object_exprs.
  - cbn [gtk_expression_subwatch_finish object_slots].
    destruct (gtk_expression_is_static e); cbn [negb].
    + by rewrite destroy_closure_object_exprs.
    + by rewrite IH, destroy_closure_object_exprs.
  - cbn [gtk_expression_subwatch_finish object_slots].
    generalize (off + sizeof_GtkClosureExpressionWatch)%N. revert W.
    induction IH as [| p ps Hp _ IHps]; intros W sub; [done |].
    cbn [params_object_slots].
    destruct (gtk_expression_is_static p); [apply IHps |].
    by rewrite IHps, Hp, unregister_slots_app.
Qed.

Lemma params_watch_size_static p ps :
  gtk_expression_is_static p = true → params_watch_size (p :: ps) = params_watch_size ps.
Proof. intros H. cbn [params_watch_size]. rewrite H. lia. Qed.

(** Every slot of a tree starts inside the bytes the tree asked for. *)
Lemma object_slots_range e :
  ∀ off s, s ∈ object_slots e off →
    (off ≤ s.2 ∧ s.2 + sizeof_GtkObjectExpressionWatch ≤ off + gtk_expression_watch_size e)%N.
Proof.
  induction e as [value | x | pspec | e pspec IH | closure params IH]
    using GtkExpression_tree_ind; intros off s Hs.
  - by apply elem_of_nil in Hs.
  - apply list_elem_of_singleton in Hs as ->. simpl. lia.
  - by apply elem_of_nil in Hs.
  - cbn [object_slots] in Hs. cbn [gtk_expression_watch_size].
    destruct (gtk_expression_is_static e); [by apply elem_of_nil in Hs |].
    apply IH in Hs. lia.
  - rewrite closure_watch_size. cbn [object_slots] in Hs.
    assert (Hloop : ∀ sub, s ∈ params_object_slots object_slots params sub →
              (sub ≤ s.2 ∧ s.2 + sizeof_GtkObjectExpressionWatch
                             ≤ sub + params_watch_size params)%N).
    { clear Hs. induction IH as [| p ps Hp _ IHps]; intros sub Hs.
      - by apply elem_of_nil in Hs.
      - cbn [params_object_slots params_watch_size] in *.
        destruct (gtk_expression_is_static p).
        + apply IHps in Hs. lia.
        + apply elem_of_app in Hs as [Hs | Hs]; [apply Hp in Hs | apply IHps in Hs]; lia. }
    apply Hloop in Hs. lia.
Qed.

(** No two slots of a tree share an offset. *)
Lemma object_slots_NoDup e : ∀ off, NoDup (object_slots e off).*2.
Proof.
  induction e as [value | x | pspec | e pspec IH | closure params IH]
    using GtkExpression_tree_ind; intros off.
  - constructor.
  - apply NoDup_singleton.
  - constructor.
  - cbn [object_slots]. destruct (gtk_expression_is_static e); [constructor | apply IH].
  - cbn [object_slots]. generalize (off + sizeof_GtkClosureExpressionWatch)%N.
    assert (Hlow : ∀ ps sub s, s ∈ params_object_slots object_slots ps sub → (sub ≤ s.2)%N).
    { intros ps. induction ps as [| p ps IHps]; intros sub s Hs.
      - by apply elem_of_nil in Hs.
      - cbn [params_object_slots] in Hs.
        destruct (gtk_expression_is_static p); [by apply IHps |].
        apply elem_of_app in Hs as [Hs | Hs].
        + by apply object_slots_range in Hs as [? _].
        + apply IHps in Hs. lia. }
    induction IH as [| p ps Hp _ IHps]; intros sub; [constructor |].
    cbn [params_object_slots].
    destruct (gtk_expression_is_static p); [apply IHps |].
    rewrite fmap_app. apply NoDup_app. split_and!; [apply Hp | | apply IHps].
    intros o Ho1 Ho2.
    apply list_elem_of_fmap in Ho1 as (s1 & -> & Hs1).
    apply list_elem_of_fmap in Ho2 as (s2 & Heq & Hs2).
    apply object_slots_range in Hs1. apply Hlow in Hs2.
    unfold sizeof_GtkObjectExpressionWatch, sizeof_gpointer in Hs1. lia.
Qed.

Lemma register_slots_lookup w S : ∀ m x,
  register_slots w S m !! x
  = (λ node, mkObjectExpression (object node) (reverse (slots_at w x S) ++ watches node))
      <$> m !! x.
Proof.
  unfold register_slots, slots_at.
  induction S as [| [y o] S IH]; intros m x.
  - simpl. destruct (m !! x) as [[ob ws] |]; done.
  - cbn [foldl]. rewrite IH. cbn [fst snd]. rewrite filter_cons. cbn [fst].
    destruct (decide (y = x)) as [-> | Hne].
    + rewrite lookup_alter_eq. destruct (m !! x) as [[ob ws] |]; [| done].
      simpl. rewrite reverse_cons, <- (assoc_L (++)). done.
    + by rewrite lookup_alter_ne.
Qed.

Lemma unregister_slots_lookup w S : ∀ m x,
  unregister_slots w S m !! x
  = (λ node, mkObjectExpression (object node)
               (foldl g_slist_remove (watches node) (slots_at w x S)))
      <$> m !! x.
Proof.
  unfold unregister_slots, slots_at.
  induction S as [| [y o] S IH]; intros m x.
  - simpl. destruct (m !! x) as [[ob ws] |]; done.
  - cbn [foldl]. rewrite IH. cbn [fst snd]. rewrite filter_cons. cbn [fst].
    destruct (decide (y = x)) as [-> | Hne].
    + rewrite lookup_alter_eq. by destruct (m !! x) as [[ob ws] |].
    + by rewrite lookup_alter_ne.
Qed.

Lemma g_slist_remove_middle {A} `{EqDecision A} (l k : list A) (a : A) :
  a ∉ l → g_slist_remove (l ++ a :: k) a = l ++ k.
Proof.
  induction l as [| b l IH]; intros Hnot; simpl.
  - by rewrite decide_True.
  - apply not_elem_of_cons in Hnot as [Hne Hnot].
    rewrite decide_False by done. by rewrite IH.
Qed.

(** Removing, oldest first, the entries that were prepended gives the
    list back. *)
Lemma remove_prepended {A} `{EqDecision A} (L base : list A) :
  NoDup L → foldl g_slist_remove (reverse L ++ base) L = base.
Proof.
  revert base. induction L as [| a L IH]; intros base Hnd; [done |].
  apply NoDup_cons in Hnd as [Hnot Hnd].
  cbn [foldl]. rewrite reverse_cons, <- (assoc_L (++)). simpl.
  rewrite g_slist_remove_middle; [by apply IH |].
  by rewrite elem_of_reverse.
Qed.

Lemma slots_at_NoDup w x S : NoDup S.*2 → NoDup (slots_at w x S).
Proof.
  unfold slots_at. induction S as [| [y o] S IH]; intros Hnd; [constructor |].
  rewrite fmap_cons in Hnd. apply NoDup_cons in Hnd as [Hnot Hnd]. cbn [snd] in Hnot.
  rewrite filter_cons. cbn [fst]. destruct (decide (y = x)); [| by apply IH].
  rewrite fmap_cons. apply NoDup_cons. split; [| by apply IH].
  intros Hin. apply Hnot.
  apply list_elem_of_fmap in Hin as ([y' o'] & [= ->] & Hin).
  apply list_elem_of_filter in Hin as [_ Hin].
  apply list_elem_of_fmap. by exists (y', o').
Qed.

Lemma unregister_register w S m :
  NoDup S.*2 → unregister_slots w S (register_slots w S m) = m.
Proof.
  intros Hnd. apply map_eq. intros x.
  rewrite unregister_slots_lookup, register_slots_lookup.
  destruct (m !! x) as [[ob ws] |]; [| done]. simpl.
  by rewrite remove_prepended by by apply slots_at_NoDup.
Qed.

(** X6. Round trip: tearing down the sub-watches that were just installed
    for an expression gives every object expression its listener list
    back, whatever the tree and whatever lists were there before. *)
Theorem watch_then_unwatch_restores_listeners e w off this_ notify_ user_data_ W :
  object_exprs
    (gtk_expression_subwatch_finish e w off
       (gtk_expression_subwatch_init e w off this_ notify_ user_data_ W))
  = object_exprs W.
Proof.
  rewrite subwatch_finish_object_exprs, subwatch_init_object_exprs.
  apply unregister_register, object_slots_NoDup.
Qed.

(** ** Watching and evaluating *)

Lemma gtk_expression_watch_object_exprs self this_ notify_ user_data_ user_destroy_ W :
  this_is_valid W this_ = true →
  object_exprs (gtk_expression_watch self this_ notify_ user_data_ user_destroy_ W).2
  = register_slots (fresh (dom (expression_watches W))) (object_slots self 0) (object_exprs W).
Proof.
  intros Hv. unfold gtk_expression_watch. rewrite Hv. cbn [negb snd].
  rewrite subwatch_init_object_exprs. by destruct this_.
Qed.

Lemma set_expression_binds_view target binds W o :
  (instance_view <$> objects (set_expression_binds target binds W) !! o)
  = (instance_view <$> objects W !! o).
Proof.
  unfold set_expression_binds. destruct W; simpl.
  destruct (decide (o = target)) as [-> |].
  - rewrite lookup_alter_eq. by destruct (_ !! target).
  - by rewrite lookup_alter_ne.
Qed.

Lemma bind_free_view b W o :
  (instance_view <$> objects (gtk_expression_bind_free b W) !! o)
  = (instance_view <$> objects W !! o).
Proof.
  unfold gtk_expression_bind_free.
  destruct (expression_bind_table W !! b) as [[bw [t |] ps] |]; cbn [bind_target]; try done.
  destruct (g_slist_remove _ b); simpl; apply set_expression_binds_view.
Qed.

Lemma call_destroy_view f data W o :
  (instance_view <$> objects (call_destroy f data W) !! o)
  = (instance_view <$> objects W !! o).
Proof.
  unfold call_destroy. destruct f as [n |]; [done |].
  destruct data; try done. by rewrite bind_free_view.
Qed.

Lemma unwatch_same_pointers w W : same_pointers W (gtk_expression_watch_unwatch w W).
Proof.
  unfold gtk_expression_watch_unwatch.
  destruct (expression_watches W !! w) as [[[e |] t d n ud rc] |]; cbn [expression];
    try (by split).
  cbn [this user_destroy user_data].
  set (W1 := gtk_expression_subwatch_finish e w 0 W).
  set (W2 := match t with Some _ => _ | None => _ end).
  set (W3 := match d with Some _ => _ | None => _ end).
  assert (H2 : objects W2 = objects W1 ∧ object_exprs W2 = object_exprs W1).
  { subst W2. by destruct t. }
  assert (H3 : (∀ o, (instance_view <$> objects W3 !! o) = (instance_view <$> objects W2 !! o))
               ∧ object_exprs W3 = object_exprs W2).
  { subst W3. destruct d as [d |]; [| done]. split.
    - intros o. apply call_destroy_view.
    - by destruct (call_destroy_spec d ud W2) as (-> & _). }
  destruct H2 as [Ho2 He2], H3 as [Ho3 He3].
  destruct (subwatch_finish_frame e w 0 W) as (Ho1 & _).
  split.
  - intros o. simpl. rewrite Ho3, Ho2. subst W1. by rewrite <- Ho1.
  - intros x. simpl. rewrite He3, He2. subst W1.
    rewrite subwatch_finish_object_exprs, unregister_slots_lookup.
    by destruct (object_exprs W !! x).
Qed.

Lemma watch_same_pointers self this_ notify_ user_data_ user_destroy_ W :
  same_pointers W (gtk_expression_watch self this_ notify_ user_data_ user_destroy_ W).2.
Proof.
  destruct (this_is_valid W this_) eqn:Hv.
  - destruct (gtk_expression_watch_creates self this_ notify_ user_data_ user_destroy_ W Hv)
      as (_ & _ & _ & Ho & _).
    split.
    + intros o. by rewrite Ho.
    + intros x. rewrite gtk_expression_watch_object_exprs, register_slots_lookup by done.
      by destruct (object_exprs W !! x).
  - unfold gtk_expression_watch. rewrite Hv. by split.
Qed.

(** X7. Neither installing a watch nor removing one changes what any
    expression evaluates to, for any [this]: a watch observes. *)
Theorem watching_changes_no_evaluation self this_ notify_ user_data_ user_destroy_ w e this' W :
  (gtk_expression_evaluate e this'
     (gtk_expression_watch self this_ notify_ user_data_ user_destroy_ W).2).1
  = (gtk_expression_evaluate e this' W).1
  ∧ (gtk_expression_evaluate e this' (gtk_expression_watch_unwatch w W)).1
    = (gtk_expression_evaluate e this' W).1.
Proof.
  split; apply evaluate_same_pointers.
  - apply watch_same_pointers.
  - apply unwatch_same_pointers.
Qed.

(** ** The buffer of a watch *)

Lemma create_closure_elsewhere w off W k :
  k ≠ (w, off) →
  sub_watches (gtk_property_expression_watch_create_closure w off W) !! k = sub_watches W !! k.
Proof.
  intros Hk. unfold gtk_property_expression_watch_create_closure.
  destruct (sub_watches W !! (w, off)) as [[| n d ce ps t c |] |] eqn:Hl; try done.
  destruct (get_object_spec ce ps t W (λ e' _, evaluate_well e')) as ((_ & _ & _ & Hs & _) & _).
  destruct (gtk_property_expression_get_object _ _ _ _ W) as [[o |] W1]; simpl in *;
    rewrite <- Hs; [| done].
  by rewrite lookup_insert_ne.
Qed.

Lemma create_closure_sizes w off W k :
  (sizeof_sub_watch <$> sub_watches (gtk_property_expression_watch_create_closure w off W) !! k)
  = (sizeof_sub_watch <$> sub_watches W !! k).
Proof.
  destruct (decide (k = (w, off))) as [-> | Hk]; [| by rewrite create_closure_elsewhere].
  unfold gtk_property_expression_watch_create_closure.
  destruct (sub_watches W !! (w, off)) as [[| n d ce ps t c |] |] eqn:Hl; rewrite ?Hl; try done.
  destruct (get_object_spec ce ps t W (λ e' _, evaluate_well e')) as ((_ & _ & _ & Hs & _) & _).
  destruct (gtk_property_expression_get_object _ _ _ _ W) as [[o |] W1]; simpl in *.
  - by rewrite lookup_insert_eq.
  - by rewrite <- Hs, Hl.
Qed.

Lemma destroy_closure_elsewhere w off W k :
  k ≠ (w, off) →
  sub_watches (gtk_property_expression_watch_destroy_closure w off W) !! k = sub_watches W !! k.
Proof.
  intros Hk. unfold gtk_property_expression_watch_destroy_closure.
  destruct (sub_watches W !! (w, off)) as [[| n d e ps t [c |] |] |]; try done.
  simpl. by rewrite lookup_insert_ne.
Qed.

Lemma destroy_closure_sizes w off W k :
  (sizeof_sub_watch <$> sub_watches (gtk_property_expression_watch_destroy_closure w off W) !! k)
  = (sizeof_sub_watch <$> sub_watches W !! k).
Proof.
  destruct (decide (k = (w, off))) as [-> | Hk]; [| by rewrite destroy_closure_elsewhere].
  unfold gtk_property_expression_watch_destroy_closure.
  destruct (sub_watches W !! (w, off)) as [[| n d e ps t [c |] |] |] eqn:Hl; rewrite ?Hl; try done.
  simpl. by rewrite lookup_insert_eq.
Qed.

(** Every record that installing sub-watches writes lies, with all its
    bytes, in the gtk_expression_watch_size bytes from [off] on. *)
Lemma subwatch_init_fits e :
  ∀ w off this_ notify_ user_data_ W k,
    let W' := gtk_expression_subwatch_init e w off this_ notify_ user_data_ W in
    sub_watches W' !! k = sub_watches W !! k
    ∨ (k.1 = w
       ∧ ∃ rec, sub_watches W' !! k = Some rec
                ∧ (off ≤ k.2 ∧ k.2 + sizeof_sub_watch rec ≤ off + gtk_expression_watch_size e)%N).
Proof.
  induction e as [value | x | pspec | e pspec IH | closure params IH]
    using GtkExpression_tree_ind; intros w off this_ notify_ user_data_ W k; cbn zeta.
  - by left.
  - destruct (decide (k = (w, off))) as [-> | Hk].
    + right. split; [done |]. eexists. split; [simpl; apply lookup_insert_eq |].
      cbn [fst snd sizeof_sub_watch gtk_expression_watch_size]. lia.
    + left. simpl. by rewrite lookup_insert_ne.
  - cbn [gtk_expression_subwatch_init].
    destruct (decide (k = (w, off))) as [-> | Hk].
    + right. split; [done |].
      pose proof (create_closure_sizes w off
        (set_sub_watches (<[(w, off) := PropertySubWatch notify_ user_data_ None pspec this_ None]>) W)
        (w, off)) as Hsz.
      destruct (sub_watches (gtk_property_expression_watch_create_closure w off _) !! (w, off))
        as [rec |]; simpl in Hsz; rewrite lookup_insert_eq in Hsz; [| done].
      injection Hsz as Hsz. exists rec. split; [done |].
      rewrite Hsz. cbn [fst snd sizeof_sub_watch gtk_expression_watch_size]. lia.
    + left. rewrite create_closure_elsewhere by done. simpl. by rewrite lookup_insert_ne.
  - cbn [gtk_expression_subwatch_init].
    set (W1 := set_sub_watches
                 (<[(w, off) := PropertySubWatch notify_ user_data_ (Some e) pspec this_ None]>) W).
    set (W2 := if negb (gtk_expression_is_static e) then _ else W1).
    rewrite property_watch_size.
    destruct (decide (k = (w, off))) as [-> | Hk].
    + right. split; [done |].
      assert (H2 : sub_watches W2 !! (w, off)
                   = Some (PropertySubWatch notify_ user_data_ (Some e) pspec this_ None)).
      { subst W2. destruct (gtk_expression_is_static e); cbn [negb].
        - subst W1. simpl. apply lookup_insert_eq.
        - rewrite subwatch_init_confined.
          + subst W1. simpl. apply lookup_insert_eq.
          + cbn [fst snd]. unfold sizeof_GtkPropertyExpressionWatch, sizeof_gpointer. lia. }
      pose proof (create_closure_sizes w off W2 (w, off)) as Hsz.
      rewrite H2 in Hsz.
      destruct (sub_watches (gtk_property_expression_watch_create_closure w off W2) !! (w, off))
        as [rec |]; simpl in Hsz; [| done].
      injection Hsz as Hsz. exists rec. split; [done |].
      rewrite Hsz. cbn [fst snd sizeof_sub_watch]. lia.
    + rewrite create_closure_elsewhere by done.
      assert (H1 : sub_watches W1 !! k = sub_watches W !! k).
      { subst W1. simpl. by rewrite lookup_insert_ne. }
      subst W2. destruct (gtk_expression_is_static e); cbn [negb]; [by left |].
      destruct (IH w (off + sizeof_GtkPropertyExpressionWatch)%N this_
                  fn_gtk_property_expression_watch_expr_notify_cb (sub_pointer w off) W1 k)
        as [Heq | (Hw & rec & Hrec & Hlo & Hhi)].
      * left. by rewrite Heq.
      * right. split; [done |]. exists rec. split; [done |].
        unfold sizeof_GtkPropertyExpressionWatch, sizeof_gpointer in *. lia.
  - cbn [gtk_expression_subwatch_init]. rewrite closure_watch_size.
    set (W1 := set_sub_watches (<[(w, off) := ClosureSubWatch notify_ user_data_]>) W).
    assert (Hloop : ∀ W0 sub,
      let W' := (fix loop (ps : list GtkExpression) (sub : N) (W' : World) : World :=
           match ps with
           | [] => W'
           | p :: ps' =>
               if gtk_expression_is_static p then loop ps' sub W'
               else loop ps' (sub + gtk_expression_watch_size p)%N
                      (gtk_expression_subwatch_init p w sub this_
                         fn_gtk_closure_expression_watch_notify_cb (sub_pointer w off) W')
           end) params sub W0 in
      sub_watches W' !! k = sub_watches W0 !! k
      ∨ (k.1 = w
         ∧ ∃ rec, sub_watches W' !! k = Some rec
                  ∧ (sub ≤ k.2 ∧ k.2 + sizeof_sub_watch rec ≤ sub + params_watch_size params)%N)).
    { clear W1. induction IH as [| p ps Hp _ IHps]; intros W0 sub; cbn zeta; [by left |].
      cbn [params_watch_size].
      destruct (gtk_expression_is_static p).
      - destruct (IHps W0 sub) as [Heq | (Hw & rec & Hrec & Hlo & Hhi)]; [by left |].
        right. split; [done |]. exists rec. split; [done |]. lia.
      - destruct (IHps (gtk_expression_subwatch_init p w sub this_
                          fn_gtk_closure_expression_watch_notify_cb (sub_pointer w off) W0)
                       (sub + gtk_expression_watch_size p)%N)
          as [Heq | (Hw & rec & Hrec & Hlo & Hhi)].
        + destruct (Hp w sub this_ fn_gtk_closure_expression_watch_notify_cb
                      (sub_pointer w off) W0 k) as [Heq' | (Hw & rec & Hrec & Hlo & Hhi)].
          * left. by rewrite Heq.
          * right. split; [done |]. exists rec. split; [by rewrite Heq |]. lia.
        + right. split; [done |]. exists rec. split; [done |]. lia. }
    destruct (Hloop W1 (off + sizeof_GtkClosureExpressionWatch)%N)
      as [Heq | (Hw & rec & Hrec & Hlo & Hhi)].
    + destruct (decide (k = (w, off))) as [-> | Hk].
      * right. split; [done |]. exists (ClosureSubWatch notify_ user_data_).
        split; [rewrite Heq; subst W1; simpl; apply lookup_insert_eq |].
        cbn [fst snd sizeof_sub_watch]. lia.
      * left. rewrite Heq. subst W1. simpl. by rewrite lookup_insert_ne.
    + right. split; [done |]. exists rec. split; [done |].
      unfold sizeof_GtkClosureExpressionWatch, sizeof_gpointer in *. lia.
Qed.

(** X5. The buffer is large enough: every sub-watch record that
    gtk_expression_watch writes belongs to the new watch and lies, with
    all its bytes, in the gtk_expression_watch_size (self) bytes allocated
    after the header. *)
Theorem watch_records_fit_the_buffer self this_ notify_ user_data_ user_destroy_ W k :
  let r := gtk_expression_watch self this_ notify_ user_data_ user_destroy_ W in
  sub_watches r.2 !! k ≠ sub_watches W !! k →
  k.1 = fresh (dom (expression_watches W))
  ∧ ∃ rec, sub_watches r.2 !! k = Some rec
           ∧ (k.2 + sizeof_sub_watch rec ≤ gtk_expression_watch_size self)%N.
Proof.
  cbn zeta. unfold gtk_expression_watch.
  destruct (this_is_valid W this_); cbn [negb snd]; [| done].
  set (w := fresh (dom (expression_watches W))).
  set (W2 := match this_ with Some _ => _ | None => _ end).
  assert (H2 : sub_watches W2 = sub_watches W) by (subst W2; by destruct this_).
  intros Hne.
  destruct (subwatch_init_fits self w 0 this_ fn_gtk_expression_watch_cb (watch_pointer w) W2 k)
    as [Heq | (Hw & rec & Hrec & Hlo & Hhi)].
  - by rewrite Heq, H2 in Hne.
  - split; [done |]. exists rec. split; [done |]. lia.
Qed.

Lemma watch_records_fit_the_buffer_witness :
  (1%positive, 0%N).1 = fresh (dom (expression_watches scene))
  ∧ ∃ rec, sub_watches watched_width.2 !! (1%positive, 0%N) = Some rec
           ∧ ((1%positive, 0%N).2 + sizeof_sub_watch rec
              ≤ gtk_expression_watch_size this_width)%N.
Proof.
  apply (watch_records_fit_the_buffer this_width (Some foo) (user_notify 0) (user_pointer 0)
           None scene (1%positive, 0%N)).
  vm_compute. discriminate.
Defined.

(** ** Creating a watch and removing it again *)

(** X8. Round trip of a watch with the caller's own destroy function:
    after gtk_expression_watch and gtk_expression_watch_unwatch the
    objects, the listener lists of the object expressions, the binds and
    the counters of references and of live values are what they were; the
    box is left unwatched with no reference on it; and the destroy
    function was called, once. *)
Theorem watch_then_unwatch_restores self this_ notify_ user_data_ f W w :
  (gtk_expression_watch self this_ notify_ user_data_ (Some (user_destroy_notify f)) W).1
  = Some w →
  let W' := gtk_expression_watch_unwatch w
              (gtk_expression_watch self this_ notify_ user_data_
                 (Some (user_destroy_notify f)) W).2 in
  objects W' = objects W
  ∧ object_exprs W' = object_exprs W
  ∧ expression_bind_table W' = expression_bind_table W
  ∧ live_values W' = live_values W
  ∧ (∀ o, ref_counts W' o = ref_counts W o)
  ∧ expression_watches W'
    = <[w := mkWatch None this_ (Some (user_destroy_notify f)) notify_ user_data_ 0]>
        (expression_watches W)
  ∧ ∃ evs, Forall is_invoke evs
           ∧ trace W'
             = trace W
               ++ match this_ with
                  | Some t => [EvWeakRef t fn_gtk_expression_watch_this_cb (watch_pointer w)]
                  | None => []
                  end
               ++ evs
               ++ match this_ with
                  | Some t => [EvWeakUnref t fn_gtk_expression_watch_this_cb (watch_pointer w)]
                  | None => []
                  end
               ++ [EvDestroyNotify (user_destroy_notify f) user_data_].
Proof.
  intros Hw. cbn zeta.
  destruct (this_is_valid W this_) eqn:Hv;
    [| unfold gtk_expression_watch in Hw; by rewrite Hv in Hw].
  destruct (gtk_expression_watch_creates self this_ notify_ user_data_
              (Some (user_destroy_notify f)) W Hv) as (Hr1 & Hfresh & Hr3 & _).
  cbn zeta in Hr1, Hr3. rewrite Hr1 in Hw. injection Hw as <-.
  set (w := fresh (dom (expression_watches W))) in *.
  unfold gtk_expression_watch_unwatch. rewrite Hr3, lookup_insert_eq.
  cbn [expression this user_destroy user_data].
  unfold gtk_expression_watch. rewrite Hv. cbn [negb snd]. fold w.
  set (W2 := match this_ with
             | Some t => log (EvWeakRef t fn_gtk_expression_watch_this_cb (watch_pointer w))
                           (set_expression_watches
                              (<[w := mkWatch (Some self) this_ (Some (user_destroy_notify f))
                                        notify_ user_data_ 1]>) W)
             | None => set_expression_watches
                         (<[w := mkWatch (Some self) this_ (Some (user_destroy_notify f))
                                   notify_ user_data_ 1]>) W
             end).
  set (W3 := gtk_expression_subwatch_init self w 0 this_ fn_gtk_expression_watch_cb
               (watch_pointer w) W2).
  set (W4 := gtk_expression_subwatch_finish self w 0 W3).
  set (W5 := match this_ with
             | Some t => log (EvWeakUnref t fn_gtk_expression_watch_this_cb (watch_pointer w)) W4
             | None => W4
             end).
  assert (H2 : objects W2 = objects W ∧ object_exprs W2 = object_exprs W
               ∧ expression_bind_table W2 = expression_bind_table W
               ∧ live_values W2 = live_values W ∧ ref_counts W2 = ref_counts W
               ∧ expression_watches W2
                 = <[w := mkWatch (Some self) this_ (Some (user_destroy_notify f))
                            notify_ user_data_ 1]> (expression_watches W)
               ∧ trace W2 = trace W
                            ++ match this_ with
                               | Some t => [EvWeakRef t fn_gtk_expression_watch_this_cb
                                              (watch_pointer w)]
                               | None => []
                               end).
  { subst W2. destruct this_; simpl; by rewrite ?app_nil_r. }
  destruct H2 as (Ho2 & He2 & Hb2 & Hl2 & Hr2 & Hw2 & Ht2).
  destruct (subwatch_init_frame self w 0 this_ fn_gtk_expression_watch_cb (watch_pointer w) W2)
    as (Ho3 & Hw3 & Hb3 & Hl3 & Hr3' & evs3 & Ht3 & Hi3).
  destruct (subwatch_finish_frame self w 0 W3) as (Ho4 & Hw4 & Hb4 & Hl4 & Hr4 & evs4 & Ht4 & Hi4).
  fold W3 in Ho3, Hw3, Hb3, Hl3, Hr3', Ht3. fold W4 in Ho4, Hw4, Hb4, Hl4, Hr4, Ht4.
  assert (He4 : object_exprs W4 = object_exprs W).
  { subst W4 W3. rewrite subwatch_finish_object_exprs, subwatch_init_object_exprs, He2.
    apply unregister_register, object_slots_NoDup. }
  assert (H5 : objects W5 = objects W4 ∧ object_exprs W5 = object_exprs W4
               ∧ expression_bind_table W5 = expression_bind_table W4
               ∧ live_values W5 = live_values W4 ∧ ref_counts W5 = ref_counts W4
               ∧ expression_watches W5 = expression_watches W4
               ∧ trace W5 = trace W4
                            ++ match this_ with
                               | Some t => [EvWeakUnref t fn_gtk_expression_watch_this_cb
                                              (watch_pointer w)]
                               | None => []
                               end).
  { subst W5. destruct this_; simpl; by rewrite ?app_nil_r. }
  destruct H5 as (Ho5 & He5 & Hb5 & Hl5 & Hr5 & Hw5 & Ht5).
  clearbody W5 W4 W3 W2.
  unfold call_destroy, gtk_expression_watch_unref. simpl. split_and!.
  - by rewrite Ho5, <- Ho4, <- Ho3.
  - by rewrite He5.
  - by rewrite Hb5, <- Hb4, <- Hb3.
  - by rewrite Hl5, <- Hl4, <- Hl3.
  - intros o. by rewrite Hr5, <- Hr4, <- Hr3', Hr2.
  - rewrite Hw5, <- Hw4, <- Hw3, Hw2. apply map_eq. intros w'.
    destruct (decide (w' = w)) as [-> |].
    + by rewrite !lookup_alter_eq, !lookup_insert_eq.
    + by rewrite !lookup_alter_ne, !lookup_insert_ne.
  - exists (evs3 ++ evs4). split; [by apply Forall_app |].
    rewrite Ht5, Ht4, Ht3, Ht2. by rewrite <- !(assoc_L (++)).
Qed.

Lemma watch_then_unwatch_restores_witness :
  let W' := gtk_expression_watch_unwatch 1%positive
              (gtk_expression_watch this_width (Some foo) (user_notify 0) (user_pointer 0)
                 (Some (user_destroy_notify 0)) scene).2 in
  objects W' = objects scene
  ∧ object_exprs W' = object_exprs scene
  ∧ expression_bind_table W' = expression_bind_table scene
  ∧ live_values W' = live_values scene
  ∧ (∀ o, ref_counts W' o = ref_counts scene o)
  ∧ expression_watches W'
    = <[1%positive := mkWatch None (Some foo) (Some (user_destroy_notify 0)) (user_notify 0)
                        (user_pointer 0) 0]> (expression_watches scene)
  ∧ ∃ evs, Forall is_invoke evs
           ∧ trace W'
             = trace scene
               ++ [EvWeakRef foo fn_gtk_expression_watch_this_cb (watch_pointer 1%positive)]
               ++ evs
               ++ [EvWeakUnref foo fn_gtk_expression_watch_this_cb (watch_pointer 1%positive)]
               ++ [EvDestroyNotify (user_destroy_notify 0) (user_pointer 0)].
Proof.
  apply (watch_then_unwatch_restores this_width (Some foo) (user_notify 0) (user_pointer 0)
           0%nat scene 1%positive).
  reflexivity.
Defined.

(** ** Binds *)

Lemma invalidate_binds_table T W b :
  expression_bind_table (invalidate_binds T W) !! b
  = (λ bind_, if bool_decide (b ∈ get_expression_binds W T)
              then mkBind (bind_watch bind_) None (bind_pspec bind_) else bind_)
      <$> expression_bind_table W !! b.
Proof.
  unfold invalidate_binds. generalize (get_expression_binds W T). intros l.
  induction l as [| a l IH] using rev_ind.
  - simpl. by destruct (_ !! b).
  - rewrite foldl_app. simpl.
    destruct (decide (b = a)) as [-> | Hne].
    + rewrite lookup_alter_eq, IH.
      rewrite (bool_decide_eq_true_2 (a ∈ l ++ [a])) by (apply elem_of_app; right; constructor).
      destruct (expression_bind_table W !! a) as [bind_ |]; [| done]. simpl.
      by destruct (bool_decide _).
    + rewrite lookup_alter_ne by done. rewrite IH.
      destruct (expression_bind_table W !! b) as [bind_ |]; [| done]. simpl.
      rewrite (bool_decide_ext (b ∈ l ++ [a]) (b ∈ l)); [done |].
      rewrite elem_of_app, list_elem_of_singleton. split; [by intros [? | ?] | by left].
Qed.

Lemma invalidate_binds_frame T W :
  objects (invalidate_binds T W) = objects W
  ∧ object_exprs (invalidate_binds T W) = object_exprs W
  ∧ expression_watches (invalidate_binds T W) = expression_watches W
  ∧ sub_watches (invalidate_binds T W) = sub_watches W
  ∧ live_values (invalidate_binds T W) = live_values W
  ∧ ref_counts (invalidate_binds T W) = ref_counts W
  ∧ trace (invalidate_binds T W) = trace W.
Proof.
  unfold invalidate_binds. generalize (get_expression_binds W T). intros l.
  induction l as [| a l IH] using rev_ind; [done |].
  rewrite foldl_app. simpl. exact IH.
Qed.

(** X9. Once invalidate_binds has run for a target, a notification of any
    of the target's binds changes nothing: no expression is evaluated and
    no property is written on an instance that is being disposed. *)
Theorem invalidated_bind_is_inert T W b :
  b ∈ get_expression_binds W T →
  gtk_expression_bind_notify b (invalidate_binds T W) = invalidate_binds T W.
Proof.
  intros Hb. unfold gtk_expression_bind_notify.
  rewrite invalidate_binds_table, bool_decide_eq_true_2 by done.
  by destruct (expression_bind_table W !! b).
Qed.

Lemma invalidated_bind_is_inert_witness :
  gtk_expression_bind_notify 1%positive (invalidate_binds bar bound_scene)
  = invalidate_binds bar bound_scene.
Proof.
  apply (invalidated_bind_is_inert bar bound_scene 1%positive).
  vm_compute. apply list_elem_of_here.
Defined.

Lemma bind_slot_kept_refl m b : bind_slot_kept m m b.
Proof. split; [done |]. intros bind_ Hb Hnone. exists bind_. by repeat split; [| | right]. Qed.

Lemma bind_free_table b0 W b :
  bind_slot_kept (expression_bind_table W)
    (expression_bind_table (gtk_expression_bind_free b0 W)) b.
Proof.
  unfold gtk_expression_bind_free.
  destruct (expression_bind_table W !! b0) as [[bw [t |] ps] |] eqn:Hb0;
    cbn [bind_target bind_pspec]; [| | apply bind_slot_kept_refl].
  - assert (Ht : ∀ W2 : World, expression_bind_table W2 = expression_bind_table W →
                 expression_bind_table (set_expression_bind_table (delete b0) W2) !! b
                 = if decide (b = b0) then None else expression_bind_table W !! b).
    { intros W2 H2. simpl. rewrite H2. case_decide as Hd.
      - subst. apply lookup_delete_eq.
      - by rewrite lookup_delete_ne. }
    split.
    + intros Hb. rewrite Ht; [by case_decide | by destruct (g_slist_remove _ b0)].
    + intros bind_ Hb Hnone. rewrite Ht by by destruct (g_slist_remove _ b0).
      case_decide as Hd; [subst; rewrite Hb0 in Hb; by injection Hb as <- |].
      exists bind_. by repeat split; [| | right].
  - split.
    + intros Hb. simpl. rewrite lookup_insert_ne; [done | congruence].
    + intros bind_ Hb Hnone. simpl. destruct (decide (b = b0)) as [-> | Hne].
      * rewrite lookup_insert_eq. eexists. split; [done |]. split; [done | by left].
      * rewrite lookup_insert_ne by done. exists bind_. by repeat split; [| | right].
Qed.

Lemma unwatch_table w W b :
  bind_slot_kept (expression_bind_table W)
    (expression_bind_table (gtk_expression_watch_unwatch w W)) b.
Proof.
  unfold gtk_expression_watch_unwatch.
  destruct (expression_watches W !! w) as [[[e |] t d n ud rc] |]; cbn [expression];
    try apply bind_slot_kept_refl.
  cbn [this user_destroy user_data].
  destruct (subwatch_finish_frame e w 0 W) as (_ & _ & Hb1 & _).
  set (W1 := gtk_expression_subwatch_finish e w 0 W) in *.
  set (W2 := match t with
             | Some t' => log (EvWeakUnref t' fn_gtk_expression_watch_this_cb (watch_pointer w)) W1
             | None => W1
             end).
  assert (Hb2 : expression_bind_table W2 = expression_bind_table W).
  { subst W2. rewrite Hb1. by destruct t. }
  clearbody W2. simpl. rewrite <- Hb2.
  destruct d as [[f |] |]; try apply bind_slot_kept_refl.
  unfold call_destroy. destruct ud; try apply bind_slot_kept_refl.
  apply (bind_free_table _ (log _ W2)).
Qed.

Lemma free_binds_frees l :
  ∀ W, NoDup l →
    (∀ b, b ∈ l → ∃ bind_, expression_bind_table W !! b = Some bind_ ∧ bind_target bind_ = None) →
    ∃ W', free_binds l W = Some W'
          ∧ (∀ b, expression_bind_table W !! b = None ∨ b ∈ l →
                  expression_bind_table W' !! b = None)
          ∧ same_pointers W W'.
Proof.
  induction l as [| b l IH]; intros W Hnd Hall.
  - exists W. split; [done |]. split; [| by split].
    intros b [Hb | Hb]; [done | by apply elem_of_nil in Hb].
  - apply NoDup_cons in Hnd as [Hnot Hnd].
    destruct (Hall b) as (bind_ & Hb & Hnone); [constructor |].
    cbn [free_binds]. rewrite Hb, Hnone.
    set (W1 := match bind_watch bind_ with
               | Some w => gtk_expression_watch_unwatch w W
               | None => W
               end).
    assert (H1 : (∀ b', bind_slot_kept (expression_bind_table W) (expression_bind_table W1) b')
                 ∧ same_pointers W W1).
    { subst W1. destruct (bind_watch bind_) as [w |].
      - split; [intros b'; apply unwatch_table | apply unwatch_same_pointers].
      - split; [intros b'; apply bind_slot_kept_refl | by split]. }
    destruct H1 as [Hkept [Ho1 He1]]. clearbody W1.
    destruct (IH (set_expression_bind_table (delete b) W1) Hnd) as (W' & HW' & Hfreed & Ho' & He').
    { intros b' Hb'. destruct (Hall b') as (bind' & Hl' & Hn'); [by constructor |].
      destruct (Hkept b') as [_ Hk]. destruct (Hk bind' Hl' Hn') as (bind'' & Hl'' & Hn'' & _).
      exists bind''. split; [| done]. simpl. rewrite lookup_delete_ne; [done |].
      intros <-. done. }
    exists W'. split; [done |]. split; [| split].
    + intros b' Hb'. apply Hfreed. simpl.
      destruct (decide (b' = b)) as [-> | Hne]; [left; apply lookup_delete_eq |].
      rewrite lookup_delete_ne by done.
      destruct Hb' as [Hb' | Hb'].
      * left. by apply (Hkept b').
      * apply elem_of_cons in Hb' as [-> | Hb']; [done | by right].
    + intros o. rewrite Ho1. apply Ho'.
    + intros x. rewrite He1. apply He'.
Qed.

(** X10. When a target is destroyed, invalidate_binds followed by
    free_binds on its list of binds runs to the end: the assertion that
    a bind has lost its target holds for each of them, every bind of the
    list is freed, once, and no instance has a property written. *)
Theorem free_binds_after_invalidate T obj W :
  objects W !! T = Some obj →
  NoDup (expression_binds obj) →
  (∀ b, b ∈ expression_binds obj → is_Some (expression_bind_table W !! b)) →
  ∃ W', free_binds (expression_binds obj) (invalidate_binds T W) = Some W'
        ∧ (∀ b, b ∈ expression_binds obj → expression_bind_table W' !! b = None)
        ∧ ∀ o, (instance_view <$> objects W' !! o) = (instance_view <$> objects W !! o).
Proof.
  intros HT Hnd Hall.
  assert (Hl : get_expression_binds W T = expression_binds obj).
  { unfold get_expression_binds. by rewrite HT. }
  destruct (free_binds_frees (expression_binds obj) (invalidate_binds T W) Hnd)
    as (W' & HW' & Hfreed & Ho & _).
  - intros b Hb. rewrite invalidate_binds_table, Hl, bool_decide_eq_true_2 by done.
    destruct (Hall b Hb) as [bind_ ->]. by eexists.
  - exists W'. split; [done |]. split.
    + intros b Hb. apply Hfreed. by right.
    + intros o. rewrite <- Ho. by destruct (invalidate_binds_frame T W) as (-> & _).
Qed.

Lemma free_binds_after_invalidate_witness :
  ∃ W', free_binds (expression_binds
                      (mkGObject ["Bar"; "GObject"] {["label" := label_pspec]}
                         {["label" := V_int 42]} [1%positive]))
          (invalidate_binds bar bound_scene) = Some W'
        ∧ (∀ b, b ∈ expression_binds
                      (mkGObject ["Bar"; "GObject"] {["label" := label_pspec]}
                         {["label" := V_int 42]} [1%positive]) →
                expression_bind_table W' !! b = None)
        ∧ ∀ o, (instance_view <$> objects W' !! o)
               = (instance_view <$> objects bound_scene !! o).
Proof.
  apply (free_binds_after_invalidate bar
           (mkGObject ["Bar"; "GObject"] {["label" := label_pspec]}
              {["label" := V_int 42]} [1%positive]) bound_scene).
  - reflexivity.
  - simpl. apply NoDup_singleton.
  - simpl. intros b Hb. apply list_elem_of_singleton in Hb as ->. vm_compute. by eexists.
Defined.

(** ** The bind lists and the table of binds *)

Lemma g_slist_remove_elem {A} `{EqDecision A} (l : list A) (x y : A) :
  y ∈ g_slist_remove l x → y ∈ l.
Proof.
  induction l as [| a l IH]; simpl; [done |].
  case_decide; intros Hy; [by right |].
  apply elem_of_cons in Hy as [-> | Hy]; [by left | right; by apply IH].
Qed.

Lemma g_slist_remove_NoDup {A} `{EqDecision A} (l : list A) (x : A) :
  NoDup l → NoDup (g_slist_remove l x) ∧ x ∉ g_slist_remove l x.
Proof.
  induction l as [| a l IH]; simpl; intros Hnd.
  - split; [constructor | apply not_elem_of_nil].
  - apply NoDup_cons in Hnd as [Hnot Hnd]. case_decide as Hd.
    + subst. by split.
    + destruct (IH Hnd) as [Hnd' Hx]. split.
      * apply NoDup_cons. split; [| done]. intros Ha. apply Hnot.
        by apply g_slist_remove_elem in Ha.
      * apply not_elem_of_cons. split; [congruence | done].
Qed.

Lemma bind_free_objects b W :
  objects (gtk_expression_bind_free b W)
  = match expression_bind_table W !! b ≫= bind_target with
    | Some target =>
        alter (λ obj, mkGObject (g_class obj) (class_properties obj) (properties obj)
                        (g_slist_remove (expression_binds obj) b)) target (objects W)
    | None => objects W
    end
  ∧ expression_bind_table (gtk_expression_bind_free b W)
    = match expression_bind_table W !! b with
      | Some bind_ =>
          match bind_target bind_ with
          | Some _ => delete b (expression_bind_table W)
          | None => <[b := mkBind None None (bind_pspec bind_)]> (expression_bind_table W)
          end
      | None => expression_bind_table W
      end.
Proof.
  unfold gtk_expression_bind_free.
  destruct (expression_bind_table W !! b) as [[bw [t |] ps] |]; cbn [bind_target mbind option_bind];
    try done.
  unfold get_expression_binds.
  assert (Ho : objects (set_expression_binds t
                          (g_slist_remove (default [] (expression_binds <$> objects W !! t)) b) W)
               = alter (λ obj, mkGObject (g_class obj) (class_properties obj) (properties obj)
                                 (g_slist_remove (expression_binds obj) b)) t (objects W)).
  { simpl. apply map_eq. intros o. destruct (decide (o = t)) as [-> |].
    - rewrite !lookup_alter_eq. by destruct (objects W !! t).
    - by rewrite !lookup_alter_ne. }
  destruct (g_slist_remove _ b); split; try exact Ho; done.
Qed.

Lemma bind_free_consistent b0 W :
  binds_consistent W → binds_consistent (gtk_expression_bind_free b0 W).
Proof.
  intros Hc T obj' Hlook.
  destruct (bind_free_objects b0 W) as [Ho Ht]. rewrite Ho in Hlook. rewrite Ht. clear Ho Ht.
  destruct (expression_bind_table W !! b0) as [[bw [t |] ps] |] eqn:Hb0;
    cbn [bind_target bind_pspec mbind option_bind] in *.
  - destruct (decide (T = t)) as [-> | Hne].
    + rewrite lookup_alter_eq in Hlook.
      destruct (objects W !! t) as [obj |] eqn:Hobj; [| done].
      injection Hlook as <-. cbn [expression_binds].
      destruct (Hc t obj Hobj) as [Hnd Hall].
      destruct (g_slist_remove_NoDup (expression_binds obj) b0 Hnd) as [Hnd' Hnot].
      split; [done |]. intros b Hb.
      destruct (Hall b) as (bind_ & Hl & Htg); [by apply g_slist_remove_elem in Hb |].
      exists bind_. split; [| done]. rewrite lookup_delete_ne; [done |]. by intros <-.
    + rewrite lookup_alter_ne in Hlook by done.
      destruct (Hc T obj' Hlook) as [Hnd Hall]. split; [done |]. intros b Hb.
      destruct (Hall b Hb) as (bind_ & Hl & Htg). exists bind_. split; [| done].
      rewrite lookup_delete_ne; [done |]. intros <-. rewrite Hb0 in Hl.
      injection Hl as <-. cbn in Htg. congruence.
  - destruct (Hc T obj' Hlook) as [Hnd Hall]. split; [done |]. intros b Hb.
    destruct (Hall b Hb) as (bind_ & Hl & Htg). exists bind_. split; [| done].
    rewrite lookup_insert_ne; [done |]. intros <-. rewrite Hb0 in Hl.
    injection Hl as <-. by cbn in Htg.
  - by apply Hc.
Qed.

Lemma unwatch_consistent w W :
  binds_consistent W → binds_consistent (gtk_expression_watch_unwatch w W).
Proof.
  intros Hc. unfold gtk_expression_watch_unwatch.
  destruct (expression_watches W !! w) as [[[e |] t d n ud rc] |]; cbn [expression]; try done.
  cbn [this user_destroy user_data].
  destruct (subwatch_finish_frame e w 0 W) as (Ho1 & _ & Hb1 & _).
  set (W1 := gtk_expression_subwatch_finish e w 0 W) in *.
  set (W2 := match t with
             | Some t' => log (EvWeakUnref t' fn_gtk_expression_watch_this_cb (watch_pointer w)) W1
             | None => W1
             end).
  assert (H2 : objects W2 = objects W ∧ expression_bind_table W2 = expression_bind_table W).
  { subst W2. rewrite Ho1, Hb1. by destruct t. }
  assert (Hc2 : binds_consistent W2).
  { destruct H2 as [Ho2 Hb2]. unfold binds_consistent. by rewrite Ho2, Hb2. }
  clearbody W2.
  assert (Hc3 : binds_consistent match d with
                                 | Some d' => call_destroy d' ud W2
                                 | None => W2
                                 end).
  { destruct d as [[f |] |]; try done. unfold call_destroy.
    destruct ud; try done. by apply (bind_free_consistent _ (log _ W2)). }
  exact Hc3.
Qed.

Lemma watch_objects_table self this_ notify_ user_data_ user_destroy_ W :
  let r := gtk_expression_watch self this_ notify_ user_data_ user_destroy_ W in
  objects r.2 = objects W
  ∧ expression_bind_table r.2 = expression_bind_table W
  ∧ r.1 = (if this_is_valid W this_ then Some (fresh (dom (expression_watches W))) else None).
Proof.
  cbn zeta. destruct (this_is_valid W this_) eqn:Hv.
  - by destruct (gtk_expression_watch_creates self this_ notify_ user_data_ user_destroy_ W Hv)
      as (-> & _ & _ & -> & ->).
  - unfold gtk_expression_watch. by rewrite Hv.
Qed.

Lemma bind_notify_objects b W T obj' :
  objects (gtk_expression_bind_notify b W) !! T = Some obj' →
  ∃ obj, objects W !! T = Some obj ∧ expression_binds obj' = expression_binds obj.
Proof.
  unfold gtk_expression_bind_notify.
  destruct (expression_bind_table W !! b) as [[bw [t |] ps] |]; cbn [bind_target bind_watch bind_pspec];
    try (intros H; by exists obj').
  destruct (watch_evaluate_spec bw W) as ((Ho & _) & _).
  destruct (gtk_expression_watch_evaluate bw W) as [[ok v] W1]. cbn [fst snd] in *.
  destruct ok; cbn [negb]; [| rewrite <- Ho; intros H; by exists obj'].
  destruct (g_value_unset_spec v (g_object_set_property t (name ps) v W1)) as ((<- & _) & _).
  unfold g_object_set_property. destruct v as [| d]; [rewrite <- Ho; intros H; by exists obj' |].
  simpl. rewrite <- Ho. destruct (decide (T = t)) as [-> | Hne].
  - rewrite lookup_alter_eq. destruct (objects W !! t) as [obj |]; [| done].
    intros [= <-]. by exists obj.
  - rewrite lookup_alter_ne by done. intros H. by exists obj'.
Qed.

(** The stores a successful gtk_expression_bind hands to the first
    notification of the bind. *)
Lemma bind_stores self target property this_ obj pspec W :
  objects W !! target = Some obj →
  class_properties obj !! property = Some pspec →
  is_writable pspec = true →
  let b := fresh (dom (expression_bind_table W)) in
  let r := gtk_expression_bind self target property this_ W in
  ∃ W3 W5,
    r.2 = gtk_expression_bind_notify b W5
    ∧ r.1 = (gtk_expression_watch self this_ fn_gtk_expression_bind_notify (bind_pointer b)
               (Some fn_gtk_expression_bind_free) W3).1
    ∧ r.1 = (if this_is_valid W this_
             then Some (fresh (dom (expression_watches W))) else None)
    ∧ expression_bind_table W5
      = <[b := mkBind r.1 (Some target) pspec]> (expression_bind_table W)
    ∧ objects W5
      = <[target := mkGObject (g_class obj) (class_properties obj) (properties obj)
                      (b :: expression_binds obj)]> (objects W)
    ∧ (this_is_valid W this_ = true →
       expression_watches W5
       = <[fresh (dom (expression_watches W))
           := mkWatch (Some self) this_ (Some fn_gtk_expression_bind_free)
                fn_gtk_expression_bind_notify (bind_pointer b) 1]> (expression_watches W)
       ∧ object_exprs W5
         = register_slots (fresh (dom (expression_watches W))) (object_slots self 0)
             (object_exprs W)).
Proof.
  intros Hobj Hps Hwr. cbn zeta.
  unfold gtk_expression_bind. rewrite Hobj, Hps, Hwr. cbn [negb].
  set (b := fresh (dom (expression_bind_table W))).
  assert (Hbinds : get_expression_binds W target = expression_binds obj).
  { unfold get_expression_binds. by rewrite Hobj. }
  rewrite Hbinds.
  set (W2 := match expression_binds obj with
             | [] => log (EvWeakRef target fn_invalidate_binds NULL)
                       (set_expression_binds target [] W)
             | _ :: _ => set_expression_binds target [] W
             end).
  set (W3 := set_expression_bind_table (<[b := mkBind None (Some target) pspec]>) W2).
  assert (H3 : objects W3 = objects (set_expression_binds target [] W)
               ∧ expression_bind_table W3
                 = <[b := mkBind None (Some target) pspec]> (expression_bind_table W)
               ∧ expression_watches W3 = expression_watches W
               ∧ object_exprs W3 = object_exprs W).
  { subst W3 W2. by destruct (expression_binds obj). }
  destruct H3 as (Ho3 & Hb3 & Hw3 & He3).
  assert (Hv3 : this_is_valid W3 this_ = this_is_valid W this_).
  { rewrite <- (set_expression_binds_valid target [] W this_).
    destruct this_ as [t |]; [| done]. unfold this_is_valid, G_IS_OBJECT. by rewrite Ho3. }
  destruct (watch_objects_table self this_ fn_gtk_expression_bind_notify (bind_pointer b)
              (Some fn_gtk_expression_bind_free) W3) as (Hro & Hrb & Hr1).
  rewrite Hv3, Hw3 in Hr1.
  set (r := gtk_expression_watch self this_ fn_gtk_expression_bind_notify
              (bind_pointer b) (Some fn_gtk_expression_bind_free) W3) in *.
  set (W4 := set_expression_bind_table (<[b := mkBind r.1 (Some target) pspec]>) r.2).
  set (W5 := set_expression_binds target (b :: expression_binds obj) W4).
  assert (Hb5 : expression_bind_table W5
                = <[b := mkBind r.1 (Some target) pspec]> (expression_bind_table W)).
  { subst W5 W4. simpl. by rewrite Hrb, Hb3, insert_insert_eq. }
  assert (Hret : (expression_bind_table (gtk_expression_bind_notify b W5) !! b ≫= bind_watch)
                 = r.1).
  { destruct (bind_notify_spec b W5) as (_ & _ & _ & -> & _).
    by rewrite Hb5, lookup_insert_eq. }
  exists W3, W5. cbn [fst snd]. rewrite Hret. split_and!; try done.
  - subst W5 W4. simpl. rewrite Hro, Ho3. simpl.
    apply map_eq. intros o. destruct (decide (o = target)) as [-> | Hne].
    + by rewrite !lookup_alter_eq, lookup_insert_eq, Hobj.
    + by rewrite !lookup_alter_ne, lookup_insert_ne.
  - intros Hv. rewrite <- Hv3 in Hv.
    destruct (gtk_expression_watch_creates self this_ fn_gtk_expression_bind_notify
                (bind_pointer b) (Some fn_gtk_expression_bind_free) W3 Hv)
      as (_ & _ & Hrw & _).
    cbn zeta in Hrw. fold r in Hrw. rewrite Hw3 in Hrw.
    pose proof (gtk_expression_watch_object_exprs self this_ fn_gtk_expression_bind_notify
                  (bind_pointer b) (Some fn_gtk_expression_bind_free) W3 Hv) as Hre.
    fold r in Hre. rewrite Hw3, He3 in Hre.
    subst W5 W4. simpl. by rewrite Hrw, Hre.
Qed.

Lemma bind_consistent self target property this_ W :
  binds_consistent W →
  binds_consistent (gtk_expression_bind self target property this_ W).2.
Proof.
  intros Hc.
  destruct (objects W !! target) as [obj |] eqn:Hobj;
    [| unfold gtk_expression_bind; by rewrite Hobj].
  destruct (class_properties obj !! property) as [pspec |] eqn:Hps;
    [| unfold gtk_expression_bind; by rewrite Hobj, Hps].
  destruct (is_writable pspec) eqn:Hwr;
    [| unfold gtk_expression_bind; by rewrite Hobj, Hps, Hwr].
  destruct (bind_stores self target property this_ obj pspec W Hobj Hps Hwr)
    as (W3 & W5 & -> & _ & _ & Hb5 & Ho5 & _).
  set (b := fresh (dom (expression_bind_table W))) in *.
  assert (Hfresh : expression_bind_table W !! b = None) by apply not_elem_of_dom, is_fresh.
  intros T obj' Hlook.
  destruct (bind_notify_spec b W5) as (_ & _ & _ & -> & _).
  apply bind_notify_objects in Hlook as (obj5 & Hlook & ->).
  rewrite Ho5 in Hlook. rewrite Hb5.
  destruct (Hc target obj Hobj) as [Hnd Hall].
  destruct (decide (T = target)) as [-> | Hne].
  - rewrite lookup_insert_eq in Hlook. injection Hlook as <-. cbn [expression_binds].
    assert (Hnot : b ∉ expression_binds obj).
    { intros Hin. destruct (Hall b Hin) as (bind_ & Hl & _). by rewrite Hfresh in Hl. }
    split; [by apply NoDup_cons |].
    intros b' Hb'. apply elem_of_cons in Hb' as [-> | Hb'].
    + rewrite lookup_insert_eq. by eexists.
    + rewrite lookup_insert_ne by (by intros <-). by apply Hall.
  - rewrite lookup_insert_ne in Hlook by done.
    destruct (Hc T obj5 Hlook) as [Hnd' Hall']. split; [done |].
    intros b' Hb'. destruct (Hall' b' Hb') as (bind_ & Hl & Htg).
    exists bind_. split; [| done]. rewrite lookup_insert_ne; [done |].
    intros <-. by rewrite Hfresh in Hl.
Qed.

Lemma bind_notify_binds b W o :
  (expression_binds <$> objects (gtk_expression_bind_notify b W) !! o)
  = (expression_binds <$> objects W !! o).
Proof.
  unfold gtk_expression_bind_notify.
  destruct (expression_bind_table W !! b) as [[bw [t |] ps] |]; cbn [bind_target bind_watch bind_pspec];
    try done.
  destruct (watch_evaluate_spec bw W) as ((Ho & _) & _).
  destruct (gtk_expression_watch_evaluate bw W) as [[ok v] W1]. cbn [fst snd] in *.
  destruct ok; cbn [negb]; [| by rewrite <- Ho].
  destruct (g_value_unset_spec v (g_object_set_property t (name ps) v W1)) as ((<- & _) & _).
  unfold g_object_set_property. destruct v as [| d]; [by rewrite <- Ho |].
  simpl. rewrite <- Ho. destruct (decide (o = t)) as [-> | Hne].
  - rewrite lookup_alter_eq. by destruct (objects W !! t).
  - by rewrite lookup_alter_ne.
Qed.

Lemma scene_consistent : binds_consistent scene.
Proof.
  intros T obj Hlook. unfold scene in Hlook. cbn [objects] in Hlook.
  apply lookup_insert_Some in Hlook as [[_ <-] | [_ Hlook]].
  - split; [constructor |]. intros b Hb. by apply elem_of_nil in Hb.
  - apply lookup_singleton_Some in Hlook as [_ <-].
    split; [constructor |]. intros b Hb. by apply elem_of_nil in Hb.
Qed.

Lemma bound_scene_consistent : binds_consistent bound_scene.
Proof. apply bind_consistent, scene_consistent. Qed.

(** X11. The bind lists and the table of binds stay in step: if every
    list names each of its binds once and names only allocated binds that
    point back to the instance, the same holds after gtk_expression_bind,
    whether it succeeds or refuses, and after removing any watch. *)
Theorem binds_stay_consistent self target property this_ w W :
  binds_consistent W →
  binds_consistent (gtk_expression_bind self target property this_ W).2
  ∧ binds_consistent (gtk_expression_watch_unwatch w W).
Proof.
  intros Hc. split; [by apply bind_consistent | by apply unwatch_consistent].
Qed.

Lemma binds_stay_consistent_witness :
  binds_consistent (gtk_expression_bind this_width bar "label" (Some foo) bound_scene).2
  ∧ binds_consistent (gtk_expression_watch_unwatch 1%positive bound_scene).
Proof.
  apply (binds_stay_consistent this_width bar "label" (Some foo) 1%positive bound_scene).
  exact bound_scene_consistent.
Defined.

(** X12. Round trip of a bind: removing the watch gtk_expression_bind
    returned frees the bind, takes it off the list of the target and gives
    the object expressions their listener lists back, so that the table of
    binds, every bind list and every listener list are what they were
    before the bind. *)
Theorem bind_then_unwatch_restores self target property this_ W w :
  (gtk_expression_bind self target property this_ W).1 = Some w →
  let W' := gtk_expression_watch_unwatch w
              (gtk_expression_bind self target property this_ W).2 in
  expression_bind_table W' = expression_bind_table W
  ∧ (∀ o, (expression_binds <$> objects W' !! o) = (expression_binds <$> objects W !! o))
  ∧ object_exprs W' = object_exprs W
  ∧ (expression <$> expression_watches W' !! w) = Some None.
Proof.
  intros Hret. cbn zeta.
  destruct (objects W !! target) as [obj |] eqn:Hobj;
    [| unfold gtk_expression_bind in Hret; by rewrite Hobj in Hret].
  destruct (class_properties obj !! property) as [pspec |] eqn:Hps;
    [| unfold gtk_expression_bind in Hret; by rewrite Hobj, Hps in Hret].
  destruct (is_writable pspec) eqn:Hwr;
    [| unfold gtk_expression_bind in Hret; by rewrite Hobj, Hps, Hwr in Hret].
  destruct (bind_stores self target property this_ obj pspec W Hobj Hps Hwr)
    as (W3 & W5 & HW6 & _ & Hr1 & Hb5 & Ho5 & Hvalid).
  rewrite Hret in Hr1, Hb5.
  destruct (this_is_valid W this_); [| done]. injection Hr1 as ->.
  destruct (Hvalid eq_refl) as [Hw5 He5]. clear Hvalid Hret.
  rewrite HW6. clear HW6.
  set (b := fresh (dom (expression_bind_table W))) in *.
  set (w := fresh (dom (expression_watches W))) in *.
  assert (Hfresh : expression_bind_table W !! b = None) by apply not_elem_of_dom, is_fresh.
  destruct (bind_notify_spec b W5) as (He6 & Hw6 & _ & Hb6 & _).
  pose proof (bind_notify_binds b W5) as Ho6.
  set (W6 := gtk_expression_bind_notify b W5) in *. clearbody W6.
  unfold gtk_expression_watch_unwatch. rewrite Hw6, Hw5, lookup_insert_eq.
  cbn [expression this user_destroy user_data].
  destruct (subwatch_finish_frame self w 0 W6) as (Ho7 & Hw7 & Hb7 & _).
  assert (He7 : object_exprs (gtk_expression_subwatch_finish self w 0 W6) = object_exprs W).
  { rewrite subwatch_finish_object_exprs, He6, He5.
    apply unregister_register, object_slots_NoDup. }
  set (W7 := gtk_expression_subwatch_finish self w 0 W6) in *.
  set (W8 := match this_ with
             | Some t => log (EvWeakUnref t fn_gtk_expression_watch_this_cb (watch_pointer w)) W7
             | None => W7
             end).
  assert (H8 : objects W8 = objects W7 ∧ object_exprs W8 = object_exprs W7
               ∧ expression_bind_table W8 = expression_bind_table W7
               ∧ expression_watches W8 = expression_watches W7).
  { subst W8. by destruct this_. }
  destruct H8 as (Ho8 & He8 & Hb8 & Hw8). clearbody W8 W7.
  unfold call_destroy.
  destruct (bind_free_objects b (log (EvDestroyNotify fn_gtk_expression_bind_free
                                        (bind_pointer b)) W8)) as [Ho9 Hb9].
  destruct (bind_free_spec b (log (EvDestroyNotify fn_gtk_expression_bind_free
                                     (bind_pointer b)) W8)) as (He9 & Hw9 & _).
  cbn zeta in He9, Hw9.
  set (W9 := gtk_expression_bind_free b _) in *.
  assert (Hl8 : expression_bind_table W8 !! b = Some (mkBind (Some w) (Some target) pspec)).
  { by rewrite Hb8, <- Hb7, Hb6, Hb5, lookup_insert_eq. }
  cbn [expression_bind_table objects log] in Ho9, Hb9.
  rewrite Hl8 in Ho9, Hb9. cbn [mbind option_bind bind_target] in Ho9, Hb9.
  simpl. split_and!.
  - rewrite Hb9, Hb8, <- Hb7, Hb6, Hb5. by apply delete_insert_id.
  - intros o. rewrite Ho9, Ho8, <- Ho7.
    destruct (decide (o = target)) as [-> | Hne].
    + rewrite lookup_alter_eq. specialize (Ho6 target).
      rewrite Ho5, lookup_insert_eq in Ho6. cbn in Ho6. rewrite Hobj.
      destruct (objects W6 !! target) as [obj6 |]; [| done].
      injection Ho6 as Ho6. cbn. rewrite Ho6. cbn. by rewrite decide_True.
    + rewrite lookup_alter_ne by done. rewrite Ho6, Ho5. by rewrite lookup_insert_ne.
  - rewrite He9. simpl. by rewrite He8.
  - rewrite lookup_alter_eq, lookup_alter_eq, Hw9. simpl.
    by rewrite Hw8, <- Hw7, Hw6, Hw5, lookup_insert_eq.
Qed.

Lemma bind_then_unwatch_restores_witness :
  let W' := gtk_expression_watch_unwatch 1%positive
              (gtk_expression_bind this_width bar "label" (Some foo) scene).2 in
  expression_bind_table W' = expression_bind_table scene
  ∧ (∀ o, (expression_binds <$> objects W' !! o) = (expression_binds <$> objects scene !! o))
  ∧ object_exprs W' = object_exprs scene
  ∧ (expression <$> expression_watches W' !! 1%positive) = Some None.
Proof.
  apply (bind_then_unwatch_restores this_width bar "label" (Some foo) scene 1%positive).
  reflexivity.
Defined.

(** X14. The three outcomes of gtk_expression_bind.  It returns a watch
    exactly when the target is bindable and [this] is valid.  When the
    target is not bindable nothing is changed; at most a critical is
    logged.  When the target is bindable but [this] is not valid, NULL is
    returned although a bind without watch has been allocated and put on
    the list of the target. *)
Theorem bind_outcomes self target property this_ W :
  let r := gtk_expression_bind self target property this_ W in
  (is_Some r.1 ↔ bindable W target property ∧ this_is_valid W this_ = true)
  ∧ (¬ bindable W target property →
     same_stores W r.2 ∧ live_values r.2 = live_values W ∧ ref_counts r.2 = ref_counts W
     ∧ (trace r.2 = trace W ∨ ∃ msg, trace r.2 = trace W ++ [EvCritical msg]))
  ∧ (bindable W target property → this_is_valid W this_ = false →
     ∃ b bind_, expression_bind_table W !! b = None
                ∧ expression_bind_table r.2 !! b = Some bind_
                ∧ bind_watch bind_ = None
                ∧ bind_target bind_ = Some target
                ∧ b ∈ get_expression_binds r.2 target).
Proof.
  cbn zeta.
  destruct (objects W !! target) as [obj |] eqn:Hobj.
  2: { unfold gtk_expression_bind. rewrite Hobj. cbn [fst snd]. split_and!.
       - split; [by intros [? ?] |]. intros [(obj & ps & Ho & _) _]. by rewrite Hobj in Ho.
       - intros _. repeat split. by left.
       - intros (obj & ps & Ho & _). by rewrite Hobj in Ho. }
  destruct (class_properties obj !! property) as [pspec |] eqn:Hps.
  2: { unfold gtk_expression_bind. rewrite Hobj, Hps. cbn [fst snd]. split_and!.
       - split; [by intros [? ?] |]. intros [(obj' & ps & Ho & Hp & _) _].
         rewrite Hobj in Ho. injection Ho as <-. by rewrite Hps in Hp.
       - intros _. repeat split. right. by eexists.
       - intros (obj' & ps & Ho & Hp & _).
         rewrite Hobj in Ho. injection Ho as <-. by rewrite Hps in Hp. }
  destruct (is_writable pspec) eqn:Hwr.
  2: { unfold gtk_expression_bind. rewrite Hobj, Hps, Hwr. cbn [negb fst snd]. split_and!.
       - split; [by intros [? ?] |]. intros [(obj' & ps & Ho & Hp & Hw) _].
         rewrite Hobj in Ho. injection Ho as <-. rewrite Hps in Hp. injection Hp as <-.
         by rewrite Hwr in Hw.
       - intros _. repeat split. right. by eexists.
       - intros (obj' & ps & Ho & Hp & Hw).
         rewrite Hobj in Ho. injection Ho as <-. rewrite Hps in Hp. injection Hp as <-.
         by rewrite Hwr in Hw. }
  assert (Hbindable : bindable W target property) by by exists obj, pspec.
  destruct (bind_stores self target property this_ obj pspec W Hobj Hps Hwr)
    as (W3 & W5 & HW6 & _ & Hr1 & Hb5 & Ho5 & _).
  split_and!.
  - rewrite Hr1. destruct (this_is_valid W this_).
    + split; [done | by eexists].
    + split; [by intros [? ?] | by intros [_ ?]].
  - done.
  - intros _ Hv. rewrite Hv in Hr1. rewrite Hr1 in Hb5. rewrite HW6.
    exists (fresh (dom (expression_bind_table W))), (mkBind None (Some target) pspec).
    split_and!; try done.
    + apply not_elem_of_dom, is_fresh.
    + destruct (bind_notify_spec (fresh (dom (expression_bind_table W))) W5)
        as (_ & _ & _ & -> & _).
      by rewrite Hb5, lookup_insert_eq.
    + unfold get_expression_binds. rewrite bind_notify_binds, Ho5, lookup_insert_eq.
      cbn. constructor.
Qed.

Lemma bind_outcomes_witness :
  let r := gtk_expression_bind this_width bar "width" (Some foo) scene in
  same_stores scene r.2 ∧ live_values r.2 = live_values scene
  ∧ ref_counts r.2 = ref_counts scene
  ∧ (trace r.2 = trace scene ∨ ∃ msg, trace r.2 = trace scene ++ [EvCritical msg]).
Proof.
  apply (bind_outcomes this_width bar "width" (Some foo) scene).
  intros (obj & pspec & Ho & Hp & _). vm_compute in Ho. injection Ho as <-.
  vm_compute in Hp. discriminate.
Defined.

(** ** The calls a sub-watch relays *)

Lemma sub_header_fields rec :
  sub_notify (sub_header rec) = sub_notify rec
  ∧ sub_user_data (sub_header rec) = sub_user_data rec.
Proof. by destruct rec. Qed.

Lemma create_closure_headers w off W k :
  (sub_header <$> sub_watches (gtk_property_expression_watch_create_closure w off W) !! k)
  = (sub_header <$> sub_watches W !! k).
Proof.
  destruct (decide (k = (w, off))) as [-> | Hk]; [| by rewrite create_closure_elsewhere].
  unfold gtk_property_expression_watch_create_closure.
  destruct (sub_watches W !! (w, off)) as [[| n d ce ps t c |] |] eqn:Hl; rewrite ?Hl; try done.
  destruct (get_object_spec ce ps t W (λ e' _, evaluate_well e')) as ((_ & _ & _ & Hs & _) & _).
  destruct (gtk_property_expression_get_object _ _ _ _ W) as [[o |] W1]; simpl in *.
  - by rewrite lookup_insert_eq.
  - by rewrite <- Hs, Hl.
Qed.

Lemma destroy_closure_headers w off W k :
  (sub_header <$> sub_watches (gtk_property_expression_watch_destroy_closure w off W) !! k)
  = (sub_header <$> sub_watches W !! k).
Proof.
  destruct (decide (k = (w, off))) as [-> | Hk]; [| by rewrite destroy_closure_elsewhere].
  unfold gtk_property_expression_watch_destroy_closure.
  destruct (sub_watches W !! (w, off)) as [[| n d e ps t [c |] |] |] eqn:Hl; rewrite ?Hl; try done.
  simpl. by rewrite lookup_insert_eq.
Qed.

Lemma relays_to_mono W w lo hi lo' hi' n0 d0 n d :
  (lo' ≤ lo)%N → (hi ≤ hi')%N →
  relays_to W w lo hi n0 d0 n d → relays_to W w lo' hi' n0 d0 n d.
Proof.
  intros Hlo Hhi. induction 1 as [| off n d e ps t c Hr Hl _ IH | off n d Hr Hl _ IH].
  - constructor.
  - eapply relays_property; [lia | done | done].
  - eapply relays_closure; [lia | done | done].
Qed.

Lemma relays_to_headers W W' w lo hi n0 d0 n d :
  (∀ off, (lo ≤ off < hi)%N →
     (sub_header <$> sub_watches W' !! (w, off)) = (sub_header <$> sub_watches W !! (w, off))) →
  relays_to W w lo hi n0 d0 n d → relays_to W' w lo hi n0 d0 n d.
Proof.
  intros Hh. induction 1 as [| off n d e ps t c Hr Hl _ IH | off n d Hr Hl _ IH].
  - constructor.
  - specialize (Hh off Hr). rewrite Hl in Hh.
    destruct (sub_watches W' !! (w, off)) as [[| n' d' e' ps' t' c' |] |] eqn:Hl'; try done.
    simpl in Hh. injection Hh as -> -> -> -> ->. by eapply relays_property.
  - specialize (Hh off Hr). rewrite Hl in Hh.
    destruct (sub_watches W' !! (w, off)) as [[| n' d' e' ps' t' c' |] |] eqn:Hl'; try done.
    simpl in Hh. injection Hh as -> ->. by eapply relays_closure.
Qed.

Lemma relays_to_trans W w lo hi n0 d0 n1 d1 n d :
  relays_to W w lo hi n0 d0 n1 d1 →
  relays_to W w lo hi n1 d1 n d →
  relays_to W w lo hi n0 d0 n d.
Proof.
  intros H0. induction 1 as [| off n d e ps t c Hr Hl _ IH | off n d Hr Hl _ IH].
  - done.
  - by eapply relays_property.
  - by eapply relays_closure.
Qed.

Lemma create_closure_root w off W n d e ps t c :
  sub_watches W !! (w, off) = Some (PropertySubWatch n d e ps t c) →
  ∃ c', sub_watches (gtk_property_expression_watch_create_closure w off W) !! (w, off)
        = Some (PropertySubWatch n d e ps t c').
Proof.
  intros Hl. pose proof (create_closure_headers w off W (w, off)) as Hh. rewrite Hl in Hh.
  destruct (sub_watches (gtk_property_expression_watch_create_closure w off W) !! (w, off))
    as [[| n' d' e' ps' t' c' |] |]; try done.
  simpl in Hh. injection Hh as -> -> -> -> ->. by exists c'.
Qed.

Lemma destroy_closure_root w off W n d e ps t c :
  sub_watches W !! (w, off) = Some (PropertySubWatch n d e ps t c) →
  ∃ c', sub_watches (gtk_property_expression_watch_destroy_closure w off W) !! (w, off)
        = Some (PropertySubWatch n d e ps t c').
Proof.
  intros Hl. pose proof (destroy_closure_headers w off W (w, off)) as Hh. rewrite Hl in Hh.
  destruct (sub_watches (gtk_property_expression_watch_destroy_closure w off W) !! (w, off))
    as [[| n' d' e' ps' t' c' |] |]; try done.
  simpl in Hh. injection Hh as -> -> -> -> ->. by exists c'.
Qed.

(** Every record that installing sub-watches writes holds a notify from
    which the calls lead to the notify the sub-watches were installed
    with. *)
Lemma subwatch_init_relays e :
  ∀ w off this_ n0 d0 W k,
    let W' := gtk_expression_subwatch_init e w off this_ n0 d0 W in
    sub_watches W' !! k = sub_watches W !! k
    ∨ (k.1 = w ∧ (off ≤ k.2 < off + gtk_expression_watch_size e)%N
       ∧ ∃ rec, sub_watches W' !! k = Some rec
                ∧ relays_to W' w off (off + gtk_expression_watch_size e) n0 d0
                    (sub_notify rec) (sub_user_data rec)).
Proof.
  induction e as [value | x | pspec | e pspec IH | closure params IH]
    using GtkExpression_tree_ind; intros w off this_ n0 d0 W k; cbn zeta.
  - by left.
  - destruct (decide (k = (w, off))) as [-> | Hk].
    + right. split; [done |]. split.
      { cbn [fst snd gtk_expression_watch_size].
        unfold sizeof_GtkObjectExpressionWatch, sizeof_gpointer. lia. }
      eexists. split; [simpl; apply lookup_insert_eq |]. constructor.
    + left. simpl. by rewrite lookup_insert_ne.
  - cbn [gtk_expression_subwatch_init].
    destruct (decide (k = (w, off))) as [-> | Hk].
    + right. split; [done |]. split.
      { cbn [fst snd gtk_expression_watch_size].
        unfold sizeof_GtkPropertyExpressionWatch, sizeof_gpointer. lia. }
      destruct (create_closure_root w off
                  (set_sub_watches
                     (<[(w, off) := PropertySubWatch n0 d0 None pspec this_ None]>) W)
                  n0 d0 None pspec this_ None) as [c' Hc'].
      { simpl. apply lookup_insert_eq. }
      eexists. split; [exact Hc' |]. constructor.
    + left. rewrite create_closure_elsewhere by done. simpl. by rewrite lookup_insert_ne.
  - cbn [gtk_expression_subwatch_init].
    set (W1 := set_sub_watches
                 (<[(w, off) := PropertySubWatch n0 d0 (Some e) pspec this_ None]>) W).
    set (W2 := if negb (gtk_expression_is_static e) then _ else W1).
    rewrite property_watch_size.
    assert (H2 : sub_watches W2 !! (w, off)
                 = Some (PropertySubWatch n0 d0 (Some e) pspec this_ None)).
    { subst W2. destruct (gtk_expression_is_static e); cbn [negb].
      - subst W1. simpl. apply lookup_insert_eq.
      - rewrite subwatch_init_confined.
        + subst W1. simpl. apply lookup_insert_eq.
        + cbn [fst snd]. unfold sizeof_GtkPropertyExpressionWatch, sizeof_gpointer. lia. }
    destruct (create_closure_root w off W2 _ _ _ _ _ _ H2) as [c' Hc'].
    destruct (decide (k = (w, off))) as [-> | Hk].
    + right. split; [done |]. split.
      { cbn [fst snd]. unfold sizeof_GtkPropertyExpressionWatch, sizeof_gpointer. lia. }
      eexists. split; [exact Hc' |]. constructor.
    + rewrite create_closure_elsewhere by done.
      assert (H1 : sub_watches W1 !! k = sub_watches W !! k).
      { subst W1. simpl. by rewrite lookup_insert_ne. }
      revert H2 Hc'. subst W2.
      destruct (gtk_expression_is_static e); cbn [negb]; intros H2 Hc'; [by left |].
      destruct (IH w (off + sizeof_GtkPropertyExpressionWatch)%N this_
                  fn_gtk_property_expression_watch_expr_notify_cb (sub_pointer w off) W1 k)
        as [Heq | (Hw & Hr & rec & Hrec & Hrel)].
      * left. by rewrite Heq.
      * right. split; [done |]. split; [lia |]. exists rec. split; [done |].
        eapply relays_to_trans.
        -- eapply relays_property; [| exact Hc' | constructor].
           unfold sizeof_GtkPropertyExpressionWatch, sizeof_gpointer. lia.
        -- eapply relays_to_headers; [intros off' _; apply create_closure_headers |].
           eapply relays_to_mono; [| | exact Hrel]; lia.
  - cbn [gtk_expression_subwatch_init]. rewrite closure_watch_size.
    set (W1 := set_sub_watches (<[(w, off) := ClosureSubWatch n0 d0]>) W).
    assert (Hloop : ∀ hi W0 sub,
      (off < sub)%N → (sub + params_watch_size params ≤ hi)%N →
      sub_watches W0 !! (w, off) = Some (ClosureSubWatch n0 d0) →
      let W' := (fix loop (ps : list GtkExpression) (sub : N) (W' : World) : World :=
           match ps with
           | [] => W'
           | p :: ps' =>
               if gtk_expression_is_static p then loop ps' sub W'
               else loop ps' (sub + gtk_expression_watch_size p)%N
                      (gtk_expression_subwatch_init p w sub this_
                         fn_gtk_closure_expression_watch_notify_cb (sub_pointer w off) W')
           end) params sub W0 in
      ∀ k, sub_watches W' !! k = sub_watches W0 !! k
           ∨ (k.1 = w ∧ (sub ≤ k.2 < sub + params_watch_size params)%N
              ∧ ∃ rec, sub_watches W' !! k = Some rec
                       ∧ relays_to W' w off hi n0 d0 (sub_notify rec) (sub_user_data rec))).
    { clear W1 k. intros hi.
      induction IH as [| p ps Hp _ IHps]; intros W0 sub Hoff Hhi Hroot; cbn zeta;
        [by left |].
      cbn [params_watch_size] in Hhi |- *.
      destruct (gtk_expression_is_static p).
      - intros k. destruct (IHps W0 sub Hoff ltac:(lia) Hroot k)
          as [Heq | (Hw & Hr & rec & Hrec & Hrel)]; [by left |].
        right. split; [done |]. split; [lia |]. by exists rec.
      - set (Wp := gtk_expression_subwatch_init p w sub this_
                     fn_gtk_closure_expression_watch_notify_cb (sub_pointer w off) W0).
        assert (Hrootp : sub_watches Wp !! (w, off) = Some (ClosureSubWatch n0 d0)).
        { subst Wp. rewrite subwatch_init_confined; [done |]. cbn [fst snd]. lia. }
        pose proof (IHps Wp (sub + gtk_expression_watch_size p)%N ltac:(lia) ltac:(lia) Hrootp)
          as Hrest. cbn zeta in Hrest.
        intros k. destruct (Hrest k) as [Heq | (Hw & Hr & rec & Hrec & Hrel)].
        + destruct (Hp w sub this_ fn_gtk_closure_expression_watch_notify_cb
                      (sub_pointer w off) W0 k) as [Heq' | (Hw & Hr & rec & Hrec & Hrel)].
          * left. rewrite Heq. exact Heq'.
          * right. split; [done |]. split; [lia |]. exists rec.
            split; [rewrite Heq; exact Hrec |].
            eapply relays_to_trans.
            -- apply relays_closure with (off := off) (n := n0) (d := d0); [| | constructor].
               ++ lia.
               ++ destruct (Hrest (w, off)) as [-> | (_ & Hr' & _)]; [done |].
                  cbn [snd] in Hr'. lia.
            -- eapply relays_to_mono; [| | eapply relays_to_headers; [| exact Hrel]].
               ++ lia.
               ++ lia.
               ++ intros off' Hoff'.
                  destruct (Hrest (w, off')) as [-> | (_ & Hr' & _)]; [done |].
                  cbn [snd] in Hr'. lia.
        + right. split; [done |]. split; [lia |]. by exists rec. }
    assert (Hroot1 : sub_watches W1 !! (w, off) = Some (ClosureSubWatch n0 d0)).
    { subst W1. simpl. apply lookup_insert_eq. }
    pose proof (Hloop (off + (sizeof_GtkClosureExpressionWatch + params_watch_size params))%N
                  W1 (off + sizeof_GtkClosureExpressionWatch)%N) as Hl.
    cbn zeta in Hl.
    destruct (Hl ltac:(unfold sizeof_GtkClosureExpressionWatch, sizeof_gpointer; lia)
                 ltac:(lia) Hroot1 k) as [Heq | (Hw & Hr & rec & Hrec & Hrel)].
    + destruct (decide (k = (w, off))) as [-> | Hk].
      * right. split; [done |]. split.
        { cbn [fst snd]. unfold sizeof_GtkClosureExpressionWatch, sizeof_gpointer. lia. }
        exists (ClosureSubWatch n0 d0). split; [by rewrite Heq |]. constructor.
      * left. rewrite Heq. subst W1. simpl. by rewrite lookup_insert_ne.
    + right. split; [done |]. split; [lia |]. by exists rec.
Qed.

(** Following the relays: the calls from a notify of the chain arrive at
    the call of the notify at its end, after the signal connections on
    the way were renewed. *)
Lemma call_pointer_relays W w lo hi n0 d0 n d :
  relays_to W w lo hi n0 d0 n d →
  ∀ W1,
    (∀ off, (lo ≤ off < hi)%N →
       (sub_header <$> sub_watches W1 !! (w, off)) = (sub_header <$> sub_watches W !! (w, off))) →
    ∃ k Wm, watch_frame W1 Wm
            ∧ object_exprs Wm = object_exprs W1
            ∧ (∀ k', (sub_header <$> sub_watches Wm !! k') = (sub_header <$> sub_watches W1 !! k'))
            ∧ ∀ fuel, call_pointer (k + fuel) n d W1 = call_pointer fuel n0 d0 Wm.
Proof.
  induction 1 as [| off n d e ps t c Hr Hl _ IH | off n d Hr Hl _ IH]; intros W1 Hh.
  - exists 0%nat, W1. by repeat split.
  - set (W1' := gtk_property_expression_watch_create_closure w off
                  (gtk_property_expression_watch_destroy_closure w off W1)).
    assert (Hh' : ∀ k', (sub_header <$> sub_watches W1' !! k')
                        = (sub_header <$> sub_watches W1 !! k')).
    { intros k'. subst W1'. by rewrite create_closure_headers, destroy_closure_headers. }
    destruct (IH W1') as (k & Wm & Hf & Hoe & Hhm & Hcall).
    { intros off' Hoff'. rewrite Hh'. by apply Hh. }
    exists (S k), Wm. split_and!.
    + etrans; [| exact Hf]. subst W1'.
      etrans; [apply destroy_closure_frame | apply create_closure_frame].
    + rewrite Hoe. subst W1'.
      by rewrite create_closure_object_exprs, destroy_closure_object_exprs.
    + intros k'. by rewrite Hhm.
    + intros fuel. cbn [Nat.add call_pointer].
      unfold gtk_property_expression_watch_expr_notify_cb. cbn zeta. fold W1'.
      pose proof (Hh' (w, off)) as Hroot. rewrite (Hh off Hr), Hl in Hroot.
      destruct (sub_watches W1' !! (w, off)) as [[| n' d' e' ps' t' c' |] |]; try done.
      simpl in Hroot. injection Hroot as -> -> -> -> ->. apply Hcall.
  - destruct (IH W1 Hh) as (k & Wm & Hf & Hoe & Hhm & Hcall).
    exists (S k), Wm. split_and!; try done.
    intros fuel. cbn [Nat.add call_pointer].
    unfold gtk_closure_expression_watch_notify_cb.
    pose proof (Hh off Hr) as Hroot. rewrite Hl in Hroot.
    destruct (sub_watches W1 !! (w, off)) as [[| n' d' e' ps' t' c' |] |]; try done.
    simpl in Hroot. injection Hroot as -> ->. apply Hcall.
Qed.

(** X15. Every sub-watch record that gtk_expression_watch writes is wired
    to the watch: calling the notify stored in the record with its data,
    as the object expression does when its object goes away and as the
    signal handler of a property does, runs through the relays of this
    file and calls the notify of the watch with its user data, once. *)
Theorem sub_watch_notifies_the_watch self this_ notify_ user_data_ user_destroy_ W k :
  let r := gtk_expression_watch self this_ notify_ user_data_ user_destroy_ W in
  sub_watches r.2 !! k ≠ sub_watches W !! k →
  ∃ rec fuel W',
    sub_watches r.2 !! k = Some rec
    ∧ call_pointer fuel (sub_notify rec) (sub_user_data rec) r.2 = Some W'
    ∧ ∃ evs1 evs2, trace W' = trace r.2 ++ evs1 ++ EvNotify notify_ user_data_ :: evs2
                   ∧ Forall is_invoke evs1 ∧ Forall is_quiet evs2.
Proof.
  cbn zeta. intros Hne.
  destruct (this_is_valid W this_) eqn:Hv;
    [| unfold gtk_expression_watch in Hne; by rewrite Hv in Hne].
  destruct (gtk_expression_watch_creates self this_ notify_ user_data_ user_destroy_ W Hv)
    as (_ & _ & Hr3 & _). cbn zeta in Hr3.
  revert Hne Hr3. unfold gtk_expression_watch. rewrite Hv. cbn [negb snd].
  set (w := fresh (dom (expression_watches W))).
  set (W2 := match this_ with Some _ => _ | None => _ end).
  assert (H2 : sub_watches W2 = sub_watches W) by (subst W2; by destruct this_).
  set (W3 := gtk_expression_subwatch_init self w 0 this_ fn_gtk_expression_watch_cb
               (watch_pointer w) W2).
  intros Hne Hr3.
  destruct (subwatch_init_relays self w 0 this_ fn_gtk_expression_watch_cb (watch_pointer w) W2 k)
    as [Heq | (Hw & Hr & rec & Hrec & Hrel)].
  { fold W3 in Heq. by rewrite Heq, H2 in Hne. }
  fold W3 in Hrec, Hrel.
  destruct (call_pointer_relays W3 w _ _ _ _ _ _ Hrel W3) as (n & Wm & Hf & _ & _ & Hcall);
    [done |].
  destruct Hf as (_ & Hwm & _ & _ & _ & evs1 & Htr & Hinv).
  exists rec, (n + 1)%nat, (call_notify notify_ user_data_ Wm). split_and!.
  - done.
  - rewrite Hcall. cbn [call_pointer]. f_equal.
    unfold gtk_expression_watch_cb. by rewrite <- Hwm, Hr3, lookup_insert_eq.
  - destruct (call_notify_spec notify_ user_data_ Wm) as (_ & _ & _ & evs2 & Htr2 & Hq).
    exists evs1, evs2. split_and!; try done.
    rewrite Htr2, Htr. by rewrite <- (assoc_L (++)).
Qed.

Lemma sub_watch_notifies_the_watch_witness :
  ∃ rec fuel W',
    sub_watches watched_foo_expression.2 !! (1%positive, 40%N) = Some rec
    ∧ call_pointer fuel (sub_notify rec) (sub_user_data rec) watched_foo_expression.2 = Some W'
    ∧ ∃ evs1 evs2, trace W' = trace watched_foo_expression.2 ++ evs1
                                ++ EvNotify (user_notify 0) (user_pointer 0) :: evs2
                   ∧ Forall is_invoke evs1 ∧ Forall is_quiet evs2.
Proof.
  apply (sub_watch_notifies_the_watch width_of_foo_expression None (user_notify 0)
           (user_pointer 0) None (gtk_object_expression_new foo scene).2 (1%positive, 40%N)).
  vm_compute. discriminate.
Defined.

(** ** The listener lists and the buffers *)

(** Installing sub-watches leaves, at every slot it registers with an
    object expression, the record of an object sub-watch. *)
Lemma object_slots_records e :
  ∀ w off this_ n d W s,
    s ∈ object_slots e off →
    ∃ n' d', sub_watches (gtk_expression_subwatch_init e w off this_ n d W) !! (w, s.2)
             = Some (ObjectSubWatch n' d').
Proof.
  induction e as [value | x | pspec | e pspec IH | closure params IH]
    using GtkExpression_tree_ind; intros w off this_ n d W s Hs.
  - by apply elem_of_nil in Hs.
  - apply list_elem_of_singleton in Hs as ->. exists n, d. simpl. apply lookup_insert_eq.
  - by apply elem_of_nil in Hs.
  - cbn [object_slots] in Hs. cbn [gtk_expression_subwatch_init].
    destruct (gtk_expression_is_static e); [by apply elem_of_nil in Hs |]. cbn [negb].
    pose proof (object_slots_range _ _ _ Hs) as [Hlo _].
    rewrite create_closure_elsewhere.
    + by apply IH.
    + intros [= Heq]. unfold sizeof_GtkPropertyExpressionWatch, sizeof_gpointer in Hlo. lia.
  - cbn [object_slots] in Hs. cbn [gtk_expression_subwatch_init].
    revert Hs. generalize (off + sizeof_GtkClosureExpressionWatch)%N.
    generalize (set_sub_watches (<[(w, off) := ClosureSubWatch n d]>) W).
    assert (Hloop : ∀ W0 sub,
      let W' := (fix loop (ps : list GtkExpression) (sub : N) (W' : World) : World :=
           match ps with
           | [] => W'
           | p :: ps' =>
               if gtk_expression_is_static p then loop ps' sub W'
               else loop ps' (sub + gtk_expression_watch_size p)%N
                      (gtk_expression_subwatch_init p w sub this_
                         fn_gtk_closure_expression_watch_notify_cb (sub_pointer w off) W')
           end) params sub W0 in
      (∀ k, ¬ (k.1 = w ∧ (sub ≤ k.2 < sub + params_watch_size params)%N) →
            sub_watches W' !! k = sub_watches W0 !! k)
      ∧ (∀ s, s ∈ params_object_slots object_slots params sub →
              ∃ n' d', sub_watches W' !! (w, s.2) = Some (ObjectSubWatch n' d'))).
    { induction IH as [| p ps Hp _ IHps]; intros W0 sub; cbn zeta.
      - split; [done |]. intros s' Hs'. by apply elem_of_nil in Hs'.
      - cbn [params_watch_size params_object_slots].
        destruct (gtk_expression_is_static p).
        + destruct (IHps W0 sub) as [Hconf Hrec]. split; [| done].
          intros k Hk. apply Hconf. intros [? ?]. apply Hk. split; [done | lia].
        + destruct (IHps (gtk_expression_subwatch_init p w sub this_
                            fn_gtk_closure_expression_watch_notify_cb (sub_pointer w off) W0)
                         (sub + gtk_expression_watch_size p)%N) as [Hconf Hrec].
          split.
          * intros k Hk. rewrite Hconf.
            -- apply subwatch_init_confined. intros [? ?]. apply Hk. split; [done | lia].
            -- intros [? ?]. apply Hk. split; [done | lia].
          * intros s' Hs'. apply elem_of_app in Hs' as [Hs' | Hs']; [| by apply Hrec].
            pose proof (object_slots_range _ _ _ Hs') as [Hlo Hhi].
            destruct (Hp w sub this_ fn_gtk_closure_expression_watch_notify_cb
                        (sub_pointer w off) W0 s' Hs') as (n' & d' & Hl).
            exists n', d'. rewrite Hconf; [done |]. cbn [fst snd].
            unfold sizeof_GtkObjectExpressionWatch, sizeof_gpointer in Hhi. lia. }
    intros W0 sub Hs. by apply (Hloop W0 sub).
Qed.

Lemma subwatch_finish_headers e :
  ∀ w off W k,
    (sub_header <$> sub_watches (gtk_expression_subwatch_finish e w off W) !! k)
    = (sub_header <$> sub_watches W !! k).
Proof.
  induction e as [value | x | pspec | e pspec IH | closure params IH]
    using GtkExpression_tree_ind; intros w off W k.
  - done.
  - done.
  - cbn [gtk_expression_subwatch_finish]. apply destroy_closure_headers.
  - cbn [gtk_expression_subwatch_finish].
    destruct (gtk_expression_is_static e); cbn [negb]; rewrite ?IH;
      apply destroy_closure_headers.
  - cbn [gtk_expression_subwatch_finish].
    generalize (off + sizeof_GtkClosureExpressionWatch)%N. revert W.
    induction IH as [| p ps Hp _ IHps]; intros W sub; [done |].
    destruct (gtk_expression_is_static p); [apply IHps |].
    by rewrite IHps, Hp.
Qed.

Lemma owatch_call_headers W W' l :
  (sub_header <$> sub_watches W' !! l) = (sub_header <$> sub_watches W !! l) →
  is_Some (owatch_call W l) → is_Some (owatch_call W' l).
Proof.
  unfold owatch_call. intros Hh.
  destruct (sub_watches W !! l) as [[n d | |] |]; try (by intros [? ?]).
  by destruct (sub_watches W' !! l) as [[n' d' | |] |].
Qed.

Lemma g_slist_remove_all_elem {A} `{EqDecision A} (rem : list A) :
  ∀ (l : list A) (y : A), y ∈ foldl g_slist_remove l rem → y ∈ l.
Proof.
  induction rem as [| a rem IH]; intros l y Hy; [done |].
  simpl in Hy. apply IH in Hy. by apply g_slist_remove_elem in Hy.
Qed.

Lemma watch_listeners self this_ notify_ user_data_ user_destroy_ W :
  listeners_consistent W →
  listeners_consistent (gtk_expression_watch self this_ notify_ user_data_ user_destroy_ W).2.
Proof.
  intros Hc.
  destruct (this_is_valid W this_) eqn:Hv;
    [| unfold gtk_expression_watch; by rewrite Hv].
  destruct (gtk_expression_watch_creates self this_ notify_ user_data_ user_destroy_ W Hv)
    as (_ & Hfresh & Hr3 & _). cbn zeta in Hr3.
  pose proof (gtk_expression_watch_object_exprs self this_ notify_ user_data_ user_destroy_ W Hv)
    as Hoe.
  intros x node l Hx Hl. rewrite Hr3. rewrite Hoe, register_slots_lookup in Hx.
  destruct (object_exprs W !! x) as [node0 |] eqn:Hx0; [| done].
  injection Hx as <-. cbn [watches] in Hl.
  unfold owatch_call, gtk_expression_watch. rewrite Hv. cbn [negb snd].
  set (w := fresh (dom (expression_watches W))) in *.
  set (W2 := match this_ with
             | Some t => log (EvWeakRef t fn_gtk_expression_watch_this_cb (watch_pointer w))
                           (set_expression_watches
                              (<[w := mkWatch (Some self) this_ user_destroy_ notify_
                                        user_data_ 1]>) W)
             | None => set_expression_watches
                         (<[w := mkWatch (Some self) this_ user_destroy_ notify_
                                   user_data_ 1]>) W
             end).
  assert (H2 : sub_watches W2 = sub_watches W) by (subst W2; by destruct this_).
  apply elem_of_app in Hl as [Hl | Hl].
  - apply elem_of_reverse, list_elem_of_fmap in Hl as (s & -> & Hs).
    apply list_elem_of_filter in Hs as [_ Hs]. cbn [fst snd].
    split; [rewrite lookup_insert_eq; by eexists |].
    destruct (object_slots_records self w 0 this_ fn_gtk_expression_watch_cb
                (watch_pointer w) W2 s Hs) as (n' & d' & ->). by eexists.
  - destruct (Hc x node0 l Hx0 Hl) as [Hw Ho].
    assert (Hne : l.1 ≠ w) by (intros Heq; rewrite Heq, Hfresh in Hw; by destruct Hw).
    split; [by rewrite lookup_insert_ne |].
    rewrite subwatch_init_confined by (by intros [? _]). by rewrite H2.
Qed.

Lemma unwatch_listeners w W :
  listeners_consistent W → listeners_consistent (gtk_expression_watch_unwatch w W).
Proof.
  intros Hc. unfold gtk_expression_watch_unwatch.
  destruct (expression_watches W !! w) as [[[e |] t d n ud rc] |] eqn:Hw; cbn [expression];
    try done.
  cbn [this user_destroy user_data].
  destruct (subwatch_finish_frame e w 0 W) as (_ & Hw1 & _).
  pose proof (subwatch_finish_headers e w 0 W) as Hh1.
  pose proof (subwatch_finish_object_exprs e w 0 W) as He1.
  set (W1 := gtk_expression_subwatch_finish e w 0 W) in *.
  set (W2 := match t with
             | Some t' => log (EvWeakUnref t' fn_gtk_expression_watch_this_cb (watch_pointer w)) W1
             | None => W1
             end).
  assert (H2 : object_exprs W2 = object_exprs W1 ∧ expression_watches W2 = expression_watches W1
               ∧ sub_watches W2 = sub_watches W1).
  { subst W2. by destruct t. }
  set (W3 := match d with Some d' => call_destroy d' ud W2 | None => W2 end).
  assert (H3 : object_exprs W3 = object_exprs W1 ∧ expression_watches W3 = expression_watches W
               ∧ sub_watches W3 = sub_watches W1).
  { destruct H2 as (He2 & Hw2 & Hs2). subst W3. destruct d as [d' |].
    - destruct (call_destroy_spec d' ud W2) as (-> & -> & -> & _). by rewrite Hw2, <- Hw1.
    - by rewrite Hw2, <- Hw1. }
  destruct H3 as (He3 & Hw3 & Hs3). clearbody W3 W2.
  intros x node l Hx Hl. simpl in Hx. rewrite He3, He1, unregister_slots_lookup in Hx.
  destruct (object_exprs W !! x) as [node0 |] eqn:Hx0; [| done].
  injection Hx as <-. cbn [watches] in Hl. apply g_slist_remove_all_elem in Hl.
  destruct (Hc x node0 l Hx0 Hl) as [Hlw Ho]. split.
  - simpl. rewrite Hw3. by rewrite !lookup_alter_is_Some.
  - apply (owatch_call_headers W); [| done]. simpl. by rewrite Hs3, Hh1.
Qed.

Lemma listeners_consistent_stores W W' :
  object_exprs W' = object_exprs W →
  expression_watches W' = expression_watches W →
  sub_watches W' = sub_watches W →
  listeners_consistent W → listeners_consistent W'.
Proof.
  intros He Hw Hs Hc x node l Hx Hl. rewrite He in Hx.
  destruct (Hc x node l Hx Hl) as [H1 H2]. unfold owatch_call in *. by rewrite Hw, Hs.
Qed.

Lemma object_expression_new_listeners o W :
  listeners_consistent W → listeners_consistent (gtk_object_expression_new o W).2.
Proof.
  intros Hc. unfold gtk_object_expression_new.
  destruct (G_IS_OBJECT W o); cbn [negb snd]; [| done].
  intros x node l Hx Hl. simpl in Hx.
  apply lookup_insert_Some in Hx as [[_ <-] | [_ Hx]]; [by apply elem_of_nil in Hl |].
  exact (Hc x node l Hx Hl).
Qed.

Lemma notify_loop_stores ws :
  ∀ W, let W' := foldl (λ W' l, match owatch_call W' l with
                                | Some ev => log ev W'
                                | None => W'
                                end) W ws in
       object_exprs W' = object_exprs W
       ∧ expression_watches W' = expression_watches W
       ∧ sub_watches W' = sub_watches W.
Proof.
  induction ws as [| l ws IH]; intros W; cbn zeta; [done |].
  cbn [foldl]. destruct (IH (match owatch_call W l with
                             | Some ev => log ev W
                             | None => W
                             end)) as (-> & -> & ->).
  by destruct (owatch_call W l).
Qed.

Lemma weak_ref_cb_listeners x W :
  listeners_consistent W → listeners_consistent (gtk_object_expression_weak_ref_cb x W).
Proof.
  intros Hc. unfold gtk_object_expression_weak_ref_cb.
  destruct (object_exprs W !! x) as [node |] eqn:Hx; [| done].
  destruct (notify_loop_stores (watches node)
              (set_object_exprs (<[x := mkObjectExpression None (watches node)]>) W))
    as (He & Hw & Hs).
  cbn zeta in He, Hw, Hs.
  apply (listeners_consistent_stores
           (set_object_exprs (<[x := mkObjectExpression None (watches node)]>) W));
    [done | done | done |].
  intros y node' l Hy Hl. simpl in Hy.
  apply lookup_insert_Some in Hy as [[_ <-] | [_ Hy]].
  - exact (Hc x node l Hx Hl).
  - exact (Hc y node' l Hy Hl).
Qed.

Lemma watch_this_cb_listeners w W :
  listeners_consistent W → listeners_consistent (gtk_expression_watch_this_cb w W).
Proof.
  intros Hc. unfold gtk_expression_watch_this_cb.
  destruct (expression_watches W !! w) as [watch |] eqn:Hw; [| done].
  apply unwatch_listeners.
  destruct (call_notify_spec (notify watch) (user_data watch)
              (set_expression_watches
                 (<[w := mkWatch (expression watch) None (user_destroy watch) (notify watch)
                           (user_data watch) (watch_ref_count watch)]>) W))
    as (He & Hw' & Hs & _).
  cbn zeta in He, Hw', Hs.
  apply (listeners_consistent_stores
           (set_expression_watches
              (<[w := mkWatch (expression watch) None (user_destroy watch) (notify watch)
                        (user_data watch) (watch_ref_count watch)]>) W));
    [done | done | done |].
  intros x node l Hx Hl.
  destruct (Hc x node l Hx Hl) as [H1 H2]. split; [| done]. simpl.
  destruct (decide (l.1 = w)) as [-> |].
  - rewrite lookup_insert_eq. by eexists.
  - by rewrite lookup_insert_ne.
Qed.

Lemma bind_listeners self target property this_ W :
  listeners_consistent W →
  listeners_consistent (gtk_expression_bind self target property this_ W).2.
Proof.
  intros Hc. unfold gtk_expression_bind.
  destruct (objects W !! target) as [obj |]; [| done].
  destruct (class_properties obj !! property) as [pspec |]; [| done].
  destruct (is_writable pspec); cbn [negb snd]; [| done].
  set (b := fresh (dom (expression_bind_table W))).
  set (W3 := set_expression_bind_table (<[b := mkBind None (Some target) pspec]>) _).
  assert (Hc3 : listeners_consistent W3).
  { apply (listeners_consistent_stores W); [| | | done];
      subst W3; by destruct (get_expression_binds W target). }
  clearbody W3.
  apply (watch_listeners self this_ fn_gtk_expression_bind_notify (bind_pointer b)
           (Some fn_gtk_expression_bind_free)) in Hc3.
  set (r := gtk_expression_watch self this_ fn_gtk_expression_bind_notify (bind_pointer b)
              (Some fn_gtk_expression_bind_free) W3) in *.
  destruct (bind_notify_spec b
              (set_expression_binds target (b :: get_expression_binds W target)
                 (set_expression_bind_table (<[b := mkBind r.1 (Some target) pspec]>) r.2)))
    as (He & Hw & Hs & _).
  cbn zeta in He, Hw, Hs.
  by apply (listeners_consistent_stores r.2).
Qed.

Lemma watched_foo_expression_listeners : listeners_consistent watched_foo_expression.2.
Proof.
  apply watch_listeners, object_expression_new_listeners.
  intros x node l Hx.
  change (object_exprs scene) with (∅ : gmap ExprId GtkObjectExpression) in Hx.
  by rewrite lookup_empty in Hx.
Qed.



(** ** The layout of the buffer *)

(** In a buffer that held no record, the records that installing
    sub-watches leaves do not overlap: of two records, the one at the lower
    offset ends before the other starts. *)
Lemma subwatch_init_apart e :
  ∀ w off this_ n d W,
    (∀ o, (off ≤ o < off + gtk_expression_watch_size e)%N → sub_watches W !! (w, o) = None) →
    let W' := gtk_expression_subwatch_init e w off this_ n d W in
    ∀ o1 o2 r1 r2,
      (off ≤ o1 < o2)%N → (o2 < off + gtk_expression_watch_size e)%N →
      sub_watches W' !! (w, o1) = Some r1 →
      sub_watches W' !! (w, o2) = Some r2 →
      (o1 + sizeof_sub_watch r1 ≤ o2)%N.
Proof.
  induction e as [value | x | pspec | e pspec IH | closure params IH]
    using GtkExpression_tree_ind; intros w off this_ n d W Hempty; cbn zeta;
    intros o1 o2 r1 r2 Ho1 Ho2 H1 H2.
  - cbn [gtk_expression_watch_size] in Ho2. lia.
  - simpl in H2. rewrite lookup_insert_ne in H2 by (intros [= ?]; lia).
    rewrite Hempty in H2; [done |]. lia.
  - cbn [gtk_expression_subwatch_init] in H2.
    rewrite create_closure_elsewhere in H2 by (intros [= ?]; lia).
    simpl in H2. rewrite lookup_insert_ne in H2 by (intros [= ?]; lia).
    rewrite Hempty in H2; [done |]. lia.
  - rewrite property_watch_size in Hempty, Ho2.
    cbn [gtk_expression_subwatch_init] in H1, H2.
    set (W1 := set_sub_watches
                 (<[(w, off) := PropertySubWatch n d (Some e) pspec this_ None]>) W) in *.
    assert (Hempty1 : ∀ o, (off + sizeof_GtkPropertyExpressionWatch ≤ o
                            < off + sizeof_GtkPropertyExpressionWatch
                              + gtk_expression_watch_size e)%N →
                           sub_watches W1 !! (w, o) = None).
    { intros o Ho. subst W1. simpl. rewrite lookup_insert_ne.
      - apply Hempty. lia.
      - intros [= ?]. unfold sizeof_GtkPropertyExpressionWatch, sizeof_gpointer in Ho. lia. }
    assert (Hgap : ∀ o, (off < o < off + sizeof_GtkPropertyExpressionWatch)%N →
                     sub_watches (gtk_expression_subwatch_init e w
                                    (off + sizeof_GtkPropertyExpressionWatch) this_
                                    fn_gtk_property_expression_watch_expr_notify_cb
                                    (sub_pointer w off) W1) !! (w, o) = None
                     ∧ sub_watches W1 !! (w, o) = None).
    { intros o Ho. assert (H0 : sub_watches W1 !! (w, o) = None).
      { subst W1. simpl. rewrite lookup_insert_ne by (intros [= ?]; lia). apply Hempty. lia. }
      split; [| done]. rewrite subwatch_init_confined; [done |]. cbn [fst snd]. lia. }
    rewrite create_closure_elsewhere in H2 by (intros [= ?]; lia).
    destruct (decide (o1 = off)) as [-> | Hne1].
    + assert (Hsz : sizeof_sub_watch r1 = sizeof_GtkPropertyExpressionWatch).
      { pose proof (create_closure_sizes w off
                      (if negb (gtk_expression_is_static e)
                       then gtk_expression_subwatch_init e w
                              (off + sizeof_GtkPropertyExpressionWatch) this_
                              fn_gtk_property_expression_watch_expr_notify_cb
                              (sub_pointer w off) W1
                       else W1) (w, off)) as Hs.
        rewrite H1 in Hs.
        assert (Hroot : sub_watches (if negb (gtk_expression_is_static e)
                                     then gtk_expression_subwatch_init e w
                                            (off + sizeof_GtkPropertyExpressionWatch) this_
                                            fn_gtk_property_expression_watch_expr_notify_cb
                                            (sub_pointer w off) W1
                                     else W1) !! (w, off)
                        = Some (PropertySubWatch n d (Some e) pspec this_ None)).
        { destruct (gtk_expression_is_static e); cbn [negb].
          - subst W1. simpl. apply lookup_insert_eq.
          - rewrite subwatch_init_confined.
            + subst W1. simpl. apply lookup_insert_eq.
            + cbn [fst snd]. unfold sizeof_GtkPropertyExpressionWatch, sizeof_gpointer. lia. }
        rewrite Hroot in Hs. by injection Hs. }
      rewrite Hsz.
      destruct (decide (o2 < off + sizeof_GtkPropertyExpressionWatch)%N) as [Hlt | Hge]; [| lia].
      destruct (Hgap o2 ltac:(lia)) as [Hg1 Hg2].
      destruct (gtk_expression_is_static e); cbn [negb] in H2; congruence.
    + rewrite create_closure_elsewhere in H1 by (intros [= ?]; lia).
      destruct (gtk_expression_is_static e); cbn [negb] in H1, H2.
      * subst W1. simpl in H1. rewrite lookup_insert_ne in H1 by (intros [= ?]; lia).
        rewrite Hempty in H1; [done | lia].
      * destruct (decide (o1 < off + sizeof_GtkPropertyExpressionWatch)%N) as [Hlt | Hge].
        { destruct (Hgap o1 ltac:(lia)) as [Hg1 _]. congruence. }
        apply (IH w (off + sizeof_GtkPropertyExpressionWatch)%N this_
                 fn_gtk_property_expression_watch_expr_notify_cb (sub_pointer w off) W1
                 Hempty1 o1 o2 r1 r2); [lia | lia | done | done].
  - rewrite closure_watch_size in Hempty, Ho2.
    cbn [gtk_expression_subwatch_init] in H1, H2.
    set (W1 := set_sub_watches (<[(w, off) := ClosureSubWatch n d]>) W) in *.
    assert (Hloop : ∀ W0 sub,
      (∀ o, (sub ≤ o < sub + params_watch_size params)%N → sub_watches W0 !! (w, o) = None) →
      let W' := (fix loop (ps : list GtkExpression) (sub : N) (W' : World) : World :=
           match ps with
           | [] => W'
           | p :: ps' =>
               if gtk_expression_is_static p then loop ps' sub W'
               else loop ps' (sub + gtk_expression_watch_size p)%N
                      (gtk_expression_subwatch_init p w sub this_
                         fn_gtk_closure_expression_watch_notify_cb (sub_pointer w off) W')
           end) params sub W0 in
      (∀ k, ¬ (k.1 = w ∧ (sub ≤ k.2 < sub + params_watch_size params)%N) →
            sub_watches W' !! k = sub_watches W0 !! k)
      ∧ (∀ o r, (sub ≤ o < sub + params_watch_size params)%N →
                sub_watches W' !! (w, o) = Some r →
                (o + sizeof_sub_watch r ≤ sub + params_watch_size params)%N)
      ∧ (∀ o1 o2 r1 r2,
           (sub ≤ o1 < o2)%N → (o2 < sub + params_watch_size params)%N →
           sub_watches W' !! (w, o1) = Some r1 →
           sub_watches W' !! (w, o2) = Some r2 →
           (o1 + sizeof_sub_watch r1 ≤ o2)%N)).
    { clear Hempty Ho1 Ho2 H1 H2 W1 o1 o2 r1 r2.
      induction IH as [| p ps Hp _ IHps]; intros W0 sub Hempty0; cbn zeta.
      - split; [done |]. cbn [params_watch_size]. split; intros; lia.
      - cbn [params_watch_size] in Hempty0 |- *.
        destruct (gtk_expression_is_static p).
        + destruct (IHps W0 sub) as (Hconf & Hfit & Hapart).
          { intros o Ho. apply Hempty0. lia. }
          split_and!.
          * intros k Hk. apply Hconf. intros [? ?]. apply Hk. split; [done | lia].
          * intros o r Ho Hr. pose proof (Hfit o r ltac:(lia) Hr). lia.
          * intros o1 o2 r1 r2 Ho1 Ho2. apply Hapart; lia.
        + set (Wp := gtk_expression_subwatch_init p w sub this_
                       fn_gtk_closure_expression_watch_notify_cb (sub_pointer w off) W0).
          set (mid := (sub + gtk_expression_watch_size p)%N).
          assert (Hpconf : ∀ k, ¬ (k.1 = w ∧ (sub ≤ k.2 < mid)%N) →
                                sub_watches Wp !! k = sub_watches W0 !! k).
          { intros k Hk. by apply subwatch_init_confined. }
          assert (Hpfit : ∀ o r, sub_watches Wp !! (w, o) = Some r →
                                 (sub ≤ o < mid)%N → (o + sizeof_sub_watch r ≤ mid)%N).
          { intros o r Hr Ho.
            destruct (subwatch_init_fits p w sub this_ fn_gtk_closure_expression_watch_notify_cb
                        (sub_pointer w off) W0 (w, o)) as [Heq | (_ & r' & Hr' & _ & Hle)].
            - fold Wp in Heq. rewrite Heq, Hempty0 in Hr; [done | lia].
            - fold Wp in Hr'. rewrite Hr in Hr'. injection Hr' as <-. exact Hle. }
          destruct (IHps Wp mid) as (Hconf & Hfit & Hapart).
          { intros o Ho. rewrite Hpconf by (cbn [fst snd]; lia). apply Hempty0. lia. }
          fold Wp. fold mid.
          set (Wf := (fix loop (ps : list GtkExpression) (sub : N) (W' : World) : World :=
             match ps with
             | [] => W'
             | p :: ps' =>
                 if gtk_expression_is_static p then loop ps' sub W'
                 else loop ps' (sub + gtk_expression_watch_size p)%N
                        (gtk_expression_subwatch_init p w sub this_
                           fn_gtk_closure_expression_watch_notify_cb (sub_pointer w off) W')
             end) ps mid Wp) in *.
          split_and!.
          * intros k Hk. rewrite Hconf, Hpconf; [done | |];
              intros [? ?]; apply Hk; (split; [done | lia]).
          * intros o r Ho Hr.
            destruct (decide (o < mid)%N) as [Hlt | Hge].
            -- rewrite Hconf in Hr by (cbn [fst snd]; lia).
               pose proof (Hpfit o r Hr ltac:(lia)). lia.
            -- pose proof (Hfit o r ltac:(lia) Hr). lia.
          * intros o1 o2 r1 r2 Ho1 Ho2 Hr1 Hr2.
            destruct (decide (o1 < mid)%N) as [Hlt1 | Hge1].
            -- rewrite Hconf in Hr1 by (cbn [fst snd]; lia).
               destruct (decide (o2 < mid)%N) as [Hlt2 | Hge2].
               ++ rewrite Hconf in Hr2 by (cbn [fst snd]; lia).
                  apply (Hp w sub this_ fn_gtk_closure_expression_watch_notify_cb
                           (sub_pointer w off) W0) with (o2 := o2) (r2 := r2);
                    [intros o Ho; apply Hempty0; lia | lia | lia | done | done].
               ++ pose proof (Hpfit o1 r1 Hr1 ltac:(lia)). lia.
            -- apply (Hapart o1 o2 r1 r2); [lia | lia | done | done]. }
    destruct (Hloop W1 (off + sizeof_GtkClosureExpressionWatch)%N) as (Hconf & Hfit & Hapart).
    { intros o Ho. subst W1. simpl. rewrite lookup_insert_ne.
      - apply Hempty. lia.
      - intros [= ?]. unfold sizeof_GtkClosureExpressionWatch, sizeof_gpointer in Ho. lia. }
    assert (Hgap : ∀ o, (off < o < off + sizeof_GtkClosureExpressionWatch)%N →
                        sub_watches W1 !! (w, o) = None).
    { intros o Ho. subst W1. simpl. rewrite lookup_insert_ne by (intros [= ?]; lia).
      apply Hempty. lia. }
    destruct (decide (o1 = off)) as [-> | Hne1].
    + rewrite Hconf in H1
        by (cbn [fst snd]; unfold sizeof_GtkClosureExpressionWatch, sizeof_gpointer; lia).
      subst W1. simpl in H1. rewrite lookup_insert_eq in H1. injection H1 as <-.
      cbn [sizeof_sub_watch].
      destruct (decide (o2 < off + sizeof_GtkClosureExpressionWatch)%N) as [Hlt | Hge]; [| lia].
      rewrite Hconf in H2 by (cbn [fst snd]; lia).
      simpl in H2. rewrite lookup_insert_ne in H2 by (intros [= ?]; lia).
      rewrite Hempty in H2; [done | lia].
    + destruct (decide (o1 < off + sizeof_GtkClosureExpressionWatch)%N) as [Hlt | Hge].
      { rewrite Hconf in H1 by (cbn [fst snd]; lia). rewrite Hgap in H1; [done | lia]. }
      apply (Hapart o1 o2 r1 r2); [lia | lia | done | done].
Qed.

(** X17. The records in the buffer of a new watch do not overlap: when
    the buffer held no record, as it comes from the allocation, any two
    records found in it after gtk_expression_watch lie apart, the lower
    one ending before the other starts. *)
Theorem watch_records_do_not_overlap self this_ notify_ user_data_ user_destroy_ W o1 o2 r1 r2 :
  let r := gtk_expression_watch self this_ notify_ user_data_ user_destroy_ W in
  let w := fresh (dom (expression_watches W)) in
  (∀ o, sub_watches W !! (w, o) = None) →
  o1 ≠ o2 →
  sub_watches r.2 !! (w, o1) = Some r1 →
  sub_watches r.2 !! (w, o2) = Some r2 →
  (o1 + sizeof_sub_watch r1 ≤ o2 ∨ o2 + sizeof_sub_watch r2 ≤ o1)%N.
Proof.
  cbn zeta. intros Hempty Hne. unfold gtk_expression_watch.
  destruct (this_is_valid W this_); cbn [negb snd]; [| by rewrite Hempty].
  set (w := fresh (dom (expression_watches W))) in *.
  set (W2 := match this_ with Some _ => _ | None => _ end).
  assert (H2 : sub_watches W2 = sub_watches W) by (subst W2; by destruct this_).
  intros H1 H2'.
  assert (Hin : ∀ o r, sub_watches (gtk_expression_subwatch_init self w 0 this_
                                      fn_gtk_expression_watch_cb (watch_pointer w) W2) !! (w, o)
                       = Some r → (o < 0 + gtk_expression_watch_size self)%N).
  { intros o r Hr.
    destruct (decide (o < 0 + gtk_expression_watch_size self)%N) as [| Hout]; [done |].
    rewrite subwatch_init_confined, H2, Hempty in Hr; [done |]. cbn [fst snd]. lia. }
  pose proof (Hin o1 r1 H1). pose proof (Hin o2 r2 H2').
  assert (Hempty2 : ∀ o, (0 ≤ o < 0 + gtk_expression_watch_size self)%N →
                         sub_watches W2 !! (w, o) = None).
  { intros o _. by rewrite H2. }
  destruct (N.lt_total o1 o2) as [Hlt | [Heq | Hgt]]; [| done |].
  - left. apply (subwatch_init_apart self w 0 this_ fn_gtk_expression_watch_cb (watch_pointer w)
                   W2 Hempty2 o1 o2 r1 r2); [lia | done | done | done].
  - right. apply (subwatch_init_apart self w 0 this_ fn_gtk_expression_watch_cb (watch_pointer w)
                    W2 Hempty2 o2 o1 r2 r1); [lia | done | done | done].
Qed.

Lemma watch_records_do_not_overlap_witness :
  (0 + sizeof_sub_watch
         (PropertySubWatch fn_gtk_expression_watch_cb (watch_pointer 1%positive)
            (Some (GtkObjectExpressionRef foo_expression)) width_pspec None (Some foo))
   ≤ 40
   ∨ 40 + sizeof_sub_watch
            (ObjectSubWatch fn_gtk_property_expression_watch_expr_notify_cb
               (sub_pointer 1%positive 0))
     ≤ 0)%N.
Proof.
  apply (watch_records_do_not_overlap width_of_foo_expression None (user_notify 0)
           (user_pointer 0) None (gtk_object_expression_new foo scene).2 0%N 40%N).
  - intros o. reflexivity.
  - discriminate.
  - reflexivity.
  - reflexivity.
Defined.

(** ** Object expressions *)

(** X18. An object expression holds its object weakly.
    gtk_object_expression_new takes no reference on the object and
    registers one weak reference; the new expression has no listener and
    evaluates to the object, for any valid [this]; once the destruction
    notification of the object has run it fails to evaluate, and nobody
    is notified as nobody listens yet. *)
Theorem object_expression_new_holds_weakly o this_ W :
  G_IS_OBJECT W o = true →
  this_is_valid W this_ = true →
  let r := gtk_object_expression_new o W in
  let x := fresh (dom (object_exprs W)) in
  r.1 = Some (GtkObjectExpressionRef x)
  ∧ object_exprs W !! x = None
  ∧ object_exprs r.2 !! x = Some (mkObjectExpression (Some o) [])
  ∧ objects r.2 = objects W
  ∧ ref_counts r.2 = ref_counts W
  ∧ trace r.2
    = trace W ++ [EvWeakRef o fn_gtk_object_expression_weak_ref_cb (expression_pointer x)]
  ∧ (gtk_expression_evaluate (GtkObjectExpressionRef x) this_ r.2).1
    = (true, G_VALUE (V_object (Some o)))
  ∧ (gtk_expression_evaluate (GtkObjectExpressionRef x) this_
       (gtk_object_expression_weak_ref_cb x r.2)).1
    = (false, G_VALUE_INIT)
  ∧ trace (gtk_object_expression_weak_ref_cb x r.2) = trace r.2.
Proof.
  intros Ho Hv. cbn zeta. unfold gtk_object_expression_new. rewrite Ho. cbn [negb fst snd].
  set (x := fresh (dom (object_exprs W))).
  set (W1 := log _ _).
  assert (Hx1 : object_exprs W1 !! x = Some (mkObjectExpression (Some o) [])).
  { subst W1. simpl. apply lookup_insert_eq. }
  assert (Hv1 : this_is_valid W1 this_ = true) by (by destruct this_).
  split_and!; try done.
  - apply not_elem_of_dom, is_fresh.
  - rewrite evaluate_unfold, Hv1. cbn [negb].
    unfold gtk_object_expression_evaluate. rewrite Hx1. cbn [fmap option_fmap option_map object].
    unfold bind, ret. cbn [fst snd].
    by destruct (g_value_init_with_spec (V_object (Some o)) W1) as (-> & _).
  - unfold gtk_object_expression_weak_ref_cb. rewrite Hx1. cbn [watches foldl].
    rewrite evaluate_unfold.
    assert (Hv2 : this_is_valid
                    (set_object_exprs (<[x := mkObjectExpression None []]>) W1) this_ = true)
      by (by destruct this_).
    rewrite Hv2. cbn [negb]. unfold gtk_object_expression_evaluate. simpl.
    by rewrite lookup_insert_eq.
  - unfold gtk_object_expression_weak_ref_cb. by rewrite Hx1.
Qed.

Lemma object_expression_new_holds_weakly_witness :
  let r := gtk_object_expression_new foo scene in
  let x := fresh (dom (object_exprs scene)) in
  r.1 = Some (GtkObjectExpressionRef x)
  ∧ object_exprs scene !! x = None
  ∧ object_exprs r.2 !! x = Some (mkObjectExpression (Some foo) [])
  ∧ objects r.2 = objects scene
  ∧ ref_counts r.2 = ref_counts scene
  ∧ trace r.2
    = trace scene ++ [EvWeakRef foo fn_gtk_object_expression_weak_ref_cb (expression_pointer x)]
  ∧ (gtk_expression_evaluate (GtkObjectExpressionRef x) (Some bar) r.2).1
    = (true, G_VALUE (V_object (Some foo)))
  ∧ (gtk_expression_evaluate (GtkObjectExpressionRef x) (Some bar)
       (gtk_object_expression_weak_ref_cb x r.2)).1
    = (false, G_VALUE_INIT)
  ∧ trace (gtk_object_expression_weak_ref_cb x r.2) = trace r.2.
Proof.
  apply (object_expression_new_holds_weakly foo (Some bar) scene); reflexivity.
Defined.

(** ** The signal connections of property sub-watches *)

Lemma same_pointers_refl W : same_pointers W W.
Proof. by split. Qed.

Lemma same_pointers_trans W1 W2 W3 :
  same_pointers W1 W2 → same_pointers W2 W3 → same_pointers W1 W3.
Proof.
  intros [Ho1 He1] [Ho2 He2]. split.
  - intros o. by rewrite Ho1.
  - intros x. by rewrite He1.
Qed.

Lemma same_pointers_sym W1 W2 : same_pointers W1 W2 → same_pointers W2 W1.
Proof. intros [Ho He]. by split. Qed.

Lemma get_object_same_pointers expr pspec this_ W W' :
  same_pointers W W' →
  (gtk_property_expression_get_object gtk_expression_evaluate expr pspec this_ W').1
  = (gtk_property_expression_get_object gtk_expression_evaluate expr pspec this_ W).1.
Proof.
  intros Hsp. destruct expr as [e |]; [| by destruct this_].
  rewrite !get_object_child. cbn zeta.
  rewrite (evaluate_same_pointers e this_ W W' Hsp).
  destruct (evaluate_well e this_ W) as ((Hs & _) & _).
  destruct (evaluate_well e this_ W') as ((Hs' & _) & _).
  destruct Hsp as [Ho _].
  assert (Ho1 : ∀ o, (instance_view <$> objects (gtk_expression_evaluate e this_ W).2 !! o)
                     = (instance_view <$> objects (gtk_expression_evaluate e this_ W').2 !! o)).
  { intros o. rewrite <- Hs, <- Hs'. apply Ho. }
  destruct (gtk_expression_evaluate e this_ W).1 as [[] v]; simpl; [| done].
  destruct v as [| [n | s | [o |]]]; simpl; try done.
  rewrite (type_check_view _ _ o (owner_type pspec) Ho1).
  by destruct (G_TYPE_CHECK_INSTANCE_TYPE _ o _).
Qed.

Lemma connected_same_pointers W W' rec :
  same_pointers W W' → connected W rec → connected W' rec.
Proof.
  intros Hsp. destruct rec as [| n d e ps t c |]; try done.
  unfold connected. intros ->. symmetry. by apply get_object_same_pointers.
Qed.

Lemma create_closure_same_pointers w off W :
  same_pointers W (gtk_property_expression_watch_create_closure w off W).
Proof.
  destruct (create_closure_frame w off W) as (Ho & _).
  split; [intros o; by rewrite Ho | intros x; by rewrite create_closure_object_exprs].
Qed.

Lemma destroy_closure_same_pointers w off W :
  same_pointers W (gtk_property_expression_watch_destroy_closure w off W).
Proof.
  destruct (destroy_closure_frame w off W) as (Ho & _).
  split; [intros o; by rewrite Ho | intros x; by rewrite destroy_closure_object_exprs].
Qed.

Lemma subwatch_init_same_pointers e w off this_ n d W :
  same_pointers W (gtk_expression_subwatch_init e w off this_ n d W).
Proof.
  destruct (subwatch_init_frame e w off this_ n d W) as (Ho & _).
  split; [intros o; by rewrite Ho |].
  intros x. rewrite subwatch_init_object_exprs, register_slots_lookup.
  by destruct (object_exprs W !! x).
Qed.

(** Connecting a property sub-watch that has no connection connects it. *)
Lemma create_closure_connects w off W n d e ps t :
  sub_watches W !! (w, off) = Some (PropertySubWatch n d e ps t None) →
  ∃ c, sub_watches (gtk_property_expression_watch_create_closure w off W) !! (w, off)
       = Some (PropertySubWatch n d e ps t c)
       ∧ connected (gtk_property_expression_watch_create_closure w off W)
           (PropertySubWatch n d e ps t c).
Proof.
  intros Hl.
  exists (gtk_property_expression_get_object gtk_expression_evaluate e ps t W).1.
  split.
  - unfold gtk_property_expression_watch_create_closure. rewrite Hl.
    destruct (get_object_spec e ps t W (λ e' _, evaluate_well e'))
      as ((_ & _ & _ & Hs & _) & _).
    destruct (gtk_property_expression_get_object _ e ps t W) as [[o |] W1]; simpl in *.
    + by rewrite lookup_insert_eq.
    + by rewrite <- Hs.
  - unfold connected. symmetry.
    apply get_object_same_pointers, create_closure_same_pointers.
Qed.

Lemma destroy_closure_disconnects w off W n d e ps t c :
  sub_watches W !! (w, off) = Some (PropertySubWatch n d e ps t c) →
  sub_watches (gtk_property_expression_watch_destroy_closure w off W) !! (w, off)
  = Some (PropertySubWatch n d e ps t None).
Proof.
  intros Hl. unfold gtk_property_expression_watch_destroy_closure. rewrite Hl.
  destruct c; [| done]. simpl. by rewrite lookup_insert_eq.
Qed.

(** In a buffer that held no record, every record that installing
    sub-watches leaves is connected. *)
Lemma subwatch_init_connected e :
  ∀ w off this_ n d W,
    (∀ o, (off ≤ o < off + gtk_expression_watch_size e)%N → sub_watches W !! (w, o) = None) →
    let W' := gtk_expression_subwatch_init e w off this_ n d W in
    ∀ o rec,
      (off ≤ o < off + gtk_expression_watch_size e)%N →
      sub_watches W' !! (w, o) = Some rec →
      connected W' rec.
Proof.
  induction e as [value | x | pspec | e pspec IH | closure params IH]
    using GtkExpression_tree_ind; intros w off this_ n d W Hempty; cbn zeta;
    intros o rec Ho Hrec.
  - cbn [gtk_expression_watch_size] in Ho. lia.
  - destruct (decide (o = off)) as [-> | Hne].
    + simpl in Hrec. rewrite lookup_insert_eq in Hrec. by injection Hrec as <-.
    + simpl in Hrec. rewrite lookup_insert_ne in Hrec by (intros [= ?]; lia).
      rewrite Hempty in Hrec; [done | lia].
  - cbn [gtk_expression_subwatch_init] in Hrec |- *.
    destruct (decide (o = off)) as [-> | Hne].
    + destruct (create_closure_connects w off
                  (set_sub_watches
                     (<[(w, off) := PropertySubWatch n d None pspec this_ None]>) W)
                  n d None pspec this_) as (c & Hc & Hconn).
      { simpl. apply lookup_insert_eq. }
      rewrite Hc in Hrec. by injection Hrec as <-.
    + rewrite create_closure_elsewhere in Hrec by (intros [= ?]; lia).
      simpl in Hrec. rewrite lookup_insert_ne in Hrec by (intros [= ?]; lia).
      rewrite Hempty in Hrec; [done | lia].
  - rewrite property_watch_size in Hempty, Ho.
    cbn [gtk_expression_subwatch_init] in Hrec |- *.
    set (W1 := set_sub_watches
                 (<[(w, off) := PropertySubWatch n d (Some e) pspec this_ None]>) W) in *.
    set (W2 := if negb (gtk_expression_is_static e) then _ else W1) in *.
    assert (H2 : sub_watches W2 !! (w, off)
                 = Some (PropertySubWatch n d (Some e) pspec this_ None)).
    { subst W2. destruct (gtk_expression_is_static e); cbn [negb].
      - subst W1. simpl. apply lookup_insert_eq.
      - rewrite subwatch_init_confined.
        + subst W1. simpl. apply lookup_insert_eq.
        + cbn [fst snd]. unfold sizeof_GtkPropertyExpressionWatch, sizeof_gpointer. lia. }
    destruct (decide (o = off)) as [-> | Hne].
    + destruct (create_closure_connects w off W2 _ _ _ _ _ H2) as (c & Hc & Hconn).
      rewrite Hc in Hrec. by injection Hrec as <-.
    + rewrite create_closure_elsewhere in Hrec by (intros [= ?]; lia).
      apply (connected_same_pointers W2); [apply create_closure_same_pointers |].
      assert (H1 : sub_watches W1 !! (w, o) = None).
      { subst W1. simpl. rewrite lookup_insert_ne by (intros [= ?]; lia). apply Hempty. lia. }
      revert Hrec. subst W2.
      destruct (gtk_expression_is_static e); cbn [negb]; intros Hrec; [congruence |].
      destruct (decide (o < off + sizeof_GtkPropertyExpressionWatch)%N) as [Hlt | Hge].
      { rewrite subwatch_init_confined in Hrec by (cbn [fst snd]; lia). congruence. }
      apply (IH w (off + sizeof_GtkPropertyExpressionWatch)%N this_
               fn_gtk_property_expression_watch_expr_notify_cb (sub_pointer w off) W1)
        with (o := o); [| lia | done].
      intros o' Ho'. subst W1. simpl. rewrite lookup_insert_ne.
      * apply Hempty. lia.
      * intros [= ?]. unfold sizeof_GtkPropertyExpressionWatch, sizeof_gpointer in Ho'. lia.
  - rewrite closure_watch_size in Hempty, Ho.
    cbn [gtk_expression_subwatch_init] in Hrec |- *.
    set (W1 := set_sub_watches (<[(w, off) := ClosureSubWatch n d]>) W) in *.
    assert (Hloop : ∀ W0 sub,
      (∀ o, (sub ≤ o < sub + params_watch_size params)%N → sub_watches W0 !! (w, o) = None) →
      let W' := (fix loop (ps : list GtkExpression) (sub : N) (W' : World) : World :=
           match ps with
           | [] => W'
           | p :: ps' =>
               if gtk_expression_is_static p then loop ps' sub W'
               else loop ps' (sub + gtk_expression_watch_size p)%N
                      (gtk_expression_subwatch_init p w sub this_
                         fn_gtk_closure_expression_watch_notify_cb (sub_pointer w off) W')
           end) params sub W0 in
      (∀ k, ¬ (k.1 = w ∧ (sub ≤ k.2 < sub + params_watch_size params)%N) →
            sub_watches W' !! k = sub_watches W0 !! k)
      ∧ same_pointers W0 W'
      ∧ (∀ o rec, (sub ≤ o < sub + params_watch_size params)%N →
                  sub_watches W' !! (w, o) = Some rec → connected W' rec)).
    { clear Hempty Ho Hrec W1 o rec.
      induction IH as [| p ps Hp _ IHps]; intros W0 sub Hempty0; cbn zeta.
      - split; [done |]. split; [apply same_pointers_refl |].
        cbn [params_watch_size]. intros; lia.
      - cbn [params_watch_size] in Hempty0 |- *.
        destruct (gtk_expression_is_static p).
        + destruct (IHps W0 sub) as (Hconf & Hsp & Hconn).
          { intros o Ho. apply Hempty0. lia. }
          split_and!; [| done |].
          * intros k Hk. apply Hconf. intros [? ?]. apply Hk. split; [done | lia].
          * intros o rec Ho. apply Hconn. lia.
        + set (Wp := gtk_expression_subwatch_init p w sub this_
                       fn_gtk_closure_expression_watch_notify_cb (sub_pointer w off) W0).
          set (mid := (sub + gtk_expression_watch_size p)%N).
          assert (Hpconf : ∀ k, ¬ (k.1 = w ∧ (sub ≤ k.2 < mid)%N) →
                                sub_watches Wp !! k = sub_watches W0 !! k).
          { intros k Hk. by apply subwatch_init_confined. }
          destruct (IHps Wp mid) as (Hconf & Hsp & Hconn).
          { intros o Ho. rewrite Hpconf by (cbn [fst snd]; lia). apply Hempty0. lia. }
          fold Wp. fold mid.
          set (Wf := (fix loop (ps : list GtkExpression) (sub : N) (W' : World) : World :=
             match ps with
             | [] => W'
             | p :: ps' =>
                 if gtk_expression_is_static p then loop ps' sub W'
                 else loop ps' (sub + gtk_expression_watch_size p)%N
                        (gtk_expression_subwatch_init p w sub this_
                           fn_gtk_closure_expression_watch_notify_cb (sub_pointer w off) W')
             end) ps mid Wp) in *.
          split_and!.
          * intros k Hk. rewrite Hconf, Hpconf; [done | |];
              intros [? ?]; apply Hk; (split; [done | lia]).
          * eapply same_pointers_trans; [apply subwatch_init_same_pointers | exact Hsp].
          * intros o rec Ho Hrec.
            destruct (decide (o < mid)%N) as [Hlt | Hge].
            -- rewrite Hconf in Hrec by (cbn [fst snd]; lia).
               apply (connected_same_pointers Wp); [done |].
               apply (Hp w sub this_ fn_gtk_closure_expression_watch_notify_cb
                        (sub_pointer w off) W0) with (o := o);
                 [intros o' Ho'; apply Hempty0; lia | lia | done].
            -- apply (Hconn o rec); [lia | done]. }
    destruct (Hloop W1 (off + sizeof_GtkClosureExpressionWatch)%N) as (Hconf & Hsp & Hconn).
    { intros o' Ho'. subst W1. simpl. rewrite lookup_insert_ne.
      - apply Hempty. lia.
      - intros [= ?]. unfold sizeof_GtkClosureExpressionWatch, sizeof_gpointer in Ho'. lia. }
    destruct (decide (o < off + sizeof_GtkClosureExpressionWatch)%N) as [Hlt | Hge].
    + rewrite Hconf in Hrec by (cbn [fst snd]; lia).
      destruct (decide (o = off)) as [-> | Hne].
      * subst W1. simpl in Hrec. rewrite lookup_insert_eq in Hrec. by injection Hrec as <-.
      * subst W1. simpl in Hrec. rewrite lookup_insert_ne in Hrec by (intros [= ?]; lia).
        rewrite Hempty in Hrec; [done | lia].
    + apply (Hconn o rec); [lia | done].
Qed.

(** X19. A new watch listens to the right objects: when the buffer held
    no record, as it comes from the allocation, every property sub-watch
    found in it after gtk_expression_watch has its signal connection on
    the object its property expression resolves to in the world the call
    returns, and has none when the expression resolves to no object. *)
Theorem watch_connects_to_the_resolved_object
    self this_ notify_ user_data_ user_destroy_ W o n d e ps t c :
  let r := gtk_expression_watch self this_ notify_ user_data_ user_destroy_ W in
  let w := fresh (dom (expression_watches W)) in
  (∀ o', sub_watches W !! (w, o') = None) →
  sub_watches r.2 !! (w, o) = Some (PropertySubWatch n d e ps t c) →
  c = (gtk_property_expression_get_object gtk_expression_evaluate e ps t r.2).1.
Proof.
  cbn zeta. intros Hempty. unfold gtk_expression_watch.
  destruct (this_is_valid W this_); cbn [negb snd]; [| by rewrite Hempty].
  set (w := fresh (dom (expression_watches W))) in *.
  set (W2 := match this_ with Some _ => _ | None => _ end).
  assert (H2 : sub_watches W2 = sub_watches W) by (subst W2; by destruct this_).
  intros Hrec.
  destruct (decide (o < 0 + gtk_expression_watch_size self)%N) as [Hin | Hout].
  - apply (subwatch_init_connected self w 0 this_ fn_gtk_expression_watch_cb (watch_pointer w) W2)
      with (o := o) (rec := PropertySubWatch n d e ps t c); [| lia | done].
    intros o' _. by rewrite H2.
  - rewrite subwatch_init_confined, H2, Hempty in Hrec; [done |]. cbn [fst snd]. lia.
Qed.

Lemma watch_connects_to_the_resolved_object_witness :
  Some foo
  = (gtk_property_expression_get_object gtk_expression_evaluate
       (Some (GtkObjectExpressionRef foo_expression)) width_pspec None
       watched_foo_expression.2).1.
Proof.
  apply (watch_connects_to_the_resolved_object width_of_foo_expression None (user_notify 0)
           (user_pointer 0) None (gtk_object_expression_new foo scene).2 0%N
           fn_gtk_expression_watch_cb (watch_pointer 1%positive)).
  - intros o'. reflexivity.
  - reflexivity.
Defined.

(** X20. gtk_property_expression_watch_expr_notify_cb, called when the
    expression below a property changed, moves the signal connection: it
    drops the connection the sub-watch had and connects to the object the
    property expression resolves to now, or to none; the fields of the
    record are otherwise kept, and no object reference is kept. *)
Theorem expr_notify_reconnects w off W n d e ps t c :
  sub_watches W !! (w, off) = Some (PropertySubWatch n d e ps t c) →
  let W1 := gtk_property_expression_watch_create_closure w off
              (gtk_property_expression_watch_destroy_closure w off W) in
  ∃ c', sub_watches W1 !! (w, off) = Some (PropertySubWatch n d e ps t c')
        ∧ c' = (gtk_property_expression_get_object gtk_expression_evaluate e ps t W).1
        ∧ c' = (gtk_property_expression_get_object gtk_expression_evaluate e ps t W1).1
        ∧ (∀ k, k ≠ (w, off) → sub_watches W1 !! k = sub_watches W !! k)
        ∧ objects W1 = objects W
        ∧ (∀ o, ref_counts W1 o = ref_counts W o)
        ∧ live_values W1 = live_values W
        ∧ ∀ fuel,
            gtk_property_expression_watch_expr_notify_cb (call_pointer fuel) w off W
            = call_pointer fuel n d W1.
Proof.
  intros Hl. cbn zeta.
  pose proof (destroy_closure_disconnects w off W n d e ps t c Hl) as Hd.
  destruct (create_closure_connects w off _ n d e ps t Hd) as (c' & Hc' & Hconn).
  destruct (destroy_closure_frame w off W) as (Ho1 & _ & _ & Hl1 & Hr1 & _).
  destruct (create_closure_frame w off (gtk_property_expression_watch_destroy_closure w off W))
    as (Ho2 & _ & _ & Hl2 & Hr2 & _).
  exists c'. split_and!.
  - done.
  - unfold connected in Hconn. rewrite Hconn.
    apply get_object_same_pointers.
    eapply same_pointers_trans;
      [apply destroy_closure_same_pointers | apply create_closure_same_pointers].
  - exact Hconn.
  - intros k Hk. by rewrite create_closure_elsewhere, destroy_closure_elsewhere.
  - by rewrite <- Ho2.
  - intros o. by rewrite <- Hr2.
  - by rewrite <- Hl2.
  - intros fuel. unfold gtk_property_expression_watch_expr_notify_cb. cbn zeta.
    by rewrite Hc'.
Qed.

Lemma expr_notify_reconnects_witness :
  let W1 := gtk_property_expression_watch_create_closure 1%positive 0
              (gtk_property_expression_watch_destroy_closure 1%positive 0
                 (gtk_object_expression_weak_ref_cb foo_expression watched_foo_expression.2)) in
  ∃ c', sub_watches W1 !! (1%positive, 0%N)
        = Some (PropertySubWatch fn_gtk_expression_watch_cb (watch_pointer 1%positive)
                  (Some (GtkObjectExpressionRef foo_expression)) width_pspec None c')
        ∧ c' = (gtk_property_expression_get_object gtk_expression_evaluate
                  (Some (GtkObjectExpressionRef foo_expression)) width_pspec None
                  (gtk_object_expression_weak_ref_cb foo_expression
                     watched_foo_expression.2)).1
        ∧ c' = (gtk_property_expression_get_object gtk_expression_evaluate
                  (Some (GtkObjectExpressionRef foo_expression)) width_pspec None W1).1
        ∧ (∀ k, k ≠ (1%positive, 0%N) →
                sub_watches W1 !! k
                = sub_watches (gtk_object_expression_weak_ref_cb foo_expression
                                 watched_foo_expression.2) !! k)
        ∧ objects W1
          = objects (gtk_object_expression_weak_ref_cb foo_expression watched_foo_expression.2)
        ∧ (∀ o, ref_counts W1 o
                = ref_counts (gtk_object_expression_weak_ref_cb foo_expression
                                watched_foo_expression.2) o)
        ∧ live_values W1
          = live_values (gtk_object_expression_weak_ref_cb foo_expression
                           watched_foo_expression.2)
        ∧ ∀ fuel,
            gtk_property_expression_watch_expr_notify_cb (call_pointer fuel) 1%positive 0
              (gtk_object_expression_weak_ref_cb foo_expression watched_foo_expression.2)
            = call_pointer fuel fn_gtk_expression_watch_cb (watch_pointer 1%positive) W1.
Proof.
  apply (expr_notify_reconnects 1%positive 0%N
           (gtk_object_expression_weak_ref_cb foo_expression watched_foo_expression.2)
           fn_gtk_expression_watch_cb (watch_pointer 1%positive)
           (Some (GtkObjectExpressionRef foo_expression)) width_pspec None (Some foo)).
  reflexivity.
Defined.

(** ** A target with binds is destroyed *)

Lemma unwatch_keeps_unwatched w' w W :
  (expression <$> expression_watches W !! w) = Some None →
  (expression <$> expression_watches (gtk_expression_watch_unwatch w' W) !! w) = Some None.
Proof.
  intros Hw. destruct (decide (w' = w)) as [-> | Hne].
  - unfold gtk_expression_watch_unwatch.
    destruct (expression_watches W !! w) as [[[e |] t d n ud rc] |] eqn:Hl.
    + by simplify_eq/=.
    + cbn [expression]. by rewrite Hl.
    + by simplify_eq/=.
  - destruct (expression_watches W !! w') as [watch |] eqn:Hw';
      [| unfold gtk_expression_watch_unwatch; by rewrite Hw'].
    destruct (expression watch) as [e |] eqn:He;
      [| unfold gtk_expression_watch_unwatch; by rewrite Hw', He].
    destruct (unwatch_spec w' watch e W Hw' He) as (_ & Hother & _).
    cbn zeta in Hother. by rewrite Hother.
Qed.

Lemma free_binds_keeps_unwatched l :
  ∀ W W' w,
    (expression <$> expression_watches W !! w) = Some None →
    free_binds l W = Some W' →
    (expression <$> expression_watches W' !! w) = Some None.
Proof.
  induction l as [| b l IH]; intros W W' w Hw Hfree.
  - by injection Hfree as <-.
  - cbn [free_binds] in Hfree.
    destruct (expression_bind_table W !! b) as [[bw [t |] ps] |]; cbn [bind_target bind_watch] in Hfree;
      try done.
    apply (IH _ _ w) in Hfree; [done |]. simpl.
    destruct bw as [w' |]; [by apply unwatch_keeps_unwatched | done].
Qed.

(** X21. From the bind to the end of its target: when a target that was
    bound with gtk_expression_bind is destroyed, invalidate_binds followed
    by free_binds on its list runs to the end, frees every bind of the
    list, leaves the watch the bind had created unwatched, and writes no
    property. *)
Theorem target_destroyed_releases_the_bind self target property this_ W w :
  binds_consistent W →
  (gtk_expression_bind self target property this_ W).1 = Some w →
  let W1 := (gtk_expression_bind self target property this_ W).2 in
  ∃ W', free_binds (get_expression_binds W1 target) (invalidate_binds target W1) = Some W'
        ∧ fresh (dom (expression_bind_table W)) ∈ get_expression_binds W1 target
        ∧ (∀ b, b ∈ get_expression_binds W1 target → expression_bind_table W' !! b = None)
        ∧ (expression <$> expression_watches W' !! w) = Some None
        ∧ ∀ o, (instance_view <$> objects W' !! o) = (instance_view <$> objects W1 !! o).
Proof.
  intros Hc Hret. cbn zeta.
  pose proof (bind_consistent self target property this_ W Hc) as Hc1.
  destruct (objects W !! target) as [obj |] eqn:Hobj;
    [| unfold gtk_expression_bind in Hret; by rewrite Hobj in Hret].
  destruct (class_properties obj !! property) as [pspec |] eqn:Hps;
    [| unfold gtk_expression_bind in Hret; by rewrite Hobj, Hps in Hret].
  destruct (is_writable pspec) eqn:Hwr;
    [| unfold gtk_expression_bind in Hret; by rewrite Hobj, Hps, Hwr in Hret].
  destruct (bind_stores self target property this_ obj pspec W Hobj Hps Hwr)
    as (W3 & W5 & HW6 & _ & Hr1 & Hb5 & Ho5 & Hvalid).
  rewrite Hret in Hr1, Hb5.
  destruct (this_is_valid W this_); [| done]. injection Hr1 as ->.
  destruct (Hvalid eq_refl) as [Hw5 _]. clear Hvalid Hret.
  set (b := fresh (dom (expression_bind_table W))) in *.
  set (w := fresh (dom (expression_watches W))) in *.
  set (W1 := (gtk_expression_bind self target property this_ W).2) in *.
  destruct (bind_notify_spec b W5) as (_ & Hw6 & _ & Hb6 & _).
  pose proof (bind_notify_binds b W5 target) as Ho6.
  rewrite <- HW6 in Hw6, Hb6, Ho6. rewrite Ho5, lookup_insert_eq in Ho6. cbn in Ho6.
  destruct (objects W1 !! target) as [obj1 |] eqn:Hobj1; [| done].
  injection Ho6 as Ho6.
  assert (Hl : get_expression_binds W1 target = b :: expression_binds obj).
  { unfold get_expression_binds. by rewrite Hobj1, <- Ho6. }
  destruct (Hc1 target obj1 Hobj1) as [Hnd Hall]. fold W1 in Hall. rewrite Ho6 in Hnd, Hall.
  destruct (invalidate_binds_frame target W1) as (Hoi & _ & Hwi & _).
  assert (Hinv : ∀ b', b' ∈ b :: expression_binds obj →
            ∃ bind_, expression_bind_table (invalidate_binds target W1) !! b' = Some bind_
                     ∧ bind_target bind_ = None).
  { intros b' Hb'. rewrite invalidate_binds_table, Hl, bool_decide_eq_true_2 by done.
    destruct (Hall b' Hb') as (bind_ & -> & _). by eexists. }
  rewrite Hl.
  destruct (free_binds_frees (b :: expression_binds obj) (invalidate_binds target W1) Hnd Hinv)
    as (W' & HW' & Hfreed & Ho' & _).
  exists W'. split_and!.
  - done.
  - constructor.
  - intros b' Hb'. apply Hfreed. by right.
  - cbn [free_binds] in HW'.
    rewrite invalidate_binds_table, Hl, bool_decide_eq_true_2 in HW' by constructor.
    rewrite Hb6, Hb5, lookup_insert_eq in HW'. cbn in HW'.
    apply (free_binds_keeps_unwatched _ _ _ w) in HW'; [done |]. simpl.
    assert (Hrec : expression_watches (invalidate_binds target W1) !! w
                   = Some (mkWatch (Some self) this_ (Some fn_gtk_expression_bind_free)
                             fn_gtk_expression_bind_notify (bind_pointer b) 1)).
    { by rewrite Hwi, Hw6, Hw5, lookup_insert_eq. }
    destruct (unwatch_spec w _ self (invalidate_binds target W1) Hrec eq_refl) as (-> & _).
    done.
  - intros o. rewrite <- Ho'. by rewrite Hoi.
Qed.

Lemma target_destroyed_releases_the_bind_witness :
  ∃ W', free_binds (get_expression_binds bound_scene bar) (invalidate_binds bar bound_scene)
        = Some W'
        ∧ fresh (dom (expression_bind_table scene)) ∈ get_expression_binds bound_scene bar
        ∧ (∀ b, b ∈ get_expression_binds bound_scene bar → expression_bind_table W' !! b = None)
        ∧ (expression <$> expression_watches W' !! 1%positive) = Some None
        ∧ ∀ o, (instance_view <$> objects W' !! o) = (instance_view <$> objects bound_scene !! o).
Proof.
  apply (target_destroyed_releases_the_bind this_width bar "label" (Some foo) scene 1%positive).
  - exact scene_consistent.
  - reflexivity.
Defined.
